(** * Portfolio valuation and analytics engine ([lib/finance.ts])

    A shallow embedding of the valuation engine ([calculatePortfolioHistory],
    [shouldRebalance]) and of the metrics engine ([calculateMetrics],
    [calculateMonthlyPerformance], [calculateCorrelation]) together with the
    properties stated about them.

    Around the engine the development also embeds its callers and the data
    they exchange: the validation of the fetched data and the benchmark
    series of the dashboard ([PortfolioBuilder]), the symbol filter and the
    forward fill of the market data route ([app/api/market-data/route.ts]),
    [escapeCSV] of the export ([lib/export.ts]), the saved portfolios
    ([lib/portfolio-storage.ts]) and the table of assets on offer
    ([lib/crypto-assets.ts]).

    Numbers.  A finite JavaScript number is a real number: arithmetic on
    finite numbers is exact (no rounding, no overflow, one unsigned zero).
    The inputs of the engine (prices, weights, capital, portfolio values) are
    finite numbers, hence of type [R].  The valuation engine only divides by
    [100] and by prices it has tested to be positive, so it stays inside [R].
    The metrics engine divides by values it has not tested; its results are
    of type [num], which adds the values [Infinity], [-Infinity] and [NaN]
    with their IEEE 754 rules.

    Objects used as maps ([weights], [units], the ticker fields of a price
    record) are lists of entries in [Object.keys] order; the keys of an object
    are pairwise distinct. *)

From Stdlib Require Import Reals Lra Lia ZArith List String Ascii Bool.
From Stdlib Require Import Sorted Permutation.
Import ListNotations.

Open Scope R_scope.

(* ================================================================= *)
(** ** Finite numbers: decidable comparisons *)

Definition Rltb (a b : R) : bool := if Rlt_dec a b then true else false.
Definition Reqb (a b : R) : bool := if Req_dec_T a b then true else false.

(** Truthiness of a finite number: every number but zero. *)
Definition truthy (x : R) : bool := negb (Reqb x 0).

(* ================================================================= *)
(** ** Numbers with the IEEE special values *)

Inductive num : Type :=
  | Fin (r : R)
  | PInf
  | NInf
  | NaN.

Module Num.

Definition neg (a : num) : num :=
  match a with
  | Fin r => Fin (- r)
  | PInf => NInf
  | NInf => PInf
  | NaN => NaN
  end.

Definition add (a b : num) : num :=
  match a, b with
  | NaN, _ | _, NaN => NaN
  | PInf, NInf | NInf, PInf => NaN
  | PInf, _ | _, PInf => PInf
  | NInf, _ | _, NInf => NInf
  | Fin x, Fin y => Fin (x + y)
  end.

Definition sub (a b : num) : num := add a (neg b).

(** The infinity with the sign of a non-zero finite [r]. *)
Definition inf_of_sign (r : R) : num := if Rltb r 0 then NInf else PInf.

Definition mul (a b : num) : num :=
  match a, b with
  | NaN, _ | _, NaN => NaN
  | Fin x, Fin y => Fin (x * y)
  | PInf, PInf | NInf, NInf => PInf
  | PInf, NInf | NInf, PInf => NInf
  | PInf, Fin y | Fin y, PInf => if Reqb y 0 then NaN else inf_of_sign y
  | NInf, Fin y | Fin y, NInf => if Reqb y 0 then NaN else inf_of_sign (- y)
  end.

(** Division.  A finite non-zero number over zero is the infinity of its
    sign, zero over zero is [NaN]. *)
Definition div (a b : num) : num :=
  match a, b with
  | NaN, _ | _, NaN => NaN
  | Fin x, Fin y =>
      if Reqb y 0
      then (if Reqb x 0 then NaN else inf_of_sign x)
      else Fin (x / y)
  | Fin _, PInf | Fin _, NInf => Fin 0
  | PInf, Fin y => if Rltb y 0 then NInf else PInf
  | NInf, Fin y => if Rltb y 0 then PInf else NInf
  | PInf, PInf | PInf, NInf | NInf, PInf | NInf, NInf => NaN
  end.

(** Comparisons: every comparison with [NaN] is false. *)
Definition ltb (a b : num) : bool :=
  match a, b with
  | NaN, _ | _, NaN => false
  | Fin x, Fin y => Rltb x y
  | _, NInf => false
  | NInf, _ => true
  | PInf, _ => false
  | Fin _, PInf => true
  end.

Definition gtb (a b : num) : bool := ltb b a.

(** [a === b] on numbers. *)
Definition eqb (a b : num) : bool :=
  match a, b with
  | Fin x, Fin y => Reqb x y
  | PInf, PInf | NInf, NInf => true
  | _, _ => false
  end.

Definition leb (a b : num) : bool := ltb a b || eqb a b.

(** [Math.max] and [Math.min] of two arguments: [NaN] if either is. *)
Definition max (a b : num) : num :=
  match a, b with
  | NaN, _ | _, NaN => NaN
  | _, _ => if ltb a b then b else a
  end.

Definition min (a b : num) : num :=
  match a, b with
  | NaN, _ | _, NaN => NaN
  | _, _ => if ltb b a then b else a
  end.

(** [Math.max(...xs)] and [Math.min(...xs)]. *)
Definition max_list (xs : list num) : num := fold_left max xs NInf.
Definition min_list (xs : list num) : num := fold_left min xs PInf.

Definition sqrt (a : num) : num :=
  match a with
  | Fin r => if Rltb r 0 then NaN else Fin (R_sqrt.sqrt r)
  | PInf => PInf
  | NInf | NaN => NaN
  end.

(** [a] is a number that is not negative. *)
Definition nonneg (a : num) : Prop :=
  match a with
  | Fin r => 0 <= r
  | PInf => True
  | NInf | NaN => False
  end.

End Num.

(* ================================================================= *)
(** ** The runtime library *)

(** [Date] and [Math.pow] belong to the JavaScript runtime.  [new Date(s)]
    is a valid date with its fields, or an invalid date ([None]), all of
    whose getters answer [NaN]. *)
Record JsDate : Type := mkDate {
  fullYear : Z;      (* getFullYear() *)
  monthIndex : Z;    (* getMonth(): January is 0 *)
  time : Z           (* getTime(): milliseconds since the epoch *)
}.

Class Runtime : Type := {
  Date_new : string -> option JsDate;
  Math_pow : num -> num -> num
}.

(** The getters; [None] is [NaN]. *)
Definition getFullYear (d : option JsDate) : option Z := option_map fullYear d.
Definition getMonth (d : option JsDate) : option Z := option_map monthIndex d.

Definition getTime (d : option JsDate) : num :=
  match d with
  | Some x => Fin (IZR (time x))
  | None => NaN
  end.

(** Comparisons of integers that may be [NaN]. *)
Definition zgt (a b : option Z) : bool :=
  match a, b with
  | Some x, Some y => (y <? x)%Z
  | _, _ => false
  end.

Definition zeq (a b : option Z) : bool :=
  match a, b with
  | Some x, Some y => (x =? y)%Z
  | _, _ => false
  end.

(** [Math.floor(m / 3)]. *)
Definition quarter_of (m : option Z) : option Z :=
  option_map (fun x => (x / 3)%Z) m.

(* ================================================================= *)
(** ** Data model *)

Inductive RebalanceFrequency : Type :=
  | none
  | quarterly
  | annually.

(** [{ date: string; value: number }] *)
Record ValuePoint : Type := mkPoint {
  date : string;
  value : R
}.

(** [DailyData]: a date and, for each ticker field, its price. *)
Record DailyData : Type := mkDay {
  day_date : string;
  day_fields : list (string * R)
}.

(** [o[key]]: the value of the entry with that key, if there is one. *)
Fixpoint lookup {A : Type} (key : string) (o : list (string * A)) : option A :=
  match o with
  | [] => None
  | (k, v) :: rest => if String.eqb k key then Some v else lookup key rest
  end.

(** [dayData[ticker]]; [None] when the field is absent (or not a number). *)
Definition price_of (dayData : DailyData) (ticker : string) : option R :=
  lookup ticker (day_fields dayData).

(* ================================================================= *)
(** ** ValuationEngine *)

Section Valuation.

Context {rt : Runtime}.

Definition shouldRebalance (currentDate lastRebalanceDate : string)
    (frequency : RebalanceFrequency) : bool :=
  match frequency with
  | none => false
  | quarterly =>
      let current := Date_new currentDate in
      let lastRebalance := Date_new lastRebalanceDate in
      let currentQuarter := quarter_of (getMonth current) in
      let lastQuarter := quarter_of (getMonth lastRebalance) in
      let currentYear := getFullYear current in
      let lastYear := getFullYear lastRebalance in
      zgt currentYear lastYear
      || (zeq currentYear lastYear && zgt currentQuarter lastQuarter)
  | annually =>
      let current := Date_new currentDate in
      let lastRebalance := Date_new lastRebalanceDate in
      zgt (getFullYear current) (getFullYear lastRebalance)
  end.

(** The helper [calculateUnits]; the test is [price && price > 0]. *)
Definition calculateUnits (weights : list (string * R))
    (dayData : DailyData) (portfolioValue : R) : list (string * R) :=
  map (fun '(ticker, w) =>
         let weight := w / 100 in
         match price_of dayData ticker with
         | Some price =>
             if truthy price && Rltb 0 price
             then (ticker, (portfolioValue * weight) / price)
             else (ticker, 0)
         | None => (ticker, 0)
         end)
      weights.

(** The helper [calculateValue]; a field that is not a number is skipped. *)
Definition calculateValue (dayData : DailyData)
    (currentUnits : list (string * R)) : R :=
  fold_left
    (fun totalValue '(ticker, u) =>
       match price_of dayData ticker with
       | Some price => totalValue + u * price
       | None => totalValue
       end)
    currentUnits 0.

(** One turn of the loop of [calculatePortfolioHistory]: the holdings after
    the rebalance check of that day, whether the check rebalanced, and the
    point pushed to [results]. *)
Record Step : Type := mkStep {
  step_units : list (string * R);
  step_rebalanced : bool;
  step_point : ValuePoint
}.

(** The loop, from index [i] on, with the loop variables [units] and
    [lastRebalanceDate]. *)
Fixpoint simulate (weights : list (string * R)) (frequency : RebalanceFrequency)
    (days : list DailyData) (i : nat) (units : list (string * R))
    (lastRebalanceDate : string) : list Step :=
  match days with
  | [] => []
  | day :: rest =>
      let rebalance :=
        (0 <? i)%nat && shouldRebalance (day_date day) lastRebalanceDate frequency in
      let units' :=
        if rebalance
        then calculateUnits weights day (calculateValue day units)
        else units in
      let last' := if rebalance then day_date day else lastRebalanceDate in
      mkStep units' rebalance (mkPoint (day_date day) (calculateValue day units'))
        :: simulate weights frequency rest (S i) units' last'
  end.

Definition history_steps (historicalData : list DailyData)
    (weights : list (string * R)) (initialInvestment : R)
    (rebalanceFrequency : RebalanceFrequency) : list Step :=
  match historicalData with
  | [] => []
  | day0 :: _ =>
      simulate weights rebalanceFrequency historicalData 0
        (calculateUnits weights day0 initialInvestment) (day_date day0)
  end.

Definition calculatePortfolioHistory (historicalData : list DailyData)
    (weights : list (string * R)) (initialInvestment : R)
    (rebalanceFrequency : RebalanceFrequency) : list ValuePoint :=
  map step_point
    (history_steps historicalData weights initialInvestment rebalanceFrequency).

End Valuation.

(** What the ticker adds to [totalValue] in [calculateValue]. *)
Definition contribution (dayData : DailyData) (units : list (string * R))
    (ticker : string) : R :=
  match lookup ticker units, price_of dayData ticker with
  | Some u, Some price => u * price
  | _, _ => 0
  end.

(** The price of the ticker is a positive number on that day. *)
Definition positive_price (dayData : DailyData) (ticker : string) : Prop :=
  exists p, price_of dayData ticker = Some p /\ 0 < p.

(* ================================================================= *)
(** ** MetricsEngine: data *)

(** [MonthlyPerformance]; the field [return] is [return_] here. *)
Record MonthlyPerformance : Type := mkMonth {
  month : string;
  return_ : num;
  startValue : R;
  endValue : R
}.

Record MonthlyStats : Type := mkMonthlyStats {
  averageReturn : num;
  upMonths : nat;
  downMonths : nat;
  bestMonth : MonthlyPerformance;
  worstMonth : MonthlyPerformance;
  monthlyData : list MonthlyPerformance
}.

(** [Metrics]; an optional field that is left out is [None]. *)
Record Metrics : Type := mkMetrics {
  initialInvestment : num;
  finalBalance : num;
  totalReturn : num;
  cagr : num;
  volatility : num;
  sharpeRatio : num;
  bestDay : num;
  worstDay : num;
  maxDrawdown : num;
  monthlyStats : option MonthlyStats;
  sp500Correlation : option num
}.

Definition ANNUAL_RISK_FREE_RATE : R := 3 / 100.

(** [xs.reduce((a, b) => a + b, 0)] *)
Definition sum_list (xs : list num) : num := fold_left Num.add xs (Fin 0).

(** [xs.length] as a number. *)
Definition length_num {A : Type} (xs : list A) : num := Fin (INR (List.length xs)).

(* ================================================================= *)
(** ** calculateCorrelation *)

(** The loop over [i]: the three running sums. *)
Fixpoint correlation_sums (portfolioReturns benchmarkReturns : list num)
    (meanX meanY numerator sumXSquared sumYSquared : num) : num * num * num :=
  match portfolioReturns, benchmarkReturns with
  | x :: xs, y :: ys =>
      let xDiff := Num.sub x meanX in
      let yDiff := Num.sub y meanY in
      correlation_sums xs ys meanX meanY
        (Num.add numerator (Num.mul xDiff yDiff))
        (Num.add sumXSquared (Num.mul xDiff xDiff))
        (Num.add sumYSquared (Num.mul yDiff yDiff))
  | _, _ => (numerator, sumXSquared, sumYSquared)
  end.

Definition calculateCorrelation (portfolioReturns benchmarkReturns : list num) : num :=
  if negb (List.length portfolioReturns =? List.length benchmarkReturns)%nat
     || (List.length portfolioReturns <? 2)%nat
  then Fin 0
  else
    let n := length_num portfolioReturns in
    let meanX := Num.div (sum_list portfolioReturns) n in
    let meanY := Num.div (sum_list benchmarkReturns) n in
    let '(numerator, sumXSquared, sumYSquared) :=
      correlation_sums portfolioReturns benchmarkReturns meanX meanY
        (Fin 0) (Fin 0) (Fin 0) in
    let denominator := Num.sqrt (Num.mul sumXSquared sumYSquared) in
    if Num.eqb denominator (Fin 0) then Fin 0
    else Num.div numerator denominator.

(* ================================================================= *)
(** ** calculateMonthlyPerformance *)

(** [day.date.substring(0, 7)] *)
Definition month_of (day : ValuePoint) : string := substring 0 7 (date day).

(** The entry pushed to [monthlyData] for a month. *)
Definition month_entry (currentMonth : string) (monthStart monthEnd : ValuePoint)
    : MonthlyPerformance :=
  mkMonth currentMonth
    (Num.sub (Num.div (Fin (value monthEnd)) (Fin (value monthStart))) (Fin 1))
    (value monthStart) (value monthEnd).

(** [if (monthStart && monthEnd) monthlyData.push(...)] *)
Definition save_month (monthlyData : list MonthlyPerformance) (currentMonth : string)
    (monthStart monthEnd : option ValuePoint) : list MonthlyPerformance :=
  match monthStart, monthEnd with
  | Some s, Some e => monthlyData ++ [month_entry currentMonth s e]
  | _, _ => monthlyData
  end.

(** The grouping loop and the push of the last month after it. *)
Fixpoint group_months (days : list ValuePoint)
    (monthlyData : list MonthlyPerformance) (currentMonth : string)
    (monthStart monthEnd : option ValuePoint) : list MonthlyPerformance :=
  match days with
  | [] => save_month monthlyData currentMonth monthStart monthEnd
  | day :: rest =>
      let month := month_of day in
      if negb (String.eqb month currentMonth)
      then group_months rest
             (save_month monthlyData currentMonth monthStart monthEnd)
             month (Some day) (Some day)
      else group_months rest monthlyData currentMonth monthStart (Some day)
  end.

(** [xs.reduce(f)] without an initial value, on a non-empty array. *)
Definition reduce1 {A : Type} (f : A -> A -> A) (first : A) (others : list A) : A :=
  fold_left f others first.

Definition calculateMonthlyPerformance (portfolioValues : list ValuePoint)
    : option MonthlyStats :=
  if (List.length portfolioValues <? 2)%nat then None
  else
    let data := group_months portfolioValues [] EmptyString None None in
    match data with
    | [] => None
    | first :: others =>
        let averageReturn :=
          Num.div (fold_left (fun sum m => Num.add sum (return_ m)) data (Fin 0))
                  (length_num data) in
        let upMonths :=
          List.length (filter (fun m => Num.gtb (return_ m) (Fin 0)) data) in
        let downMonths :=
          List.length (filter (fun m => Num.leb (return_ m) (Fin 0)) data) in
        let bestMonth :=
          reduce1 (fun best m =>
                     if Num.gtb (return_ m) (return_ best) then m else best)
                  first others in
        let worstMonth :=
          reduce1 (fun worst m =>
                     if Num.ltb (return_ m) (return_ worst) then m else worst)
                  first others in
        Some (mkMonthlyStats averageReturn upMonths downMonths
                bestMonth worstMonth data)
    end.

(* ================================================================= *)
(** ** calculateMetrics *)

(** [r = values[i].value / values[i - 1].value - 1], for [i] from [1]. *)
Fixpoint dailyReturns_from (previous : ValuePoint) (rest : list ValuePoint)
    : list num :=
  match rest with
  | [] => []
  | current :: rest' =>
      Num.sub (Num.div (Fin (value current)) (Fin (value previous))) (Fin 1)
        :: dailyReturns_from current rest'
  end.

(** The maximum-drawdown loop, from index [1] on, with the loop variables
    [maxDrawdown] and [peak]. *)
Fixpoint drawdown_loop (rest : list ValuePoint) (maxDrawdown : num) (peak : R)
    : num :=
  match rest with
  | [] => maxDrawdown
  | point :: rest' =>
      let currentValue := value point in
      if Rltb peak currentValue
      then drawdown_loop rest' maxDrawdown currentValue
      else
        let drawdown :=
          Num.div (Num.sub (Fin peak) (Fin currentValue)) (Fin peak) in
        drawdown_loop rest' (Num.max maxDrawdown drawdown) peak
  end.

(** *** Alignment with the benchmark *)

(** [d.value && d.value > 0] *)
Definition sp500_usable (d : ValuePoint) : bool :=
  truthy (value d) && Rltb 0 (value d).

(** [sp500ByDate] after the [forEach]; an assignment to a date already
    present comes first in the list and so shadows the older entry. *)
Definition sp500ByDate_of (sp500Data : list ValuePoint) : list (string * R) :=
  fold_left
    (fun byDate d => if sp500_usable d then (date d, value d) :: byDate else byDate)
    sp500Data [].

Fixpoint insert_sorted (s : string) (sorted : list string) : list string :=
  match sorted with
  | [] => [s]
  | x :: rest => if String.leb s x then s :: sorted else x :: insert_sorted s rest
  end.

(** [dates.sort()] on strings. *)
Definition sort_strings (dates : list string) : list string :=
  fold_right insert_sorted [] dates.

Definition sp500Dates_of (sp500Data : list ValuePoint) : list string :=
  sort_strings (map date (filter sp500_usable sp500Data)).

Definition str_truthy (s : string) : bool := negb (String.eqb s EmptyString).

Definition opt_truthy (o : option R) : bool :=
  match o with
  | Some v => truthy v
  | None => false
  end.

(** A field read as a number; an absent field is [NaN] in arithmetic. *)
Definition num_of (o : option R) : num :=
  match o with
  | Some v => Fin v
  | None => NaN
  end.

Definition findNearestSp500Date (sp500ByDate : list (string * R))
    (sp500Dates : list string) (targetDate : string) : option string :=
  if opt_truthy (lookup targetDate sp500ByDate) then Some targetDate
  else find (fun d => String.leb d targetDate) (rev sp500Dates).

Definition stepSize : nat := 5.

(** The values of [i] in [for (i = stepSize; i < n; i += stepSize)]. *)
Definition weekly_indices (n : nat) : list nat :=
  map (fun k => (stepSize * S k)%nat) (seq 0 ((n - 1) / stepSize)).

(** [weeklyPortfolioReturns] and [weeklySp500Returns], pushed together. *)
Definition weekly_returns (portfolioValues : list ValuePoint)
    (sp500ByDate : list (string * R)) (sp500Dates : list string)
    : list (num * num) :=
  fold_left
    (fun pairs i =>
       match nth_error portfolioValues i,
             nth_error portfolioValues (i - stepSize) with
       | Some curr, Some prev =>
           match findNearestSp500Date sp500ByDate sp500Dates (date curr),
                 findNearestSp500Date sp500ByDate sp500Dates (date prev) with
           | Some currSp500Date, Some prevSp500Date =>
               if str_truthy currSp500Date && str_truthy prevSp500Date
                  && negb (String.eqb currSp500Date prevSp500Date)
               then
                 pairs ++
                 [(Num.sub (Num.div (Fin (value curr)) (Fin (value prev))) (Fin 1),
                   Num.sub (Num.div (num_of (lookup currSp500Date sp500ByDate))
                                    (num_of (lookup prevSp500Date sp500ByDate)))
                           (Fin 1))]
               else pairs
           | _, _ => pairs
           end
       | _, _ => pairs
       end)
    (weekly_indices (List.length portfolioValues)) [].

(** The loop variables of the fallback alignment. *)
Record Alignment : Type := mkAlignment {
  alignedReturns : list (num * num);
  lastValidSp500Date : option string;
  lastValidSp500Value : option R;
  lastPortfolioValue : option R
}.

Definition align_step (sp500ByDate : list (string * R))
    (sp500Dates : list string) (st : Alignment) (point : ValuePoint) : Alignment :=
  match findNearestSp500Date sp500ByDate sp500Dates (date point) with
  | Some currSp500Date =>
      match lookup currSp500Date sp500ByDate with
      | Some currSp500Value =>
          if str_truthy currSp500Date && truthy currSp500Value
          then
            let returns :=
              match lastValidSp500Date st, lastValidSp500Value st,
                    lastPortfolioValue st with
              | Some lastDate, Some lastValue, Some lastPortfolio =>
                  if str_truthy lastDate && truthy lastValue && truthy lastPortfolio
                     && negb (String.eqb currSp500Date lastDate)
                  then
                    alignedReturns st ++
                    [(Num.sub (Num.div (Fin (value point)) (Fin lastPortfolio)) (Fin 1),
                      Num.sub (Num.div (Fin currSp500Value) (Fin lastValue)) (Fin 1))]
                  else alignedReturns st
              | _, _, _ => alignedReturns st
              end in
            mkAlignment returns (Some currSp500Date) (Some currSp500Value)
              (Some (value point))
          else st
      | None => st
      end
  | None => st
  end.

Definition aligned_returns (portfolioValues : list ValuePoint)
    (sp500ByDate : list (string * R)) (sp500Dates : list string)
    : list (num * num) :=
  alignedReturns
    (fold_left (align_step sp500ByDate sp500Dates) portfolioValues
       (mkAlignment [] None None None)).

Definition benchmark_correlation (portfolioValues : list ValuePoint)
    (sp500Data : option (list ValuePoint)) : option num :=
  match sp500Data with
  | Some sp500 =>
      if (1 <? List.length sp500)%nat && (1 <? List.length portfolioValues)%nat
      then
        let sp500ByDate := sp500ByDate_of sp500 in
        let sp500Dates := sp500Dates_of sp500 in
        let weekly := weekly_returns portfolioValues sp500ByDate sp500Dates in
        if (10 <=? List.length weekly)%nat
        then Some (calculateCorrelation (map fst weekly) (map snd weekly))
        else
          let aligned := aligned_returns portfolioValues sp500ByDate sp500Dates in
          if (20 <=? List.length aligned)%nat
          then Some (calculateCorrelation (map fst aligned) (map snd aligned))
          else None
      else None
  | None => None
  end.

Section MetricsEngine.

Context {rt : Runtime}.

(** The result for fewer than two points. *)
Definition degenerate_metrics (initialInvestment : R) : Metrics :=
  mkMetrics (Fin initialInvestment) (Fin initialInvestment)
    (Fin 0) (Fin 0) (Fin 0) (Fin 0) (Fin 0) (Fin 0) (Fin 0) None None.

(** The first two patterns are the test [portfolioValues.length < 2]. *)
Definition calculateMetrics (portfolioValues : list ValuePoint)
    (initialInvestment : R) (sp500Data : option (list ValuePoint)) : Metrics :=
  match portfolioValues with
  | [] | [_] => degenerate_metrics initialInvestment
  | first :: others =>
      let lastPoint := last others first in
      let finalBalance := Fin (value lastPoint) in
      let totalReturn :=
        Num.div (Num.sub finalBalance (Fin initialInvestment))
                (Fin initialInvestment) in
      let years :=
        Num.div (Num.sub (getTime (Date_new (date lastPoint)))
                         (getTime (Date_new (date first))))
                (Fin (1000 * 3600 * 24 * 365)) in
      let cagr :=
        if Num.gtb years (Fin 0)
        then Num.sub (Math_pow (Num.div finalBalance (Fin initialInvestment))
                               (Num.div (Fin 1) years))
                     (Fin 1)
        else Fin 0 in
      let dailyReturns := dailyReturns_from first others in
      let meanReturn := Num.div (sum_list dailyReturns) (length_num dailyReturns) in
      let variance :=
        Num.div (fold_left
                   (fun a b => Num.add a (Math_pow (Num.sub b meanReturn) (Fin 2)))
                   dailyReturns (Fin 0))
                (length_num dailyReturns) in
      let stdDev := Num.sqrt variance in
      let volatility := Num.mul stdDev (Num.sqrt (Fin 365)) in
      let sharpeRatio :=
        if negb (Num.eqb volatility (Fin 0))
        then Num.div (Num.sub cagr (Fin ANNUAL_RISK_FREE_RATE)) volatility
        else Fin 0 in
      let bestDay := Num.max_list dailyReturns in
      let worstDay := Num.min_list dailyReturns in
      let maxDrawdown := drawdown_loop others (Fin 0) (value first) in
      let sp500Correlation := benchmark_correlation portfolioValues sp500Data in
      let monthlyStats := calculateMonthlyPerformance portfolioValues in
      mkMetrics (Fin initialInvestment) finalBalance totalReturn cagr volatility
        sharpeRatio bestDay worstDay maxDrawdown monthlyStats sp500Correlation
  end.

End MetricsEngine.

(* ================================================================= *)
(** ** A reference runtime

    The runtime of a process in the UTC time zone, on dates written
    [YYYY-MM-DD]; used to run the engine on concrete inputs. *)

Definition digit_value (c : ascii) : option Z :=
  let n := nat_of_ascii c in
  if (48 <=? n)%nat && (n <=? 57)%nat then Some (Z.of_nat (n - 48)) else None.

Fixpoint digits_value (s : string) (acc : Z) : option Z :=
  match s with
  | EmptyString => Some acc
  | String c rest =>
      match digit_value c with
      | Some d => digits_value rest (10 * acc + d)%Z
      | None => None
      end
  end.

(** Year, month ([1] to [12]) and day of a date string. *)
Definition iso_fields (s : string) : option (Z * Z * Z) :=
  if (String.length s =? 10)%nat
     && String.eqb (substring 4 1 s) "-" && String.eqb (substring 7 1 s) "-"
  then
    match digits_value (substring 0 4 s) 0, digits_value (substring 5 2 s) 0,
          digits_value (substring 8 2 s) 0 with
    | Some y, Some m, Some d =>
        if ((1 <=? m) && (m <=? 12) && (1 <=? d) && (d <=? 31))%Z
        then Some (y, m, d)
        else None
    | _, _, _ => None
    end
  else None.

(** Days from 1970-01-01 to a date of the proleptic Gregorian calendar. *)
Definition days_from_civil (y m d : Z) : Z :=
  let y' := (if m <=? 2 then y - 1 else y)%Z in
  let era := (y' / 400)%Z in
  let yoe := (y' - era * 400)%Z in
  let mp := ((m + 9) mod 12)%Z in
  let doy := ((153 * mp + 2) / 5 + d - 1)%Z in
  let doe := (yoe * 365 + yoe / 4 - yoe / 100 + doy)%Z in
  (era * 146097 + doe - 719468)%Z.

Definition is_integer (y : R) : bool := Reqb (IZR (Int_part y)) y.

(** [Math.pow] on finite arguments. *)
Definition pow_finite (x y : R) : num :=
  if Reqb y 0 then Fin 1
  else if Rltb 0 x then Fin (Rpower x y)
  else if Reqb x 0 then (if Rltb 0 y then Fin 0 else PInf)
  else if is_integer y
       then Fin ((if Z.odd (Int_part y) then -1 else 1) * Rpower (- x) y)
       else NaN.

Definition pow_ieee (a b : num) : num :=
  match b with
  | NaN => NaN
  | Fin y =>
      if Reqb y 0 then Fin 1
      else match a with
           | NaN => NaN
           | Fin x => pow_finite x y
           | PInf => if Rltb 0 y then PInf else Fin 0
           | NInf =>
               if Rltb 0 y
               then (if is_integer y && Z.odd (Int_part y) then NInf else PInf)
               else Fin 0
           end
  | PInf =>
      match a with
      | NaN => NaN
      | Fin x =>
          if Rltb 1 (Rabs x) then PInf
          else if Reqb (Rabs x) 1 then NaN else Fin 0
      | PInf | NInf => PInf
      end
  | NInf =>
      match a with
      | NaN => NaN
      | Fin x =>
          if Rltb 1 (Rabs x) then Fin 0
          else if Reqb (Rabs x) 1 then NaN else PInf
      | PInf | NInf => Fin 0
      end
  end.

Definition utc_date (s : string) : option JsDate :=
  match iso_fields s with
  | Some (y, m, d) =>
      Some (mkDate y (m - 1) (days_from_civil y m d * 86400000))
  | None => None
  end.

Definition utc_runtime : Runtime := {|
  Date_new := utc_date;
  Math_pow := pow_ieee
|}.

(* ================================================================= *)
(** ** Notions of the specification *)

(** The sum of the weights of a weight map. *)
Definition total_weight (weights : list (string * R)) : R :=
  fold_right (fun entry acc => snd entry + acc) 0 weights.

(** A value point scaled by a factor. *)
Definition scale_point (c : R) (p : ValuePoint) : ValuePoint :=
  mkPoint (date p) (c * value p).

(** Lexicographic order on (year, quarter) pairs. *)
Definition lex_gt (a b : Z * Z) : Prop :=
  (fst b < fst a)%Z \/ (fst a = fst b /\ (snd b < snd a)%Z).

(** The (year, quarter index) of a valid date. *)
Definition year_quarter (d : JsDate) : Z * Z :=
  (fullYear d, (monthIndex d / 3)%Z).

(** Running-peak drawdown, in the words of the specification: the peak
    starts at the first value; a later value above the peak replaces it,
    otherwise [(peak - value) / peak] is folded into a running maximum. *)
Definition running_peak_step (state : R * num) (v : R) : R * num :=
  let (peak, worst) := state in
  if Rltb peak v then (v, worst)
  else (peak, Num.max worst (Num.div (Fin (peak - v)) (Fin peak))).

Definition running_peak_drawdown (values : list R) : num :=
  match values with
  | [] => Fin 0
  | v0 :: later => snd (fold_left running_peak_step later (v0, Fin 0))
  end.

(** Each value is at least the one before it. *)
Fixpoint nondecreasing_from (previous : R) (rest : list R) : Prop :=
  match rest with
  | [] => True
  | v :: rest' => previous <= v /\ nondecreasing_from v rest'
  end.

Definition nondecreasing (values : list R) : Prop :=
  match values with
  | [] => True
  | v0 :: rest => nondecreasing_from v0 rest
  end.

(** The months of a series, in the words of the specification: consecutive
    points with the same [YYYY-MM] prefix form one group. *)
Fixpoint month_groups (values : list ValuePoint) : list (list ValuePoint) :=
  match values with
  | [] => []
  | p :: rest =>
      match month_groups rest with
      | (q :: g) :: more =>
          if String.eqb (month_of p) (month_of q)
          then (p :: q :: g) :: more
          else [p] :: (q :: g) :: more
      | _ => [[p]]
      end
  end.

(** The monthly return of a group: [endValue / startValue - 1] over its
    first and its last point. *)
Definition month_of_group (g : list ValuePoint) : option MonthlyPerformance :=
  match g with
  | [] => None
  | s :: rest =>
      let e := last rest s in
      Some (mkMonth (month_of s)
              (Num.sub (Num.div (Fin (value e)) (Fin (value s))) (Fin 1))
              (value s) (value e))
  end.

Fixpoint months_of_groups (groups : list (list ValuePoint))
    : list MonthlyPerformance :=
  match groups with
  | [] => []
  | g :: more =>
      match month_of_group g with
      | Some m => m :: months_of_groups more
      | None => months_of_groups more
      end
  end.

(** [best] is a month of maximal return, and the first such month. *)
Definition first_maximum (best : MonthlyPerformance)
    (months : list MonthlyPerformance) : Prop :=
  exists before after,
    months = before ++ best :: after
    /\ (forall m, In m before -> Num.ltb (return_ m) (return_ best) = true)
    /\ (forall m, In m after -> Num.leb (return_ m) (return_ best) = true).

Definition first_minimum (worst : MonthlyPerformance)
    (months : list MonthlyPerformance) : Prop :=
  exists before after,
    months = before ++ worst :: after
    /\ (forall m, In m before -> Num.ltb (return_ worst) (return_ m) = true)
    /\ (forall m, In m after -> Num.leb (return_ worst) (return_ m) = true).

(** Pearson's coefficient of two samples, in the words of the specification. *)
Definition mean (xs : list R) : R :=
  fold_right Rplus 0 xs / INR (List.length xs).

Fixpoint sum_products (xs ys : list R) (mx my : R) : R :=
  match xs, ys with
  | x :: xs', y :: ys' => (x - mx) * (y - my) + sum_products xs' ys' mx my
  | _, _ => 0
  end.

Definition sum_squares (xs : list R) : R :=
  sum_products xs xs (mean xs) (mean xs).

Definition pearson (xs ys : list R) : R :=
  if Reqb (sum_squares xs) 0 || Reqb (sum_squares ys) 0 then 0
  else sum_products xs ys (mean xs) (mean ys)
       / sqrt (sum_squares xs * sum_squares ys).

(** Every entry of the ticker in the holdings is zero units. *)
Definition zero_units (ticker : string) (units : list (string * R)) : Prop :=
  forall u, In (ticker, u) units -> u = 0.

(** An entry of the holdings scaled by a factor. *)
Definition scale_entry (c : R) (entry : string * R) : string * R :=
  (fst entry, c * snd entry).

(** The points of a group carry one month label. *)
Definition same_month (g : list ValuePoint) : Prop :=
  forall x y, In x g -> In y g -> month_of x = month_of y.

(** Neighbouring groups start with different month labels. *)
Fixpoint months_change (groups : list (list ValuePoint)) : Prop :=
  match groups with
  | (x :: _) :: (((y :: _) :: _) as more) =>
      month_of x <> month_of y /\ months_change more
  | _ => True
  end.

(** The sum over the tickers held of what each adds to the value. *)
Definition total_contribution (dayData : DailyData) (units : list (string * R)) : R :=
  fold_right (fun ticker acc => contribution dayData units ticker + acc) 0
    (map fst units).

(* ================================================================= *)
(** ** validateAssetsForDateRange and its caller *)

Definition Rleb (a b : R) : bool := if Rle_dec a b then true else false.

Record AssetValidation : Type := mkValidation {
  valid : bool;
  invalidAssets : list string;
  validAssets : list string;
  earliestValidDate : string
}.

(** [!price || price <= 0] *)
Definition unusable_price (price : option R) : bool :=
  match price with
  | Some p => negb (truthy p) || Rleb p 0
  | None => true
  end.

(** [price && price > 0] *)
Definition usable_price (price : option R) : bool :=
  match price with
  | Some p => truthy p && Rltb 0 p
  | None => false
  end.

(** [Object.keys(weights).every(ticker => price && price > 0)] on a day. *)
Definition all_usable (weights : list (string * R)) (day : DailyData) : bool :=
  forallb (fun ticker => usable_price (price_of day ticker)) (map fst weights).

Definition validateAssetsForDateRange (historicalData : list DailyData)
    (weights : list (string * R)) : AssetValidation :=
  match historicalData with
  | [] => mkValidation false (map fst weights) [] EmptyString
  | firstDay :: _ =>
      let invalidAssets :=
        filter (fun ticker => unusable_price (price_of firstDay ticker))
               (map fst weights) in
      let validAssets :=
        filter (fun ticker => negb (unusable_price (price_of firstDay ticker)))
               (map fst weights) in
      let earliestValidDate :=
        match find (all_usable weights) historicalData with
        | Some day => day_date day
        | None => EmptyString
        end in
      mkValidation (List.length invalidAssets =? 0)%nat
        invalidAssets validAssets earliestValidDate
  end.

(** [obj[key] = v]: the entry of the key is replaced where it stands, a new
    key is added at the end. *)
Fixpoint set_field {A : Type} (key : string) (v : A) (obj : list (string * A))
    : list (string * A) :=
  match obj with
  | [] => [(key, v)]
  | (k, x) :: rest =>
      if String.eqb k key then (k, v) :: rest else (k, x) :: set_field key v rest
  end.

(** The weights the portfolio builder keeps after fetching the data: when
    the validation fails, the valid assets of non-zero weight only. *)
Definition weights_after_validation (validation : AssetValidation)
    (weights : list (string * R)) : list (string * R) :=
  if negb (valid validation)
  then
    fold_left
      (fun filteredWeights ticker =>
         match lookup ticker weights with
         | Some w => if truthy w then set_field ticker w filteredWeights
                     else filteredWeights
         | None => filteredWeights
         end)
      (validAssets validation) []
  else weights.

(** Every weighted ticker has a positive price on that day. *)
Definition all_positive (weights : list (string * R)) (day : DailyData) : Prop :=
  forall ticker, In ticker (map fst weights) -> positive_price day ticker.

(* ================================================================= *)
(** ** Further notions for the valuation engine *)

(** The price of the ticker on that day, 0 when it has none. *)
Definition price_or_zero (dayData : DailyData) (ticker : string) : R :=
  match price_of dayData ticker with
  | Some p => p
  | None => 0
  end.

(** The sum of the weights of the tickers that have a positive price on
    that day: the share (in percent) of the capital that [calculateUnits]
    turns into holdings. *)
Definition allocated_weight (dayData : DailyData) (weights : list (string * R)) : R :=
  fold_right
    (fun entry acc =>
       (if usable_price (price_of dayData (fst entry)) then snd entry else 0) + acc)
    0 weights.

(** No entry is negative. *)
Definition nonnegative_entries (entries : list (string * R)) : Prop :=
  forall key x, In (key, x) entries -> 0 <= x.

(* ================================================================= *)
(** ** Further notions for the metrics engine *)

(** The value [a] stands at an earlier position of the list than [b]. *)
Definition occurs_before (a b : R) (values : list R) : Prop :=
  exists l1 l2 l3, values = l1 ++ a :: l2 ++ b :: l3.

(** The simple returns of a list of values: each value over the one
    before it, minus one. *)
Fixpoint simple_returns (previous : R) (rest : list R) : list R :=
  match rest with
  | [] => []
  | v :: rest' => (v / previous - 1) :: simple_returns v rest'
  end.

(* ================================================================= *)
(** ** Further notions for the benchmark alignment *)

(** [a <= b] on strings, as [sort()] and [<=] compare them. *)
Definition string_le (a b : string) : Prop := String.leb a b = true.

(** Both returns of a pair are finite numbers. *)
Definition finite_pair (pair : num * num) : Prop :=
  exists a b, pair = (Fin a, Fin b).

(* ================================================================= *)
(** ** The market data route ([app/api/market-data/route.ts]) *)

(** A character of the class [[A-Z0-9]]. *)
Definition is_upper_or_digit (c : ascii) : bool :=
  let n := nat_of_ascii c in
  ((65 <=? n)%nat && (n <=? 90)%nat) || ((48 <=? n)%nat && (n <=? 57)%nat).

(** [/^[A-Z0-9]+-USD$/.test(asset)]: a character of the class, followed
    either by the suffix or by a string that matches again. *)
Fixpoint matches_asset_pattern (asset : string) : bool :=
  match asset with
  | EmptyString => false
  | String c rest =>
      is_upper_or_digit c
      && (String.eqb rest "-USD" || matches_asset_pattern rest)
  end.

(** [ASSETS]: the requested symbols that pass the filter. *)
Definition ASSETS_of (requestedAssets : list string) : list string :=
  filter
    (fun asset =>
       matches_asset_pattern asset && (List.length requestedAssets <=? 20)%nat)
    requestedAssets.

(** [assetsToFetch = [...ASSETS, '^GSPC']] *)
Definition assetsToFetch_of (requestedAssets : list string) : list string :=
  ASSETS_of requestedAssets ++ ["^GSPC"%string].

(** A record of [alignedData]: the date and, per symbol, a number or
    [null] ([None]). *)
Record AlignedDay : Type := mkAligned {
  aligned_date : string;
  aligned_fields : list (string * option R)
}.

(** [day[symbol]] when it is neither [null] nor [undefined]. *)
Definition observed (day : AlignedDay) (symbol : string) : option R :=
  match lookup symbol (aligned_fields day) with
  | Some (Some v) => Some v
  | _ => None
  end.

(** The body of [assetsToFetch.forEach] in the forward fill, on the pair of
    [newDay] and [lastKnownValues]. *)
Definition fill_symbol (state : AlignedDay * list (string * R)) (symbol : string)
    : AlignedDay * list (string * R) :=
  let '(newDay, lastKnownValues) := state in
  match observed newDay symbol with
  | Some v => (newDay, set_field symbol v lastKnownValues)
  | None =>
      match lookup symbol lastKnownValues with
      | Some v =>
          (mkAligned (aligned_date newDay)
             (set_field symbol (Some v) (aligned_fields newDay)),
           lastKnownValues)
      | None =>
          (mkAligned (aligned_date newDay)
             (set_field symbol (Some 0) (aligned_fields newDay)),
           lastKnownValues)
      end
  end.

(** The loop [for (const day of alignedData)]: [filledData]. *)
Fixpoint forward_fill (assetsToFetch : list string) (alignedData : list AlignedDay)
    (lastKnownValues : list (string * R)) : list AlignedDay :=
  match alignedData with
  | [] => []
  | day :: rest =>
      let '(newDay, lastKnownValues') :=
        fold_left fill_symbol assetsToFetch (day, lastKnownValues) in
      newDay :: forward_fill assetsToFetch rest lastKnownValues'
  end.

(** The series of a symbol with each gap filled by the latest earlier
    observation, and by [default] before the first one. *)
Fixpoint carried_forward (symbol : string) (days : list AlignedDay) (default : R)
    : list R :=
  match days with
  | [] => []
  | day :: rest =>
      let v :=
        match observed day symbol with
        | Some x => x
        | None => default
        end in
      v :: carried_forward symbol rest v
  end.

(** [lastKnownValues[symbol]], read as 0 while the symbol has none. *)
Definition known_or_zero (lastKnownValues : list (string * R)) (symbol : string) : R :=
  match lookup symbol lastKnownValues with
  | Some v => v
  | None => 0
  end.

(** The record as the client reads it from the response: the fields that
    hold a number are the prices of the day. *)
Definition received (day : AlignedDay) : DailyData :=
  mkDay (aligned_date day)
    (fold_right
       (fun key fields =>
          match observed day key with
          | Some v => (key, v) :: fields
          | None => fields
          end)
       [] (map fst (aligned_fields day))).

(* ================================================================= *)
(** ** The CSV export ([lib/export.ts]) *)

Definition comma : ascii := ","%char.
Definition double_quote : ascii := "034"%char.
Definition newline : ascii := "010"%char.

(** [str.includes(c)] for a one-character [c]. *)
Fixpoint includes (str : string) (c : ascii) : bool :=
  match str with
  | EmptyString => false
  | String x rest => Ascii.eqb x c || includes rest c
  end.

(** [str.replace] of every double quote by two double quotes. *)
Fixpoint double_quotes (str : string) : string :=
  match str with
  | EmptyString => EmptyString
  | String x rest =>
      if Ascii.eqb x double_quote
      then String double_quote (String double_quote (double_quotes rest))
      else String x (double_quotes rest)
  end.

(** [escapeCSV] on a string value. *)
Definition escapeCSV (str : string) : string :=
  if includes str comma || includes str double_quote || includes str newline
  then String double_quote (double_quotes str ++ String double_quote EmptyString)
  else str.

(** The number of double quotes of a string. *)
Fixpoint count_quotes (str : string) : nat :=
  match str with
  | EmptyString => 0
  | String x rest =>
      ((if Ascii.eqb x double_quote then 1 else 0) + count_quotes rest)%nat
  end.

(* ================================================================= *)
(** ** Further notions for the monthly statistics *)

(** The series from its first point whose date has a month prefix. *)
Fixpoint drop_unlabelled (values : list ValuePoint) : list ValuePoint :=
  match values with
  | [] => []
  | p :: rest =>
      if String.eqb (month_of p) EmptyString then drop_unlabelled rest else values
  end.

(* ================================================================= *)
(** ** The metrics of the dashboard ([PortfolioBuilder]) *)

(** [val && val > 0] for [val = day['^GSPC']]. *)
Definition has_benchmark (day : DailyData) : bool :=
  usable_price (price_of day "^GSPC").

(** [sp500Data]: the days with a benchmark price, or [undefined] when no
    day has one.  The value is read on days that passed the filter. *)
Definition sp500Data_of (marketData : list DailyData) : option (list ValuePoint) :=
  if existsb has_benchmark marketData
  then Some (map (fun day => mkPoint (day_date day) (price_or_zero day "^GSPC"))
                 (filter has_benchmark marketData))
  else None.

Section Dashboard.

Context {rt : Runtime}.

(** [chartData] and [metrics] of the dashboard. *)
Definition dashboard_metrics (marketData : list DailyData)
    (weights : list (string * R)) (initialInvestment : R)
    (rebalanceFrequency : RebalanceFrequency) : Metrics :=
  calculateMetrics
    (calculatePortfolioHistory marketData weights initialInvestment rebalanceFrequency)
    initialInvestment (sp500Data_of marketData).

End Dashboard.

(* ================================================================= *)
(** ** The saved portfolios ([lib/portfolio-storage.ts]) *)

Definition MAX_CONFIGS : nat := 10.

Section PortfolioStorage.

(** The fields of a configuration other than [id], [createdAt] and
    [lastModified]. *)
Variable Settings : Type.

Record PortfolioConfig : Type := mkConfig {
  config_id : string;
  config_settings : Settings;
  createdAt : string;
  lastModified : string
}.

(** [Partial<PortfolioConfig>]: the fields given replace those of the
    configuration; [update_settings] is that replacement on the settings. *)
Record ConfigUpdates : Type := mkUpdates {
  update_id : option string;
  update_settings : Settings -> Settings;
  update_createdAt : option string
}.

(** Whether [localStorage.setItem] takes the list (it throws beyond its
    quota). *)
Variable fits : list PortfolioConfig -> bool.

(** The item of the storage: the list it was saved with, [None] while
    there is none that can be read. *)
Definition getSavedPortfolios (item : option (list PortfolioConfig))
    : list PortfolioConfig :=
  match item with
  | Some configurations => configurations
  | None => []
  end.

(** [localStorage.setItem]: the new item, or [None] for the exception. *)
Definition setItem (configurations : list PortfolioConfig)
    : option (option (list PortfolioConfig)) :=
  if fits configurations then Some (Some configurations) else None.

Definition new_config (settings : Settings) (timestamp isoNow : string)
    : PortfolioConfig :=
  mkConfig ("portfolio-" ++ timestamp) settings isoNow isoNow.

(** [savePortfolioConfig]: the configuration returned and the item of the
    storage, or [None] when it throws. *)
Definition savePortfolioConfig (settings : Settings) (timestamp isoNow : string)
    (item : option (list PortfolioConfig))
    : option (PortfolioConfig * option (list PortfolioConfig)) :=
  let configurations := getSavedPortfolios item in
  let newConfig := new_config settings timestamp isoNow in
  let kept :=
    if (MAX_CONFIGS <=? List.length configurations)%nat
    then tl configurations
    else configurations in
  match setItem (kept ++ [newConfig]) with
  | Some item' => Some (newConfig, item')
  | None => None
  end.

Definition deletePortfolioConfig (id : string) (item : option (list PortfolioConfig))
    : option (option (list PortfolioConfig)) :=
  setItem
    (filter (fun c => negb (String.eqb (config_id c) id)) (getSavedPortfolios item)).

Definition apply_updates (updates : ConfigUpdates) (isoNow : string)
    (c : PortfolioConfig) : PortfolioConfig :=
  mkConfig
    (match update_id updates with Some id => id | None => config_id c end)
    (update_settings updates (config_settings c))
    (match update_createdAt updates with Some t => t | None => createdAt c end)
    isoNow.

(** [configurations[index] = ...] at the first configuration with the id. *)
Fixpoint update_first (id : string) (updates : ConfigUpdates) (isoNow : string)
    (configurations : list PortfolioConfig) : option (list PortfolioConfig) :=
  match configurations with
  | [] => None
  | c :: rest =>
      if String.eqb (config_id c) id
      then Some (apply_updates updates isoNow c :: rest)
      else option_map (cons c) (update_first id updates isoNow rest)
  end.

(** [updatePortfolioConfig]: nothing is written when no configuration has
    the id. *)
Definition updatePortfolioConfig (id : string) (updates : ConfigUpdates)
    (isoNow : string) (item : option (list PortfolioConfig))
    : option (option (list PortfolioConfig)) :=
  match update_first id updates isoNow (getSavedPortfolios item) with
  | Some configurations => setItem configurations
  | None => Some item
  end.

(** A call of the module by the dashboard. *)
Inductive StorageCall : Type :=
  | Save (settings : Settings) (timestamp isoNow : string)
  | Delete (id : string)
  | Update (id : string) (updates : ConfigUpdates) (isoNow : string).

(** The item of the storage after a call; a call that throws leaves it as
    it was. *)
Definition storage_after (item : option (list PortfolioConfig)) (call : StorageCall)
    : option (list PortfolioConfig) :=
  match call with
  | Save settings timestamp isoNow =>
      match savePortfolioConfig settings timestamp isoNow item with
      | Some (_, item') => item'
      | None => item
      end
  | Delete id =>
      match deletePortfolioConfig id item with
      | Some item' => item'
      | None => item
      end
  | Update id updates isoNow =>
      match updatePortfolioConfig id updates isoNow item with
      | Some item' => item'
      | None => item
      end
  end.

(** The call that saves the settings at a time, and the configuration it
    stores. *)
Definition save_call (saved : Settings * string * string) : StorageCall :=
  let '(settings, timestamp, isoNow) := saved in Save settings timestamp isoNow.

Definition saved_config (saved : Settings * string * string) : PortfolioConfig :=
  let '(settings, timestamp, isoNow) := saved in new_config settings timestamp isoNow.

End PortfolioStorage.

Arguments mkConfig {Settings}.
Arguments config_id {Settings}.
Arguments config_settings {Settings}.
Arguments createdAt {Settings}.
Arguments lastModified {Settings}.
Arguments getSavedPortfolios {Settings}.
Arguments new_config {Settings}.
Arguments savePortfolioConfig {Settings}.
Arguments deletePortfolioConfig {Settings}.
Arguments updatePortfolioConfig {Settings}.
Arguments update_first {Settings}.
Arguments storage_after {Settings}.
Arguments Save {Settings}.
Arguments Delete {Settings}.
Arguments Update {Settings}.
Arguments save_call {Settings}.
Arguments saved_config {Settings}.

(* ================================================================= *)
(** ** The assets on offer ([lib/crypto-assets.ts]) *)

(** The tickers of [AVAILABLE_CRYPTO_ASSETS], in the order of the table. *)
Definition AVAILABLE_TICKERS : list string :=
  ["BTC-USD"; "ETH-USD"; "BNB-USD"; "SOL-USD"; "XRP-USD"; "DOGE-USD"; "ADA-USD";
   "AVAX-USD"; "DOT-USD"; "MATIC-USD"; "LINK-USD"; "UNI7083-USD"; "ATOM-USD";
   "LTC-USD"; "TRX-USD"]%string.

(* ================================================================= *)
(** * Properties *)

(** ** Comparisons of finite numbers *)

Lemma Rltb_iff (a b : R) : Rltb a b = true <-> a < b.
Proof. unfold Rltb. destruct (Rlt_dec a b); split; intros; congruence. Qed.

Lemma Rltb_true (a b : R) : a < b -> Rltb a b = true.
Proof. apply Rltb_iff. Qed.

Lemma Rltb_false (a b : R) : ~ a < b -> Rltb a b = false.
Proof. unfold Rltb. destruct (Rlt_dec a b); intros; [contradiction | reflexivity]. Qed.

Lemma Reqb_iff (a b : R) : Reqb a b = true <-> a = b.
Proof. unfold Reqb. destruct (Req_dec_T a b); split; intros; congruence. Qed.

Lemma Reqb_true (a b : R) : a = b -> Reqb a b = true.
Proof. apply Reqb_iff. Qed.

Lemma Reqb_false (a b : R) : a <> b -> Reqb a b = false.
Proof. unfold Reqb. destruct (Req_dec_T a b); intros; [contradiction | reflexivity]. Qed.

Lemma Reqb_refl (a : R) : Reqb a a = true.
Proof. now apply Reqb_true. Qed.

(** The test [price && price > 0] holds exactly of the positive prices. *)
Lemma usable_price_iff (p : R) : truthy p && Rltb 0 p = true <-> 0 < p.
Proof.
  unfold truthy. rewrite andb_true_iff, negb_true_iff, Rltb_iff. split.
  - now intros [_ H].
  - intros H. split; [apply Reqb_false; lra | assumption].
Qed.

Lemma usable_price_true (p : R) : 0 < p -> truthy p && Rltb 0 p = true.
Proof. apply usable_price_iff. Qed.

Lemma usable_price_false (p : R) : ~ 0 < p -> truthy p && Rltb 0 p = false.
Proof.
  intros H. destruct (truthy p && Rltb 0 p) eqn:E; [| reflexivity].
  apply usable_price_iff in E. contradiction.
Qed.

(** Decides the comparisons of a goal whose numbers are literals. *)
Ltac decide_numbers :=
  repeat first
    [ rewrite usable_price_true by lra
    | rewrite usable_price_false by lra
    | rewrite Rltb_true by lra
    | rewrite Rltb_false by lra
    | rewrite Reqb_true by lra
    | rewrite Reqb_false by lra ].

(** Runs the valuation helpers on literal inputs. *)
Ltac run_valuation :=
  repeat (progress (unfold calculateUnits, calculateValue; simpl; decide_numbers)).

(* ================================================================= *)
(** ** ValuationEngine *)

Section ValuationProperties.

Context {rt : Runtime}.

Lemma simulate_dates weights frequency days :
  forall i units lastRebalanceDate,
    map (fun s => date (step_point s))
      (simulate weights frequency days i units lastRebalanceDate)
    = map day_date days.
Proof.
  induction days as [| day rest IH]; intros i units lastRebalanceDate.
  - reflexivity.
  - simpl. now rewrite IH.
Qed.

Lemma history_dates historicalData weights initialInvestment frequency :
  map date (calculatePortfolioHistory historicalData weights initialInvestment frequency)
  = map day_date historicalData.
Proof.
  unfold calculatePortfolioHistory, history_steps.
  destruct historicalData as [| day0 rest]; [reflexivity |].
  rewrite map_map. apply simulate_dates.
Qed.

(** C1. The value series has one point per price record, in the same order
    and with the same dates (so the two have the same length); on an empty
    price sequence the result is empty.  The function is total: it returns
    on every input. *)
Theorem value_series_shape historicalData weights initialInvestment frequency :
  map date (calculatePortfolioHistory historicalData weights initialInvestment frequency)
    = map day_date historicalData
  /\ List.length
       (calculatePortfolioHistory historicalData weights initialInvestment frequency)
     = List.length historicalData
  /\ calculatePortfolioHistory [] weights initialInvestment frequency = [].
Proof.
  pose proof (history_dates historicalData weights initialInvestment frequency) as H.
  split; [exact H |]. split; [| reflexivity].
  apply (f_equal (@List.length string)) in H.
  now rewrite !length_map in H.
Qed.

(** C5. The rebalance decision: never under [none]; under [quarterly]
    exactly when the (year, quarter index) of the current date is
    lexicographically greater than that of the last rebalance date; under
    [annually] exactly when the year of the current date is greater.  (The
    pair of a date exists when the date is valid.) *)
Theorem shouldRebalance_decision currentDate lastRebalanceDate :
  shouldRebalance currentDate lastRebalanceDate none = false
  /\ (shouldRebalance currentDate lastRebalanceDate quarterly = true <->
      exists current lastRebalance,
        Date_new currentDate = Some current
        /\ Date_new lastRebalanceDate = Some lastRebalance
        /\ lex_gt (year_quarter current) (year_quarter lastRebalance))
  /\ (shouldRebalance currentDate lastRebalanceDate annually = true <->
      exists current lastRebalance,
        Date_new currentDate = Some current
        /\ Date_new lastRebalanceDate = Some lastRebalance
        /\ (fullYear lastRebalance < fullYear current)%Z).
Proof.
  split; [reflexivity |]. unfold shouldRebalance, lex_gt, year_quarter.
  destruct (Date_new currentDate) as [c |], (Date_new lastRebalanceDate) as [l |];
    simpl; (split; split);
    try discriminate;
    try (intros (c' & l' & Hc & Hl & _); discriminate).
  - intros H. exists c, l. repeat split.
    apply orb_true_iff in H. destruct H as [H | H].
    + left. now apply Z.ltb_lt.
    + right. apply andb_true_iff in H. destruct H as [He Hq].
      apply Z.eqb_eq in He. apply Z.ltb_lt in Hq. auto.
  - intros (c' & l' & Hc & Hl & H). inversion Hc; inversion Hl; subst c' l'.
    apply orb_true_iff. destruct H as [H | [He Hq]].
    + left. now apply Z.ltb_lt.
    + right. apply andb_true_iff. split; [now apply Z.eqb_eq | now apply Z.ltb_lt].
  - intros H. exists c, l. repeat split. now apply Z.ltb_lt.
  - intros (c' & l' & Hc & Hl & H). inversion Hc; inversion Hl; subst c' l'.
    now apply Z.ltb_lt.
Qed.

End ValuationProperties.

(** The decision on some dates, in the reference runtime. *)
Lemma shouldRebalance_examples :
  shouldRebalance (rt := utc_runtime) "2024-04-01" "2024-03-31" quarterly = true
  /\ shouldRebalance (rt := utc_runtime) "2024-03-31" "2024-01-01" quarterly = false
  /\ shouldRebalance (rt := utc_runtime) "2025-01-01" "2024-12-31" quarterly = true
  /\ shouldRebalance (rt := utc_runtime) "2024-02-01" "2023-11-30" quarterly = true
  /\ shouldRebalance (rt := utc_runtime) "2025-01-01" "2024-12-31" annually = true
  /\ shouldRebalance (rt := utc_runtime) "2024-12-31" "2024-01-01" annually = false
  /\ shouldRebalance (rt := utc_runtime) "not a date" "2024-01-01" annually = false.
Proof. repeat split; reflexivity. Qed.

(** *** Holdings and their value *)

Section Holdings.

Context {rt : Runtime}.


(** The running total of [calculateValue] started from [acc]. *)
Lemma value_fold_shift dayData units :
  forall acc,
    fold_left
      (fun totalValue '(ticker, u) =>
         match price_of dayData ticker with
         | Some price => totalValue + u * price
         | None => totalValue
         end) units acc
    = acc + calculateValue dayData units.
Proof.
  unfold calculateValue.
  induction units as [| [ticker u] rest IH]; intros acc; simpl.
  - ring.
  - rewrite IH. rewrite (IH (match price_of dayData ticker with
                             | Some price => 0 + u * price
                             | None => 0 end)).
    destruct (price_of dayData ticker); ring.
Qed.

Lemma calculateValue_nil dayData : calculateValue dayData [] = 0.
Proof. reflexivity. Qed.

Lemma calculateValue_cons dayData ticker u rest :
  calculateValue dayData ((ticker, u) :: rest)
  = match price_of dayData ticker with
    | Some price => u * price
    | None => 0
    end + calculateValue dayData rest.
Proof.
  unfold calculateValue at 1. simpl. rewrite value_fold_shift.
  destruct (price_of dayData ticker); ring.
Qed.

Lemma calculateUnits_keys weights dayData portfolioValue :
  map fst (calculateUnits weights dayData portfolioValue) = map fst weights.
Proof.
  unfold calculateUnits. rewrite map_map. apply map_ext.
  intros [ticker w]. destruct (price_of dayData ticker) as [price |]; [| reflexivity].
  now destruct (truthy price && Rltb 0 price).
Qed.

(** Capital allocated over tickers that all have a positive price is worth
    the allocated share of the capital. *)
Lemma value_of_fresh_units weights dayData portfolioValue :
  (forall ticker w, In (ticker, w) weights -> positive_price dayData ticker) ->
  calculateValue dayData (calculateUnits weights dayData portfolioValue)
  = portfolioValue * (total_weight weights / 100).
Proof.
  induction weights as [| [ticker w] rest IH]; intros Hpos.
  - simpl. rewrite calculateValue_nil. unfold Rdiv. ring.
  - destruct (Hpos ticker w (or_introl eq_refl)) as (p & Hp & Hlt).
    change (calculateUnits ((ticker, w) :: rest) dayData portfolioValue)
      with ((match price_of dayData ticker with
             | Some price =>
                 if truthy price && Rltb 0 price
                 then (ticker, (portfolioValue * (w / 100)) / price)
                 else (ticker, 0)
             | None => (ticker, 0)
             end) :: calculateUnits rest dayData portfolioValue).
    rewrite Hp, usable_price_true by assumption.
    rewrite calculateValue_cons, Hp, IH.
    + simpl. field. lra.
    + intros t' w' Hin. apply (Hpos t' w'). now right.
Qed.

(** The first point of the series is the value of the initial holdings. *)
Lemma history_first day0 rest weights initialInvestment frequency :
  exists later,
    calculatePortfolioHistory (day0 :: rest) weights initialInvestment frequency
    = mkPoint (day_date day0)
        (calculateValue day0 (calculateUnits weights day0 initialInvestment))
      :: later.
Proof.
  unfold calculatePortfolioHistory, history_steps. simpl. eauto.
Qed.

(** C2 (amended). When every weighted ticker has a positive price on the
    first date and the weights sum to 100, the first value of the series is
    the initial investment. *)
Theorem day0_identity day0 rest weights initialInvestment frequency :
  (forall ticker w, In (ticker, w) weights -> positive_price day0 ticker) ->
  total_weight weights = 100 ->
  exists p0 later,
    calculatePortfolioHistory (day0 :: rest) weights initialInvestment frequency
    = p0 :: later
    /\ value p0 = initialInvestment.
Proof.
  intros Hpos Hsum.
  destruct (history_first day0 rest weights initialInvestment frequency) as [later H].
  eexists; exists later. split; [exact H |].
  simpl. rewrite value_of_fresh_units by assumption. rewrite Hsum. field.
Qed.

End Holdings.

Lemma positive_price_intro dayData ticker p :
  price_of dayData ticker = Some p -> 0 < p -> positive_price dayData ticker.
Proof. intros H Hp. now exists p. Qed.

(** C2, as stated, fails: half the capital allocated to an asset of
    positive price is worth half the initial investment on the first date. *)
Lemma day0_identity_counterexample :
  let day0 := mkDay "2024-01-15" [("BTC"%string, 100)] in
  let weights := [("BTC"%string, 50)] in
  (forall ticker w, In (ticker, w) weights -> positive_price day0 ticker)
  /\ exists p0,
       calculatePortfolioHistory (rt := utc_runtime) [day0] weights 1000 none = [p0]
       /\ value p0 = 500
       /\ value p0 <> 1000.
Proof.
  intros day0 weights. split.
  - intros ticker w [H | []]. inversion H; subst.
    apply (positive_price_intro _ _ 100); [reflexivity | lra].
  - eexists. split; [reflexivity |]. run_valuation. split; [field | lra].
Qed.

(** A run of C2 (amended): 60% and 40% of 1000 over two listed assets. *)
Lemma day0_identity_witness :
  let day0 := mkDay "2024-01-15" [("BTC"%string, 100); ("ETH"%string, 50)] in
  let weights := [("BTC"%string, 60); ("ETH"%string, 40)] in
  (forall ticker w, In (ticker, w) weights -> positive_price day0 ticker)
  /\ total_weight weights = 100
  /\ exists p0 later,
       calculatePortfolioHistory (rt := utc_runtime) [day0] weights 1000 quarterly
       = p0 :: later
       /\ value p0 = 1000.
Proof.
  intros day0 weights.
  assert (Hpos : forall ticker w, In (ticker, w) weights -> positive_price day0 ticker).
  { intros ticker w [H | [H | []]]; inversion H; subst.
    - apply (positive_price_intro _ _ 100); [reflexivity | lra].
    - apply (positive_price_intro _ _ 50); [reflexivity | lra]. }
  assert (Hsum : total_weight weights = 100) by (simpl; lra).
  split; [exact Hpos |]. split; [exact Hsum |].
  exact (day0_identity (rt := utc_runtime) day0 [] weights 1000 quarterly Hpos Hsum).
Defined.

(* ----------------------------------------------------------------- *)
(** *** Assets without a price on the first date *)

Section MissingAsset.

Context {rt : Runtime}.

Lemma calculateUnits_zero weights dayData portfolioValue ticker :
  ~ positive_price dayData ticker ->
  zero_units ticker (calculateUnits weights dayData portfolioValue).
Proof.
  intros Hnot u Hin. unfold calculateUnits in Hin.
  apply in_map_iff in Hin. destruct Hin as ([t w] & Heq & _).
  destruct (price_of dayData t) as [price |] eqn:Hprice.
  - destruct (truthy price && Rltb 0 price) eqn:Huse.
    + inversion Heq; subst. exfalso. apply Hnot. exists price.
      split; [assumption | now apply usable_price_iff].
    + now inversion Heq.
  - now inversion Heq.
Qed.

Lemma lookup_zero ticker units :
  In ticker (map fst units) -> zero_units ticker units ->
  lookup ticker units = Some 0.
Proof.
  induction units as [| [k v] rest IH]; intros Hin Hzero; [contradiction |].
  simpl. destruct (String.eqb_spec k ticker) as [-> | Hne].
  - f_equal. apply Hzero. now left.
  - apply IH.
    + destruct Hin as [H | H]; [simpl in H; congruence | assumption].
    + intros u Hu. apply Hzero. now right.
Qed.

Lemma contribution_zero dayData units ticker :
  lookup ticker units = Some 0 -> contribution dayData units ticker = 0.
Proof.
  intros H. unfold contribution. rewrite H.
  destruct (price_of dayData ticker); ring.
Qed.

Lemma contribution_sum_ext (f g : string -> R) tickers :
  (forall ticker, In ticker tickers -> f ticker = g ticker) ->
  fold_right (fun ticker acc => f ticker + acc) 0 tickers
  = fold_right (fun ticker acc => g ticker + acc) 0 tickers.
Proof.
  induction tickers as [| t rest IH]; intros H; [reflexivity |].
  simpl. rewrite (H t (or_introl eq_refl)), IH; [reflexivity |].
  intros t' Ht'. apply H. now right.
Qed.

(** The value of the holdings is the sum of what each ticker adds. *)
Lemma calculateValue_total_contribution dayData units :
  NoDup (map fst units) ->
  calculateValue dayData units = total_contribution dayData units.
Proof.
  unfold total_contribution.
  induction units as [| [k v] rest IH]; intros Hnodup; [reflexivity |].
  inversion Hnodup as [| ? ? Hnotin Hrest]; subst.
  rewrite calculateValue_cons, IH by assumption. simpl map. simpl fold_right.
  f_equal.
  - unfold contribution. simpl. rewrite String.eqb_refl.
    now destruct (price_of dayData k).
  - apply contribution_sum_ext. intros t Ht. unfold contribution. simpl.
    destruct (String.eqb_spec k t) as [-> | _]; [contradiction | reflexivity].
Qed.

Lemma simulate_keys weights frequency days :
  forall i units lastRebalanceDate step,
    map fst units = map fst weights ->
    In step (simulate weights frequency days i units lastRebalanceDate) ->
    map fst (step_units step) = map fst weights.
Proof.
  induction days as [| day rest IH]; intros i units lastRebalanceDate step Hkeys Hin.
  - contradiction.
  - simpl in Hin.
    set (rebalance := ((0 <? i)%nat && shouldRebalance (day_date day) lastRebalanceDate frequency)%bool) in *.
    assert (Hkeys' : map fst (if rebalance
                              then calculateUnits weights day (calculateValue day units)
                              else units) = map fst weights).
    { destruct rebalance; [apply calculateUnits_keys | assumption]. }
    destruct Hin as [<- | Hin]; [exact Hkeys' |].
    eapply IH; eassumption.
Qed.

(** The holdings of the ticker stay at zero as long as no rebalance happens
    on a date on which its price is positive. *)
Lemma simulate_zero_units weights frequency ticker days :
  forall i units lastRebalanceDate j step,
    zero_units ticker units ->
    nth_error (simulate weights frequency days i units lastRebalanceDate) j = Some step ->
    (forall k dayk stepk,
        (k <= j)%nat ->
        nth_error days k = Some dayk ->
        nth_error (simulate weights frequency days i units lastRebalanceDate) k
          = Some stepk ->
        step_rebalanced stepk = true ->
        ~ positive_price dayk ticker) ->
    zero_units ticker (step_units step).
Proof.
  induction days as [| day rest IH]; intros i units lastRebalanceDate j step Hzero Hstep Hreb.
  - destruct j; discriminate.
  - simpl in Hstep, Hreb.
    set (rebalance := ((0 <? i)%nat && shouldRebalance (day_date day) lastRebalanceDate frequency)%bool) in *.
    set (units' := if rebalance
                   then calculateUnits weights day (calculateValue day units)
                   else units) in *.
    assert (Hzero' : zero_units ticker units').
    { subst units'. destruct rebalance eqn:E; [| assumption].
      apply calculateUnits_zero.
      apply (Hreb 0%nat day _ (Nat.le_0_l j) eq_refl eq_refl). reflexivity. }
    destruct j as [| j].
    + inversion Hstep; subst. exact Hzero'.
    + simpl in Hstep. eapply IH; [exact Hzero' | exact Hstep |].
      intros k dayk stepk Hk Hday Hsk. apply (Hreb (S k) dayk stepk); [lia | assumption ..].
Qed.

Lemma simulate_none_never_rebalances weights days :
  forall i units lastRebalanceDate step,
    In step (simulate weights none days i units lastRebalanceDate) ->
    step_rebalanced step = false.
Proof.
  induction days as [| day rest IH]; intros i units lastRebalanceDate step Hin.
  - contradiction.
  - simpl in Hin. rewrite andb_false_r in Hin. destruct Hin as [<- | Hin].
    + reflexivity.
    + eapply IH; eassumption.
Qed.

(** C3. A weighted ticker whose price on the first date is 0 gets 0 units
    at initialization; on every date before the first rebalance that happens
    while its price is positive it still has 0 units and adds 0 to the
    portfolio value; under the [none] policy it adds 0 on every date. *)
Theorem missing_asset_zero_units day0 rest weights initialInvestment frequency ticker w :
  In (ticker, w) weights ->
  price_of day0 ticker = Some 0 ->
  lookup ticker (calculateUnits weights day0 initialInvestment) = Some 0
  /\ (forall j day step,
        nth_error (day0 :: rest) j = Some day ->
        nth_error (history_steps (day0 :: rest) weights initialInvestment frequency) j
          = Some step ->
        (forall k dayk stepk,
            (k <= j)%nat ->
            nth_error (day0 :: rest) k = Some dayk ->
            nth_error (history_steps (day0 :: rest) weights initialInvestment frequency) k
              = Some stepk ->
            step_rebalanced stepk = true ->
            ~ positive_price dayk ticker) ->
        lookup ticker (step_units step) = Some 0
        /\ contribution day (step_units step) ticker = 0)
  /\ (forall j day step,
        nth_error (day0 :: rest) j = Some day ->
        nth_error (history_steps (day0 :: rest) weights initialInvestment none) j
          = Some step ->
        contribution day (step_units step) ticker = 0).
Proof.
  intros Hin Hprice.
  assert (Hkey : In ticker (map fst weights)).
  { change ticker with (fst (ticker, w)). now apply in_map. }
  assert (Hnot : ~ positive_price day0 ticker).
  { intros (p & Hp & Hlt). rewrite Hprice in Hp. inversion Hp; subst. lra. }
  assert (Hinit : forall V, zero_units ticker (calculateUnits weights day0 V)).
  { intros V. now apply calculateUnits_zero. }
  assert (Hgen : forall f j day step,
             nth_error (history_steps (day0 :: rest) weights initialInvestment f) j
               = Some step ->
             (forall k dayk stepk,
                 (k <= j)%nat ->
                 nth_error (day0 :: rest) k = Some dayk ->
                 nth_error (history_steps (day0 :: rest) weights initialInvestment f) k
                   = Some stepk ->
                 step_rebalanced stepk = true ->
                 ~ positive_price dayk ticker) ->
             lookup ticker (step_units step) = Some 0
             /\ contribution day (step_units step) ticker = 0).
  { intros f j day step Hstep Hreb.
    assert (Hl : lookup ticker (step_units step) = Some 0).
    { apply lookup_zero.
      - unfold history_steps in Hstep.
        erewrite simulate_keys; [exact Hkey | apply calculateUnits_keys |].
        eapply nth_error_In; exact Hstep.
      - unfold history_steps in Hstep, Hreb.
        eapply simulate_zero_units; [apply Hinit | exact Hstep | exact Hreb]. }
    split; [exact Hl | now apply contribution_zero]. }
  split; [| split].
  - apply lookup_zero; [now rewrite calculateUnits_keys | apply Hinit].
  - intros j day step _. apply Hgen.
  - intros j day step _ Hstep.
    apply (Hgen none j day step Hstep).
    intros k dayk stepk _ _ Hsk Htrue.
    unfold history_steps in Hsk. apply nth_error_In in Hsk.
    apply simulate_none_never_rebalances in Hsk. congruence.
Qed.

End MissingAsset.

(** A run of C3: SOL is not listed on the first date. *)
Lemma missing_asset_zero_units_witness :
  let day0 := mkDay "2024-01-15" [("BTC"%string, 100); ("SOL"%string, 0)] in
  let day1 := mkDay "2024-01-16" [("BTC"%string, 110); ("SOL"%string, 20)] in
  let weights := [("BTC"%string, 50); ("SOL"%string, 50)] in
  In ("SOL"%string, 50) weights
  /\ price_of day0 "SOL" = Some 0
  /\ lookup "SOL" (calculateUnits weights day0 1000) = Some 0
  /\ forall step,
       nth_error (history_steps (rt := utc_runtime) [day0; day1] weights 1000 none) 1
         = Some step ->
       contribution day1 (step_units step) "SOL" = 0.
Proof.
  intros day0 day1 weights.
  assert (Hin : In ("SOL"%string, 50) weights) by (right; left; reflexivity).
  assert (Hprice : price_of day0 "SOL" = Some 0) by reflexivity.
  destruct (missing_asset_zero_units (rt := utc_runtime)
              day0 [day1] weights 1000 none "SOL" 50 Hin Hprice) as (H0 & _ & Hnone).
  split; [exact Hin |]. split; [exact Hprice |]. split; [exact H0 |].
  intros step Hstep. exact (Hnone 1%nat day1 step eq_refl Hstep).
Defined.

(* ----------------------------------------------------------------- *)
(** *** Rebalancing a single fully-weighted asset *)

Section SingleAsset.

Context {rt : Runtime}.

Lemma rebalance_single_noop dayData ticker u :
  positive_price dayData ticker ->
  calculateUnits [(ticker, 100)] dayData (calculateValue dayData [(ticker, u)])
  = [(ticker, u)].
Proof.
  intros (p & Hp & Hlt).
  rewrite calculateValue_cons, calculateValue_nil, Hp.
  unfold calculateUnits. simpl. rewrite Hp, usable_price_true by assumption.
  do 2 f_equal. field. lra.
Qed.

Lemma simulate_single_any_policy ticker frequency days :
  (forall day, In day days -> positive_price day ticker) ->
  forall i u lastRebalanceDate lastRebalanceDate',
    map step_point
      (simulate [(ticker, 100)] frequency days i [(ticker, u)] lastRebalanceDate)
    = map step_point
        (simulate [(ticker, 100)] none days i [(ticker, u)] lastRebalanceDate').
Proof.
  induction days as [| day rest IH]; intros Hpos i u lastRebalanceDate lastRebalanceDate'.
  - reflexivity.
  - cbn [simulate map shouldRebalance]. rewrite andb_false_r.
    set (rebalance := ((0 <? i)%nat && shouldRebalance (day_date day) lastRebalanceDate frequency)%bool).
    assert (Hunits :
              (if rebalance
               then calculateUnits [(ticker, 100)] day (calculateValue day [(ticker, u)])
               else [(ticker, u)]) = [(ticker, u)]).
    { destruct rebalance; [| reflexivity].
      apply rebalance_single_noop. apply Hpos. now left. }
    rewrite Hunits. f_equal. apply IH. intros d Hd. apply Hpos. now right.
Qed.


End SingleAsset.



(* ----------------------------------------------------------------- *)
(** *** Homogeneity in the initial investment *)

Section Homogeneity.

Context {rt : Runtime}.

Lemma calculateUnits_scale weights dayData c portfolioValue :
  calculateUnits weights dayData (c * portfolioValue)
  = map (scale_entry c) (calculateUnits weights dayData portfolioValue).
Proof.
  unfold calculateUnits. rewrite map_map. apply map_ext. intros [ticker w].
  destruct (price_of dayData ticker) as [price |].
  - destruct (truthy price && Rltb 0 price); unfold scale_entry; simpl; f_equal.
    + unfold Rdiv. ring.
    + ring.
  - unfold scale_entry. simpl. f_equal. ring.
Qed.

Lemma calculateValue_scale dayData c units :
  calculateValue dayData (map (scale_entry c) units)
  = c * calculateValue dayData units.
Proof.
  induction units as [| [ticker u] rest IH].
  - simpl. rewrite calculateValue_nil. ring.
  - simpl map. unfold scale_entry at 1. simpl fst. simpl snd.
    rewrite !calculateValue_cons, IH.
    destruct (price_of dayData ticker); ring.
Qed.

Lemma simulate_scale weights frequency c days :
  forall i units lastRebalanceDate,
    map step_point
      (simulate weights frequency days i (map (scale_entry c) units) lastRebalanceDate)
    = map (scale_point c)
        (map step_point (simulate weights frequency days i units lastRebalanceDate)).
Proof.
  induction days as [| day rest IH]; intros i units lastRebalanceDate.
  - reflexivity.
  - cbn [simulate map].
    set (rebalance := ((0 <? i)%nat && shouldRebalance (day_date day) lastRebalanceDate frequency)%bool).
    assert (Hunits :
              (if rebalance
               then calculateUnits weights day
                      (calculateValue day (map (scale_entry c) units))
               else map (scale_entry c) units)
              = map (scale_entry c)
                  (if rebalance
                   then calculateUnits weights day (calculateValue day units)
                   else units)).
    { destruct rebalance; [| reflexivity].
      now rewrite calculateValue_scale, calculateUnits_scale. }
    rewrite Hunits, IH, calculateValue_scale. reflexivity.
Qed.

Lemma history_scale historicalData weights c k frequency :
  calculatePortfolioHistory historicalData weights (c * k) frequency
  = map (scale_point c)
      (calculatePortfolioHistory historicalData weights k frequency).
Proof.
  unfold calculatePortfolioHistory, history_steps.
  destruct historicalData as [| day0 rest]; [reflexivity |].
  rewrite calculateUnits_scale. apply simulate_scale.
Qed.


End Homogeneity.


(* ================================================================= *)
(** ** MetricsEngine *)

(** *** Arithmetic of finite numbers inside [num] *)

Lemma div_finite (x y : R) : y <> 0 -> Num.div (Fin x) (Fin y) = Fin (x / y).
Proof. intros H. simpl. now rewrite Reqb_false. Qed.

Lemma div_zero_zero : Num.div (Fin 0) (Fin 0) = NaN.
Proof. simpl. now rewrite !Reqb_refl. Qed.

Lemma sub_finite (x y : R) : Num.sub (Fin x) (Fin y) = Fin (x - y).
Proof. reflexivity. Qed.

Lemma max_finite (x y : R) :
  Num.max (Fin x) (Fin y) = Fin (if Rltb x y then y else x).
Proof. simpl. now destruct (Rltb x y). Qed.

Lemma max_nan_r (a : num) : Num.max a NaN = NaN.
Proof. now destruct a. Qed.

Section MetricsProperties.

Context {rt : Runtime}.

(** C6. On a series of 0 or 1 points [calculateMetrics] returns the
    degenerate metrics: the final balance is the initial investment and the
    derived figures are all 0. *)
Theorem degenerate_input portfolioValues investment sp500Data :
  (List.length portfolioValues < 2)%nat ->
  let m := calculateMetrics portfolioValues investment sp500Data in
  initialInvestment m = Fin investment
  /\ finalBalance m = Fin investment
  /\ totalReturn m = Fin 0
  /\ cagr m = Fin 0
  /\ volatility m = Fin 0
  /\ sharpeRatio m = Fin 0
  /\ bestDay m = Fin 0
  /\ worstDay m = Fin 0
  /\ maxDrawdown m = Fin 0.
Proof.
  intros Hlen.
  destruct portfolioValues as [| p [| q rest]]; simpl in Hlen; try lia;
    simpl; repeat split.
Qed.

(** *** Maximum drawdown *)

Lemma maxDrawdown_loop first second others investment sp500Data :
  maxDrawdown (calculateMetrics (first :: second :: others) investment sp500Data)
  = drawdown_loop (second :: others) (Fin 0) (value first).
Proof. reflexivity. Qed.

Lemma drawdown_loop_running_peak rest :
  forall worst peak,
    drawdown_loop rest worst peak
    = snd (fold_left running_peak_step (map value rest) (peak, worst)).
Proof.
  induction rest as [| p rest IH]; intros worst peak.
  - reflexivity.
  - simpl. destruct (Rltb peak (value p)); apply IH.
Qed.

Lemma drawdown_loop_cons point rest worst peak :
  drawdown_loop (point :: rest) worst peak
  = if Rltb peak (value point)
    then drawdown_loop rest worst (value point)
    else drawdown_loop rest
           (Num.max worst
              (Num.div (Num.sub (Fin peak) (Fin (value point))) (Fin peak)))
           peak.
Proof. reflexivity. Qed.

(** With a positive peak the loop keeps a finite non-negative maximum. *)
Lemma drawdown_loop_nonneg rest :
  forall worst peak,
    0 < peak -> 0 <= worst ->
    exists r, drawdown_loop rest (Fin worst) peak = Fin r /\ 0 <= r.
Proof.
  induction rest as [| p rest IH]; intros worst peak Hpeak Hworst.
  - exists worst. now split.
  - rewrite drawdown_loop_cons. destruct (Rltb peak (value p)) eqn:Hcmp.
    + apply Rltb_iff in Hcmp. apply IH; lra.
    + rewrite sub_finite, div_finite, max_finite by lra. apply IH; [assumption |].
      destruct (Rltb worst ((peak - value p) / peak)) eqn:E; [| assumption].
      apply Rltb_iff in E. lra.
Qed.

(** On a non-decreasing series above a positive peak nothing is drawn down. *)
Lemma drawdown_loop_nondecreasing rest :
  forall peak,
    0 < peak -> nondecreasing_from peak (map value rest) ->
    drawdown_loop rest (Fin 0) peak = Fin 0.
Proof.
  induction rest as [| p rest IH]; intros peak Hpeak Hmono.
  - reflexivity.
  - simpl in Hmono. destruct Hmono as [Hle Hmono]. rewrite drawdown_loop_cons.
    destruct (Rltb peak (value p)) eqn:Hcmp.
    + apply Rltb_iff in Hcmp. apply IH; [lra | assumption].
    + assert (value p = peak).
      { destruct (Rlt_dec peak (value p)) as [Hlt | Hnlt].
        - apply Rltb_true in Hlt. congruence.
        - lra. }
      rewrite sub_finite, div_finite, max_finite by lra.
      replace ((peak - value p) / peak) with 0 by (subst; field; lra).
      rewrite Rltb_false by lra. apply IH; [assumption | now subst].
Qed.

(** C7 (amended). On a series of at least 2 points the maximum drawdown is
    the result of the running-peak algorithm; when the first value is
    positive it is a non-negative number, and it is 0 on a non-decreasing
    series; on the values [100, 50] it is 0.5. *)
Theorem max_drawdown_running_peak first second others investment sp500Data :
  let series := first :: second :: others in
  let result := maxDrawdown (calculateMetrics series investment sp500Data) in
  result = running_peak_drawdown (map value series)
  /\ (0 < value first ->
      (exists r, result = Fin r /\ 0 <= r)
      /\ (nondecreasing (map value series) -> result = Fin 0))
  /\ (value first = 100 -> value second = 50 -> others = [] -> result = Fin (1 / 2)).
Proof.
  intros series result. subst result series. rewrite maxDrawdown_loop.
  split; [| split].
  - rewrite drawdown_loop_running_peak. reflexivity.
  - intros Hpos. split.
    + apply drawdown_loop_nonneg; lra.
    + intros Hmono. now apply drawdown_loop_nondecreasing.
  - intros H1 H2 ->. rewrite drawdown_loop_cons, H1, H2.
    rewrite Rltb_false by lra.
    rewrite sub_finite, div_finite, max_finite by lra.
    rewrite Rltb_true by lra. simpl. f_equal. field.
Qed.

End MetricsProperties.

(** A run of C6 on a series of one point. *)
Lemma degenerate_input_witness :
  let series := [mkPoint "2024-01-15" 1200] in
  let m := calculateMetrics (rt := utc_runtime) series 1000 None in
  (List.length series < 2)%nat
  /\ initialInvestment m = Fin 1000
  /\ finalBalance m = Fin 1000
  /\ totalReturn m = Fin 0
  /\ cagr m = Fin 0
  /\ volatility m = Fin 0
  /\ sharpeRatio m = Fin 0
  /\ bestDay m = Fin 0
  /\ worstDay m = Fin 0
  /\ maxDrawdown m = Fin 0.
Proof.
  intros series m.
  assert (H : (List.length series < 2)%nat) by (simpl; lia).
  split; [exact H |].
  exact (degenerate_input (rt := utc_runtime) series 1000 None H).
Defined.

(** C7, as stated, fails: on a series that stays at 0 the drawdown is
    [0 / 0], so the result is [NaN], which is neither a non-negative number
    nor 0, although the series is non-decreasing. *)
Lemma max_drawdown_counterexample :
  let series := [mkPoint "2024-01-15" 0; mkPoint "2024-01-16" 0] in
  let result := maxDrawdown (calculateMetrics (rt := utc_runtime) series 1000 None) in
  nondecreasing (map value series)
  /\ result = NaN
  /\ ~ Num.nonneg result
  /\ result <> Fin 0.
Proof.
  intros series result.
  assert (H : result = NaN).
  { subst result series. rewrite maxDrawdown_loop, drawdown_loop_cons. simpl value.
    rewrite Rltb_false by lra.
    rewrite sub_finite, Rminus_diag, div_zero_zero. reflexivity. }
  split; [simpl; lra |]. split; [exact H |]. rewrite H.
  split; [intros [] | discriminate].
Qed.

(** A run of C7 (amended) on the values 100, 50. *)
Lemma max_drawdown_running_peak_witness :
  let first := mkPoint "2024-01-15" 100 in
  let second := mkPoint "2024-01-16" 50 in
  let result :=
    maxDrawdown (calculateMetrics (rt := utc_runtime) [first; second] 1000 None) in
  0 < value first
  /\ (exists r, result = Fin r /\ 0 <= r)
  /\ result = Fin (1 / 2).
Proof.
  intros first second result.
  destruct (max_drawdown_running_peak (rt := utc_runtime) first second [] 1000 None)
    as (_ & Hpos & Hex).
  assert (H : 0 < value first) by (simpl; lra).
  split; [exact H |]. split.
  - exact (proj1 (Hpos H)).
  - exact (Hex eq_refl eq_refl eq_refl).
Defined.

(* ----------------------------------------------------------------- *)
(** *** Order on numbers that are not [NaN] *)

Ltac order_on_reals :=
  repeat match goal with
         | H : (_ || _)%bool = true |- _ => apply orb_true_iff in H; destruct H
         | H : Rltb _ _ = true |- _ => apply Rltb_iff in H
         | H : Reqb _ _ = true |- _ => apply Reqb_iff in H
         | |- (_ || _)%bool = true => apply orb_true_iff
         end.

Lemma ltb_trans (a b c : num) :
  Num.ltb a b = true -> Num.ltb b c = true -> Num.ltb a c = true.
Proof.
  destruct a, b, c; simpl; intros H1 H2; try discriminate; try reflexivity.
  all: order_on_reals; apply Rltb_true; lra.
Qed.

Lemma leb_ltb_trans (a b c : num) :
  Num.leb a b = true -> Num.ltb b c = true -> Num.ltb a c = true.
Proof.
  unfold Num.leb.
  destruct a, b, c; simpl; intros H1 H2; try discriminate; try reflexivity.
  all: order_on_reals; apply Rltb_true; lra.
Qed.

Lemma ltb_leb_trans (a b c : num) :
  Num.ltb a b = true -> Num.leb b c = true -> Num.ltb a c = true.
Proof.
  unfold Num.leb.
  destruct a, b, c; simpl; intros H1 H2; try discriminate; try reflexivity.
  all: order_on_reals; apply Rltb_true; lra.
Qed.

Lemma not_ltb_leb (a b : num) :
  a <> NaN -> b <> NaN -> Num.ltb a b = false -> Num.leb b a = true.
Proof.
  unfold Num.leb.
  destruct a, b; simpl; intros Ha Hb H; try discriminate; try reflexivity;
    try congruence.
  apply orb_true_iff.
  destruct (Rlt_dec r0 r) as [Hlt | Hnlt].
  - left. now apply Rltb_true.
  - right. apply Reqb_true.
    destruct (Rlt_dec r r0) as [Hlt' | Hnlt'].
    + apply Rltb_true in Hlt'. congruence.
    + lra.
Qed.

(* ----------------------------------------------------------------- *)
(** *** Months *)

Lemma month_groups_cons p rest :
  month_groups (p :: rest)
  = match month_groups rest with
    | (q :: g) :: more =>
        if String.eqb (month_of p) (month_of q)
        then (p :: q :: g) :: more
        else [p] :: (q :: g) :: more
    | _ => [[p]]
    end.
Proof. reflexivity. Qed.

Lemma month_groups_head p rest :
  exists g more, month_groups (p :: rest) = (p :: g) :: more.
Proof.
  rewrite month_groups_cons.
  destruct (month_groups rest) as [| [| q g] more]; eauto.
  destruct (String.eqb (month_of p) (month_of q)); eauto.
Qed.

(** The groups partition the series. *)
Lemma month_groups_concat values : List.concat (month_groups values) = values.
Proof.
  induction values as [| p rest IH]; [reflexivity |].
  rewrite month_groups_cons. destruct rest as [| q rest]; [reflexivity |].
  destruct (month_groups_head q rest) as (g & more & E).
  rewrite E in *. rewrite <- IH.
  now destruct (String.eqb (month_of p) (month_of q)).
Qed.

(** Every group carries one month label. *)
Lemma month_groups_same_month values : Forall same_month (month_groups values).
Proof.
  induction values as [| p rest IH]; [constructor |].
  rewrite month_groups_cons. destruct rest as [| q rest].
  - constructor; [| constructor]. intros x y [<- | []] [<- | []]. reflexivity.
  - destruct (month_groups_head q rest) as (g & more & E). rewrite E in *.
    inversion IH as [| ? ? Hg Hmore]; subst.
    destruct (String.eqb_spec (month_of p) (month_of q)) as [Hpq | _].
    + constructor; [| assumption].
      assert (Hq : forall x, In x (p :: q :: g) -> month_of x = month_of q).
      { intros x [<- | Hx]; [assumption |]. apply Hg; [assumption | now left]. }
      intros x y Hx Hy. now rewrite (Hq x Hx), (Hq y Hy).
    + constructor; [| now constructor].
      intros x y [<- | []] [<- | []]. reflexivity.
Qed.

(** The month label changes from each group to the next. *)
Lemma month_groups_change values : months_change (month_groups values).
Proof.
  induction values as [| p rest IH]; [exact I |].
  rewrite month_groups_cons. destruct rest as [| q rest]; [exact I |].
  destruct (month_groups_head q rest) as (g & more & E). rewrite E in *.
  destruct (String.eqb_spec (month_of p) (month_of q)) as [Hpq | Hpq].
  - destruct more as [| [| y g2] more2]; try exact I.
    cbn [months_change] in IH |- *. destruct IH as [Hqy Hmore].
    split; [congruence | assumption].
  - cbn [months_change]. split; assumption.
Qed.

(** Points of one month form one group. *)
Lemma month_groups_one_month g :
  forall s,
    (forall x, In x g -> month_of x = month_of s) ->
    month_groups (s :: g) = [s :: g].
Proof.
  induction g as [| x g IH]; intros s Hsame; [reflexivity |].
  rewrite month_groups_cons, (IH x).
  - rewrite <- (Hsame x (or_introl eq_refl)), String.eqb_refl. reflexivity.
  - intros y Hy. rewrite (Hsame y (or_intror Hy)).
    symmetry. apply Hsame. now left.
Qed.

(** A group ends where the month changes. *)
Lemma month_groups_split g :
  forall s d rest,
    (forall x, In x g -> month_of x = month_of s) ->
    month_of d <> month_of s ->
    month_groups (s :: g ++ d :: rest) = (s :: g) :: month_groups (d :: rest).
Proof.
  induction g as [| x g IH]; intros s d rest Hsame Hdiff.
  - simpl app. rewrite month_groups_cons.
    destruct (month_groups_head d rest) as (g' & more & ->).
    destruct (String.eqb_spec (month_of s) (month_of d)) as [E | _]; [| reflexivity].
    congruence.
  - assert (Hx : month_of x = month_of s) by (apply Hsame; now left).
    simpl app. rewrite month_groups_cons, (IH x d rest).
    + rewrite <- Hx, String.eqb_refl. reflexivity.
    + intros y Hy. rewrite Hx. apply Hsame. now right.
    + congruence.
Qed.

(** The grouping loop with an open month that started at [s] and whose
    latest point is the last of [s :: g]. *)
Lemma group_months_open days :
  forall s g acc,
    (forall x, In x g -> month_of x = month_of s) ->
    group_months days acc (month_of s) (Some s) (Some (last g s))
    = acc ++ months_of_groups (month_groups (s :: g ++ days)).
Proof.
  induction days as [| d rest IH]; intros s g acc Hsame.
  - rewrite app_nil_r, month_groups_one_month by assumption. reflexivity.
  - cbn [group_months].
    destruct (String.eqb_spec (month_of d) (month_of s)) as [E | Hdiff]; cbn [negb].
    + rewrite <- (last_last g d s) at 1. rewrite IH.
      * now rewrite <- app_assoc.
      * intros x Hx. apply in_app_or in Hx.
        destruct Hx as [Hx | [<- | []]]; [now apply Hsame | assumption].
    + change (Some d) with (Some (last [] d)) at 2.
      rewrite (IH d [] _) by (intros x []).
      rewrite month_groups_split by assumption.
      cbn [save_month months_of_groups month_of_group app].
      rewrite <- app_assoc. reflexivity.
Qed.

Lemma group_months_groups first rest :
  month_of first <> EmptyString ->
  group_months (first :: rest) [] EmptyString None None
  = months_of_groups (month_groups (first :: rest)).
Proof.
  intros Hlabel. cbn [group_months].
  destruct (String.eqb_spec (month_of first) EmptyString) as [E | _]; [contradiction |].
  cbn [negb save_month].
  change (Some first) with (Some (last [] first)) at 2.
  now rewrite (group_months_open rest first [] []) by (intros x []).
Qed.

(** *** The best and the worst month *)

Lemma best_month_fold others :
  forall before best after,
    (forall m, In m before -> Num.ltb (return_ m) (return_ best) = true) ->
    (forall m, In m after -> Num.leb (return_ m) (return_ best) = true) ->
    return_ best <> NaN ->
    (forall m, In m others -> return_ m <> NaN) ->
    first_maximum
      (fold_left (fun best m =>
                    if Num.gtb (return_ m) (return_ best) then m else best)
                 others best)
      (before ++ best :: after ++ others).
Proof.
  induction others as [| m rest IH]; intros before best after Hb Ha Hbest Hnan.
  - rewrite app_nil_r. exists before, after. auto.
  - cbn [fold_left]. unfold Num.gtb at 2.
    destruct (Num.ltb (return_ best) (return_ m)) eqn:Hcmp.
    + replace (before ++ best :: after ++ m :: rest)
        with ((before ++ best :: after) ++ m :: [] ++ rest)
        by (rewrite <- app_assoc; reflexivity).
      apply IH.
      * intros x Hx. apply in_app_or in Hx. destruct Hx as [Hx | [<- | Hx]].
        -- eapply ltb_trans; [now apply Hb | exact Hcmp].
        -- exact Hcmp.
        -- eapply leb_ltb_trans; [now apply Ha | exact Hcmp].
      * intros x [].
      * apply Hnan. now left.
      * intros x Hx. apply Hnan. now right.
    + replace (before ++ best :: after ++ m :: rest)
        with (before ++ best :: (after ++ [m]) ++ rest)
        by (rewrite <- app_assoc; reflexivity).
      apply IH; try assumption.
      * intros x Hx. apply in_app_or in Hx. destruct Hx as [Hx | [<- | []]].
        -- now apply Ha.
        -- apply not_ltb_leb; [assumption | apply Hnan; now left | assumption].
      * intros x Hx. apply Hnan. now right.
Qed.

Lemma worst_month_fold others :
  forall before worst after,
    (forall m, In m before -> Num.ltb (return_ worst) (return_ m) = true) ->
    (forall m, In m after -> Num.leb (return_ worst) (return_ m) = true) ->
    return_ worst <> NaN ->
    (forall m, In m others -> return_ m <> NaN) ->
    first_minimum
      (fold_left (fun worst m =>
                    if Num.ltb (return_ m) (return_ worst) then m else worst)
                 others worst)
      (before ++ worst :: after ++ others).
Proof.
  induction others as [| m rest IH]; intros before worst after Hb Ha Hworst Hnan.
  - rewrite app_nil_r. exists before, after. auto.
  - cbn [fold_left].
    destruct (Num.ltb (return_ m) (return_ worst)) eqn:Hcmp.
    + replace (before ++ worst :: after ++ m :: rest)
        with ((before ++ worst :: after) ++ m :: [] ++ rest)
        by (rewrite <- app_assoc; reflexivity).
      apply IH.
      * intros x Hx. apply in_app_or in Hx. destruct Hx as [Hx | [<- | Hx]].
        -- eapply ltb_trans; [exact Hcmp | now apply Hb].
        -- exact Hcmp.
        -- eapply ltb_leb_trans; [exact Hcmp | now apply Ha].
      * intros x [].
      * apply Hnan. now left.
      * intros x Hx. apply Hnan. now right.
    + replace (before ++ worst :: after ++ m :: rest)
        with (before ++ worst :: (after ++ [m]) ++ rest)
        by (rewrite <- app_assoc; reflexivity).
      apply IH; try assumption.
      * intros x Hx. apply in_app_or in Hx. destruct Hx as [Hx | [<- | []]].
        -- now apply Ha.
        -- apply not_ltb_leb; [apply Hnan; now left | assumption | assumption].
      * intros x Hx. apply Hnan. now right.
Qed.

Lemma months_of_groups_return groups :
  forall m,
    In m (months_of_groups groups) ->
    return_ m
    = Num.sub (Num.div (Fin (endValue m)) (Fin (startValue m))) (Fin 1).
Proof.
  induction groups as [| g more IH]; intros m Hin; [contradiction |].
  destruct g as [| s rest]; cbn [months_of_groups month_of_group] in Hin.
  - now apply IH.
  - destruct Hin as [<- | Hin]; [reflexivity | now apply IH].
Qed.

Lemma months_of_groups_in groups :
  forall g m,
    In g groups -> month_of_group g = Some m -> In m (months_of_groups groups).
Proof.
  induction groups as [| g0 more IH]; intros g m Hin Hm; [contradiction |].
  cbn [months_of_groups]. destruct Hin as [-> | Hin].
  - rewrite Hm. now left.
  - destruct (month_of_group g0); [right |]; eapply IH; eassumption.
Qed.

(** A return that is not [NaN] is either up or down. *)
Lemma up_or_down (a : num) :
  a <> NaN -> Num.leb a (Fin 0) = negb (Num.gtb a (Fin 0)).
Proof.
  destruct a as [r | | |]; intros Ha; try reflexivity; [| congruence].
  unfold Num.leb, Num.gtb. simpl.
  destruct (Rlt_dec 0 r) as [Hpos | Hnpos].
  - rewrite (Rltb_true 0 r), Rltb_false, Reqb_false by lra. reflexivity.
  - rewrite (Rltb_false 0 r) by assumption. simpl.
    destruct (Rlt_dec r 0) as [Hneg | Hnneg].
    + now rewrite Rltb_true.
    + rewrite Rltb_false, Reqb_true by lra. reflexivity.
Qed.

Lemma up_down_partition months :
  (forall m, In m months -> return_ m <> NaN) ->
  (List.length (filter (fun m => Num.gtb (return_ m) (Fin 0)) months)
   + List.length (filter (fun m => Num.leb (return_ m) (Fin 0)) months))%nat
  = List.length months.
Proof.
  induction months as [| m rest IH]; intros Hnan; [reflexivity |].
  cbn [filter]. rewrite (up_or_down (return_ m)) by (apply Hnan; now left).
  specialize (IH (fun x Hx => Hnan x (or_intror Hx))).
  destruct (Num.gtb (return_ m) (Fin 0)); cbn [negb List.length]; lia.
Qed.

(** C8 (amended). The monthly statistics of a series of at least 2 points
    whose first date carries a month label: one entry per group of
    consecutive points of a month, with return [endValue / startValue - 1]
    over the first and the last point of the group; a month of a single
    point of non-zero value has return 0; [upMonths] counts the months of
    return [> 0] and [downMonths] those of return [<= 0], a return of 0
    counting as down; when no monthly return is [NaN], every month is up
    or down, and [bestMonth] and [worstMonth] are the first months of
    maximal and of minimal return. *)
Theorem monthly_statistics first second others :
  let series := first :: second :: others in
  month_of first <> EmptyString ->
  exists stats,
    calculateMonthlyPerformance series = Some stats
    /\ monthlyData stats = months_of_groups (month_groups series)
    /\ (forall m, In m (monthlyData stats) ->
          return_ m
          = Num.sub (Num.div (Fin (endValue m)) (Fin (startValue m))) (Fin 1))
    /\ (forall p, In [p] (month_groups series) -> value p <> 0 ->
          exists m, In m (monthlyData stats)
                    /\ month m = month_of p
                    /\ startValue m = value p /\ endValue m = value p
                    /\ return_ m = Fin 0)
    /\ upMonths stats
       = List.length (filter (fun m => Num.gtb (return_ m) (Fin 0)) (monthlyData stats))
    /\ downMonths stats
       = List.length (filter (fun m => Num.leb (return_ m) (Fin 0)) (monthlyData stats))
    /\ Num.gtb (Fin 0) (Fin 0) = false
    /\ Num.leb (Fin 0) (Fin 0) = true
    /\ ((forall m, In m (monthlyData stats) -> return_ m <> NaN) ->
        (upMonths stats + downMonths stats)%nat = List.length (monthlyData stats)
        /\ first_maximum (bestMonth stats) (monthlyData stats)
        /\ first_minimum (worstMonth stats) (monthlyData stats)).
Proof.
  intros series Hlabel.
  destruct (month_groups_head first (second :: others)) as (g & more & Hgroups).
  fold series in Hgroups.
  destruct (months_of_groups (month_groups series)) as [| m0 months] eqn:Hmonths.
  { rewrite Hgroups in Hmonths. discriminate. }
  assert (Hdata : group_months series [] EmptyString None None = m0 :: months).
  { rewrite <- Hmonths. now apply group_months_groups. }
  unfold calculateMonthlyPerformance.
  change ((List.length series <? 2)%nat) with false. cbv zeta iota.
  rewrite Hdata.
  eexists. split; [reflexivity |]. cbn [monthlyData upMonths downMonths bestMonth worstMonth].
  split; [reflexivity |]. split.
  { intros m Hm. rewrite <- Hmonths in Hm. exact (months_of_groups_return _ m Hm). }
  split.
  { intros p Hp Hvalue.
    exists (mkMonth (month_of p)
              (Num.sub (Num.div (Fin (value p)) (Fin (value p))) (Fin 1))
              (value p) (value p)).
    split; [| repeat split].
    - rewrite <- Hmonths. eapply months_of_groups_in; [exact Hp | reflexivity].
    - cbn [return_]. rewrite div_finite, sub_finite by assumption.
      f_equal. field. assumption. }
  split; [reflexivity |]. split; [reflexivity |].
  split; [simpl; apply Rltb_false; lra |].
  split; [unfold Num.leb; simpl; rewrite Reqb_refl; apply orb_true_r |].
  intros Hnan. unfold reduce1. split; [now apply up_down_partition | split].
  - apply (best_month_fold months [] m0 []).
    + intros m [].
    + intros m [].
    + apply Hnan. now left.
    + intros m Hm. apply Hnan. now right.
  - apply (worst_month_fold months [] m0 []).
    + intros m [].
    + intros m [].
    + apply Hnan. now left.
    + intros m Hm. apply Hnan. now right.
Qed.

(** C8, as stated, fails: a month of a single point of value 0 has return
    [0 / 0 - 1], which is [NaN] and not 0, and the month is counted neither
    as up nor as down. *)
Lemma monthly_statistics_counterexample :
  let january := mkPoint "2024-01-31" 0 in
  let february := mkPoint "2024-02-01" 0 in
  let series := [january; february] in
  In [january] (month_groups series)
  /\ exists stats,
       calculateMonthlyPerformance series = Some stats
       /\ map month (monthlyData stats) = ["2024-01"%string; "2024-02"%string]
       /\ map return_ (monthlyData stats) = [NaN; NaN]
       /\ upMonths stats = 0%nat
       /\ downMonths stats = 0%nat.
Proof.
  intros january february series.
  split; [left; reflexivity |].
  assert (Hdata : group_months series [] EmptyString None None
                  = [mkMonth "2024-01" NaN 0 0; mkMonth "2024-02" NaN 0 0]).
  { unfold series, january, february.
    cbn [group_months month_of date substring String.eqb Ascii.eqb Bool.eqb negb
         save_month app].
    unfold month_entry. cbn [value].
    rewrite div_zero_zero. reflexivity. }
  unfold calculateMonthlyPerformance.
  change ((List.length series <? 2)%nat) with false. cbv zeta iota.
  rewrite Hdata. eexists. split; [reflexivity |].
  cbn [monthlyData upMonths downMonths map month return_].
  repeat split.
Qed.

(** A run of C8 (amended): two points in January, one in February; the
    returns are 0.1 and 0, January is the best and February the worst month. *)
Lemma monthly_statistics_witness :
  let first := mkPoint "2024-01-30" 100 in
  let second := mkPoint "2024-01-31" 110 in
  let third := mkPoint "2024-02-01" 99 in
  month_of first <> EmptyString
  /\ exists stats,
       calculateMonthlyPerformance [first; second; third] = Some stats
       /\ map month (monthlyData stats) = ["2024-01"%string; "2024-02"%string]
       /\ map return_ (monthlyData stats) = [Fin (1 / 10); Fin 0]
       /\ (upMonths stats + downMonths stats)%nat = List.length (monthlyData stats)
       /\ first_maximum (bestMonth stats) (monthlyData stats)
       /\ first_minimum (worstMonth stats) (monthlyData stats).
Proof.
  intros first second third.
  assert (H : month_of first <> EmptyString) by discriminate.
  split; [exact H |].
  destruct (monthly_statistics first second [third] H)
    as (stats & Hs & Hd & _ & _ & _ & _ & _ & _ & Hbest).
  assert (Hdata : monthlyData stats
                  = [mkMonth "2024-01" (Fin (1 / 10)) 100 110;
                     mkMonth "2024-02" (Fin 0) 99 99]).
  { rewrite Hd.
    cbn [month_groups month_of date substring String.eqb Ascii.eqb Bool.eqb
         months_of_groups month_of_group last value first second third].
    rewrite !div_finite, !sub_finite by lra.
    replace (110 / 100 - 1) with (1 / 10) by field.
    replace (99 / 99 - 1) with 0 by field.
    reflexivity. }
  exists stats. split; [exact Hs |]. rewrite Hdata in *.
  split; [reflexivity |]. split; [reflexivity |].
  apply Hbest. intros m [<- | [<- | []]]; discriminate.
Defined.

(* ----------------------------------------------------------------- *)
(** *** Correlation *)

Lemma add_finite (x y : R) : Num.add (Fin x) (Fin y) = Fin (x + y).
Proof. reflexivity. Qed.

Lemma mul_finite (x y : R) : Num.mul (Fin x) (Fin y) = Fin (x * y).
Proof. reflexivity. Qed.

Lemma sqrt_finite (x : R) : 0 <= x -> Num.sqrt (Fin x) = Fin (sqrt x).
Proof. intros H. simpl. now rewrite Rltb_false by lra. Qed.

Lemma fold_add_finite xs :
  forall a, fold_left Num.add (map Fin xs) (Fin a) = Fin (a + fold_right Rplus 0 xs).
Proof.
  induction xs as [| x xs IH]; intros a; simpl.
  - f_equal. ring.
  - rewrite IH. f_equal. ring.
Qed.

Lemma sum_list_finite xs : sum_list (map Fin xs) = Fin (fold_right Rplus 0 xs).
Proof. unfold sum_list. rewrite fold_add_finite. f_equal. ring. Qed.

Lemma correlation_sums_finite xs :
  forall ys mx my a b c,
    List.length xs = List.length ys ->
    correlation_sums (map Fin xs) (map Fin ys) (Fin mx) (Fin my) (Fin a) (Fin b) (Fin c)
    = (Fin (a + sum_products xs ys mx my),
       Fin (b + sum_products xs xs mx mx),
       Fin (c + sum_products ys ys my my)).
Proof.
  induction xs as [| x xs IH]; intros [| y ys] mx my a b c Hlen;
    try discriminate.
  - simpl. now rewrite !Rplus_0_r.
  - cbn [map correlation_sums].
    rewrite !sub_finite, !mul_finite, !add_finite.
    rewrite IH by (simpl in Hlen; congruence).
    cbn [sum_products]. now rewrite !Rplus_assoc.
Qed.

Lemma sum_products_self_nonneg xs m : 0 <= sum_products xs xs m m.
Proof.
  induction xs as [| x xs IH]; simpl; [lra |].
  pose proof (Rle_0_sqr (x - m)) as H. unfold Rsqr in H. lra.
Qed.

(** The cross term of the Cauchy-Schwarz step. *)
Lemma cross_term_bound (a b c A B : R) :
  0 <= A -> 0 <= B -> c * c <= A * B ->
  2 * (a * b) * c <= A * (b * b) + B * (a * a).
Proof.
  intros HA HB Hc.
  set (X := 2 * (a * b) * c). set (Y := A * (b * b) + B * (a * a)).
  assert (HY : 0 <= Y).
  { pose proof (Rle_0_sqr a) as Ha. pose proof (Rle_0_sqr b) as Hb.
    unfold Rsqr in Ha, Hb. unfold Y.
    apply Rplus_le_le_0_compat; apply Rmult_le_pos; assumption. }
  assert (Hsq : X * X <= Y * Y).
  { assert (H1 : X * X = 4 * ((a * b) * (a * b)) * (c * c)) by (unfold X; ring).
    assert (H2 : Y * Y
                 = 4 * ((a * b) * (a * b)) * (A * B)
                   + (A * (b * b) - B * (a * a)) * (A * (b * b) - B * (a * a)))
      by (unfold Y; ring).
    assert (H3 : 0 <= (a * b) * (a * b)) by apply Rle_0_sqr.
    assert (H4 : 0 <= (A * (b * b) - B * (a * a)) * (A * (b * b) - B * (a * a)))
      by apply Rle_0_sqr.
    assert (H5 : (a * b) * (a * b) * (c * c) <= (a * b) * (a * b) * (A * B))
      by (apply Rmult_le_compat_l; assumption).
    rewrite H1, H2. lra. }
  destruct (Rle_dec X Y) as [Hle | Hnle]; [assumption |].
  assert (Hlt : Y < X) by lra.
  assert (Y * Y < X * X) by (apply Rmult_le_0_lt_compat; assumption).
  lra.
Qed.

(** The Cauchy-Schwarz inequality on the deviations of two samples. *)
Lemma cauchy_schwarz xs :
  forall ys mx my,
    sum_products xs ys mx my * sum_products xs ys mx my
    <= sum_products xs xs mx mx * sum_products ys ys my my.
Proof.
  induction xs as [| x xs IH]; intros [| y ys] mx my; simpl;
    rewrite ?Rmult_0_l, ?Rmult_0_r; try lra.
  specialize (IH ys mx my).
  pose proof (sum_products_self_nonneg xs mx) as HA.
  pose proof (sum_products_self_nonneg ys my) as HB.
  pose proof (cross_term_bound (x - mx) (y - my) (sum_products xs ys mx my)
                _ _ HA HB IH) as Hcross.
  nra.
Qed.

Lemma pearson_bounds xs ys : -1 <= pearson xs ys <= 1.
Proof.
  unfold pearson.
  destruct (Reqb (sum_squares xs) 0 || Reqb (sum_squares ys) 0)%bool eqn:E; [lra |].
  apply orb_false_iff in E. destruct E as [Ex Ey].
  assert (Hx : sum_squares xs <> 0) by (intros H; apply Reqb_true in H; congruence).
  assert (Hy : sum_squares ys <> 0) by (intros H; apply Reqb_true in H; congruence).
  pose proof (sum_products_self_nonneg xs (mean xs)) as Hx0.
  pose proof (sum_products_self_nonneg ys (mean ys)) as Hy0.
  fold (sum_squares xs) in Hx0. fold (sum_squares ys) in Hy0.
  pose proof (cauchy_schwarz xs ys (mean xs) (mean ys)) as Hcs.
  fold (sum_squares xs) (sum_squares ys) in Hcs.
  set (cov := sum_products xs ys (mean xs) (mean ys)) in *.
  set (p := sum_squares xs * sum_squares ys) in *.
  assert (Hp : 0 < p) by (unfold p; nra).
  assert (Hden : 0 < sqrt p) by now apply sqrt_lt_R0.
  pose proof (sqrt_sqrt p (Rlt_le _ _ Hp)) as Hsq.
  set (den := sqrt p) in *.
  assert (Hq : cov = (cov / den) * den) by (field; lra).
  set (q := cov / den) in *.
  assert (Hq2 : q * q * p <= p) by (rewrite <- Hsq at 1; rewrite Hq in Hcs; nra).
  assert (Hq1 : q * q <= 1) by nra.
  split; nra.
Qed.

Lemma calculateCorrelation_pearson xs ys :
  List.length xs = List.length ys -> (2 <= List.length xs)%nat ->
  calculateCorrelation (map Fin xs) (map Fin ys) = Fin (pearson xs ys).
Proof.
  intros Hlen Hmin. unfold calculateCorrelation.
  rewrite !length_map, Hlen, Nat.eqb_refl.
  replace (List.length ys <? 2)%nat with false
    by (symmetry; apply Nat.ltb_ge; lia).
  cbn [negb orb]. unfold length_num. rewrite length_map, !sum_list_finite.
  assert (Hn : INR (List.length xs) <> 0) by (apply not_0_INR; lia).
  rewrite !div_finite by assumption.
  rewrite correlation_sums_finite by assumption. cbv iota beta.
  rewrite !Rplus_0_l, mul_finite.
  change (fold_right Rplus 0 xs / INR (List.length xs)) with (mean xs).
  replace (fold_right Rplus 0 ys / INR (List.length xs)) with (mean ys)
    by (unfold mean; now rewrite Hlen).
  fold (sum_squares xs) (sum_squares ys).
  pose proof (sum_products_self_nonneg xs (mean xs)) as Hx0.
  pose proof (sum_products_self_nonneg ys (mean ys)) as Hy0.
  fold (sum_squares xs) in Hx0. fold (sum_squares ys) in Hy0.
  rewrite sqrt_finite by nra. unfold pearson. cbn [Num.eqb].
  destruct (Reqb (sum_squares xs) 0) eqn:Ex.
  - apply Reqb_iff in Ex. rewrite Ex, Rmult_0_l, sqrt_0, Reqb_refl. reflexivity.
  - destruct (Reqb (sum_squares ys) 0) eqn:Ey.
    + apply Reqb_iff in Ey. rewrite Ey, Rmult_0_r, sqrt_0, Reqb_refl. reflexivity.
    + assert (Hx : sum_squares xs <> 0) by (intros H; apply Reqb_true in H; congruence).
      assert (Hy : sum_squares ys <> 0) by (intros H; apply Reqb_true in H; congruence).
      assert (Hden : 0 < sqrt (sum_squares xs * sum_squares ys))
        by (apply sqrt_lt_R0; nra).
      rewrite Reqb_false by lra. cbn [orb]. apply div_finite. lra.
Qed.

Lemma pearson_self xs : sum_squares xs <> 0 -> pearson xs xs = 1.
Proof.
  intros Hx. unfold pearson. rewrite Reqb_false by assumption. cbn [orb].
  pose proof (sum_products_self_nonneg xs (mean xs)) as Hx0.
  fold (sum_squares xs) in Hx0 |- *.
  rewrite sqrt_square by assumption. now field.
Qed.



(* ================================================================= *)
(** ** The verification script of the repository

    Prices 100, 110, 121 on three consecutive days, all of 1000 in one
    asset, no rebalancing: the values are 1000, 1100, 1210, the total return
    is 0.21 and the CAGR is [(1210/1000)^(1/(2/365)) - 1]. *)

Lemma verification_script_history :
  calculatePortfolioHistory (rt := utc_runtime)
    [mkDay "2020-01-01" [("BTC"%string, 100)];
     mkDay "2020-01-02" [("BTC"%string, 110)];
     mkDay "2020-01-03" [("BTC"%string, 121)]]
    [("BTC"%string, 100)] 1000 none
  = [mkPoint "2020-01-01" 1000; mkPoint "2020-01-02" 1100;
     mkPoint "2020-01-03" 1210].
Proof.
  unfold calculatePortfolioHistory, history_steps. run_valuation.
  repeat (f_equal; try field).
Qed.

Lemma verification_script_metrics :
  let history :=
    [mkPoint "2020-01-01" 1000; mkPoint "2020-01-02" 1100;
     mkPoint "2020-01-03" 1210] in
  let metrics := calculateMetrics (rt := utc_runtime) history 1000 None in
  finalBalance metrics = Fin 1210
  /\ totalReturn metrics = Fin (21 / 100)
  /\ cagr metrics = Fin (Rpower (1210 / 1000) (1 / (2 / 365)) - 1)
  /\ maxDrawdown metrics = Fin 0.
Proof.
  intros history metrics. subst metrics history.
  assert (Hfirst : Date_new (Runtime := utc_runtime) "2020-01-01"
                   = Some (mkDate 2020 0 1577836800000)) by reflexivity.
  assert (Hlast : Date_new (Runtime := utc_runtime) "2020-01-03"
                  = Some (mkDate 2020 0 1578009600000)) by reflexivity.
  unfold calculateMetrics.
  cbn [finalBalance totalReturn cagr maxDrawdown last date value].
  rewrite Hfirst, Hlast. cbn [getTime time Math_pow utc_runtime].
  rewrite !sub_finite, !div_finite by lra.
  replace ((1578009600000 - 1577836800000) / (1000 * 3600 * 24 * 365))
    with (2 / 365) by (field; lra).
  split; [reflexivity |]. split; [f_equal; field |]. split.
  - unfold Num.gtb. cbn [Num.ltb]. rewrite Rltb_true by lra.
    unfold pow_ieee, pow_finite. decide_numbers. reflexivity.
  - rewrite !drawdown_loop_cons. cbn [value]. decide_numbers. reflexivity.
Qed.

(* ================================================================= *)
(** * Further properties of the engine and of its callers *)

(** ** validateAssetsForDateRange *)

Lemma Rleb_iff (a b : R) : Rleb a b = true <-> a <= b.
Proof. unfold Rleb. destruct (Rle_dec a b); split; intros; congruence. Qed.

Lemma usable_price_positive dayData ticker :
  usable_price (price_of dayData ticker) = true <-> positive_price dayData ticker.
Proof.
  unfold usable_price, positive_price.
  destruct (price_of dayData ticker) as [p |]; split.
  - intros H. exists p. split; [reflexivity | now apply usable_price_iff].
  - intros (q & Hq & Hpos). inversion Hq; subst. now apply usable_price_iff.
  - discriminate.
  - intros (q & Hq & _). discriminate.
Qed.

Lemma unusable_price_not_positive dayData ticker :
  unusable_price (price_of dayData ticker) = true <-> ~ positive_price dayData ticker.
Proof.
  unfold unusable_price, positive_price.
  destruct (price_of dayData ticker) as [p |]; split.
  - intros H (q & Hq & Hpos). inversion Hq; subst.
    apply orb_true_iff in H. destruct H as [H | H].
    + unfold truthy in H. rewrite negb_involutive in H. apply Reqb_iff in H. lra.
    + apply Rleb_iff in H. lra.
  - intros H. apply orb_true_iff. right. apply Rleb_iff.
    destruct (Rle_dec p 0) as [Hle | Hnle]; [assumption |].
    exfalso. apply H. exists p. split; [reflexivity | lra].
  - intros _ (q & Hq & _). discriminate.
  - reflexivity.
Qed.

Lemma unusable_price_false dayData ticker :
  unusable_price (price_of dayData ticker) = false <-> positive_price dayData ticker.
Proof.
  split.
  - intros H. destruct (usable_price (price_of dayData ticker)) eqn:E.
    + now apply usable_price_positive.
    + exfalso.
      assert (Hn : ~ positive_price dayData ticker).
      { intros Hp. apply usable_price_positive in Hp. congruence. }
      apply unusable_price_not_positive in Hn. congruence.
  - intros Hp. destruct (unusable_price (price_of dayData ticker)) eqn:E; [| reflexivity].
    apply unusable_price_not_positive in E. contradiction.
Qed.

Lemma all_usable_positive weights day :
  all_usable weights day = true <-> all_positive weights day.
Proof.
  unfold all_usable, all_positive. rewrite forallb_forall.
  split; intros H t Ht; apply usable_price_positive; auto.
Qed.

Lemma filter_split_length {A : Type} (f : A -> bool) (l : list A) :
  (List.length (filter (fun x => negb (f x)) l) + List.length (filter f l))%nat
  = List.length l.
Proof.
  induction l as [| x l IH]; [reflexivity |].
  cbn [filter]. destruct (f x); cbn [negb List.length]; lia.
Qed.

Lemma validation_valid_iff day0 rest weights :
  valid (validateAssetsForDateRange (day0 :: rest) weights) = true
  <-> all_positive weights day0.
Proof.
  cbn [validateAssetsForDateRange valid].
  rewrite Nat.eqb_eq, length_zero_iff_nil. unfold all_positive. split.
  - intros Hnil t Ht.
    destruct (unusable_price (price_of day0 t)) eqn:E.
    + assert (Hin : In t (filter (fun ticker => unusable_price (price_of day0 ticker))
                            (map fst weights)))
        by (apply filter_In; auto).
      rewrite Hnil in Hin. contradiction.
    + now apply unusable_price_false.
  - intros Hall.
    destruct (filter (fun ticker => unusable_price (price_of day0 ticker))
                (map fst weights)) as [| t l] eqn:E; [reflexivity |].
    assert (Hin : In t (t :: l)) by now left.
    rewrite <- E in Hin. apply filter_In in Hin. destruct Hin as [Ht Hbad].
    apply unusable_price_not_positive in Hbad. exfalso. apply Hbad. now apply Hall.
Qed.

(** X1. The validation splits the weighted tickers by their price on the
    first date: the valid assets are those of positive price, the invalid
    ones all others, every ticker is in exactly one list, and the result is
    valid exactly when every weighted ticker has a positive price on the
    first date.  Without data nothing is valid. *)
Theorem validation_partition day0 rest weights :
  let v := validateAssetsForDateRange (day0 :: rest) weights in
  (forall ticker, In ticker (validAssets v) <->
                  In ticker (map fst weights) /\ positive_price day0 ticker)
  /\ (forall ticker, In ticker (invalidAssets v) <->
                     In ticker (map fst weights) /\ ~ positive_price day0 ticker)
  /\ (List.length (validAssets v) + List.length (invalidAssets v))%nat
     = List.length weights
  /\ (valid v = true <-> all_positive weights day0)
  /\ validateAssetsForDateRange [] weights
     = mkValidation false (map fst weights) [] EmptyString.
Proof.
  cbn [validateAssetsForDateRange validAssets invalidAssets valid].
  split; [| split; [| split; [| split]]].
  - intros t. rewrite filter_In, negb_true_iff, unusable_price_false. reflexivity.
  - intros t. rewrite filter_In, unusable_price_not_positive. reflexivity.
  - rewrite filter_split_length. apply length_map.
  - exact (validation_valid_iff day0 rest weights).
  - reflexivity.
Qed.

Lemma find_first {A : Type} (f : A -> bool) (l : list A) :
  match find f l with
  | Some x =>
      exists before after,
        l = before ++ x :: after /\ f x = true
        /\ forall y, In y before -> f y = false
  | None => forall y, In y l -> f y = false
  end.
Proof.
  induction l as [| a l IH]; cbn [find]; [intros y [] |].
  destruct (f a) eqn:Ha.
  - exists [], l. repeat split; [assumption | intros y []].
  - destruct (find f l) as [x |].
    + destruct IH as (before & after & -> & Hx & Hbefore).
      exists (a :: before), after. repeat split; [assumption |].
      intros y [<- | Hy]; auto.
    + intros y [<- | Hy]; auto.
Qed.


Lemma all_positive_entries weights day :
  all_positive weights day ->
  forall ticker w, In (ticker, w) weights -> positive_price day ticker.
Proof.
  intros H ticker w Hin. apply H. change ticker with (fst (ticker, w)).
  now apply in_map.
Qed.

Section ValidatedPortfolio.

Context {rt : Runtime}.


End ValidatedPortfolio.


(** *** The weights kept by the portfolio builder *)

Lemma set_field_in {A : Type} (key : string) (v : A) obj :
  forall k x, In (k, x) (set_field key v obj) -> (k, x) = (key, v) \/ In (k, x) obj.
Proof.
  induction obj as [| [k0 x0] rest IH]; intros k x Hin; cbn [set_field] in Hin.
  - destruct Hin as [H | []]. now left.
  - destruct (String.eqb_spec k0 key) as [-> | Hne].
    + destruct Hin as [H | Hin]; [now left | right; now right].
    + destruct Hin as [H | Hin]; [right; now left |].
      destruct (IH k x Hin) as [H | H]; [now left | right; now right].
Qed.

Lemma kept_weights_invariant (P : string -> R -> Prop) weights tickers :
  (forall t w, In t tickers -> lookup t weights = Some w -> truthy w = true -> P t w) ->
  forall filtered,
    (forall t w, In (t, w) filtered -> P t w) ->
    forall t w,
      In (t, w)
        (fold_left
           (fun filteredWeights ticker =>
              match lookup ticker weights with
              | Some w => if truthy w then set_field ticker w filteredWeights
                          else filteredWeights
              | None => filteredWeights
              end) tickers filtered) ->
      P t w.
Proof.
  induction tickers as [| t0 rest IH]; intros HP filtered Hinv t w Hin.
  - now apply Hinv.
  - cbn [fold_left] in Hin. revert Hin. apply IH.
    + intros t' w' Ht'. apply HP. now right.
    + intros t' w' Hin'.
      destruct (lookup t0 weights) as [w0 |] eqn:Hl; [| now apply Hinv].
      destruct (truthy w0) eqn:Hw0; [| now apply Hinv].
      apply set_field_in in Hin'. destruct Hin' as [Heq | Hin']; [| now apply Hinv].
      inversion Heq; subst. apply HP; [now left | assumption ..].
Qed.



(* ================================================================= *)
(** ** Further properties of the valuation engine *)

Section ValuationInvariants.

Context {rt : Runtime}.

Lemma calculateUnits_cons weights dayData portfolioValue ticker w :
  calculateUnits ((ticker, w) :: weights) dayData portfolioValue
  = (ticker,
     if usable_price (price_of dayData ticker)
     then (portfolioValue * (w / 100)) / price_or_zero dayData ticker
     else 0)
    :: calculateUnits weights dayData portfolioValue.
Proof.
  unfold calculateUnits, usable_price, price_or_zero. cbn [map].
  destruct (price_of dayData ticker) as [p |]; [| reflexivity].
  now destruct (truthy p && Rltb 0 p).
Qed.

(** The value of freshly allocated holdings is the allocated share of the
    capital. *)
Lemma value_of_allocated_units weights dayData portfolioValue :
  calculateValue dayData (calculateUnits weights dayData portfolioValue)
  = portfolioValue * (allocated_weight dayData weights / 100).
Proof.
  induction weights as [| [ticker w] rest IH].
  - change (calculateUnits [] dayData portfolioValue) with (@nil (string * R)).
    rewrite calculateValue_nil. cbn [allocated_weight fold_right].
    unfold Rdiv. ring.
  - rewrite calculateUnits_cons, calculateValue_cons, IH.
    cbn [allocated_weight fold_right fst snd].
    fold (allocated_weight dayData rest).
    unfold usable_price, price_or_zero.
    destruct (price_of dayData ticker) as [p |] eqn:Hp; cbv iota beta.
    + destruct (truthy p && Rltb 0 p) eqn:Hu; cbv iota beta.
      * apply usable_price_iff in Hu. field. lra.
      * unfold Rdiv. ring.
    + unfold Rdiv. ring.
Qed.

Lemma allocated_weight_all_positive weights dayData :
  all_positive weights dayData ->
  allocated_weight dayData weights = total_weight weights.
Proof.
  induction weights as [| [ticker w] rest IH]; intros Hpos; [reflexivity |].
  cbn [allocated_weight total_weight fold_right fst snd].
  fold (allocated_weight dayData rest). fold (total_weight rest).
  rewrite IH by (intros t Ht; apply Hpos; now right).
  rewrite (proj2 (usable_price_positive dayData ticker)); [reflexivity |].
  apply Hpos. now left.
Qed.


(** *** Buy and hold *)

Lemma simulate_none weights days :
  forall i units lastRebalanceDate,
    map step_point (simulate weights none days i units lastRebalanceDate)
    = map (fun day => mkPoint (day_date day) (calculateValue day units)) days.
Proof.
  induction days as [| day rest IH]; intros i units lastRebalanceDate.
  - reflexivity.
  - cbn [simulate map shouldRebalance]. rewrite andb_false_r. now rewrite IH.
Qed.

(** Without rebalancing the holdings of the first date are kept: the
    value on every date is the value of the initial holdings at the prices
    of that date. *)
Theorem buy_and_hold_series day0 rest weights investment :
  calculatePortfolioHistory (day0 :: rest) weights investment none
  = map (fun day =>
           mkPoint (day_date day)
             (calculateValue day (calculateUnits weights day0 investment)))
        (day0 :: rest).
Proof.
  unfold calculatePortfolioHistory, history_steps. apply simulate_none.
Qed.

Lemma single_asset_initial_units day0 ticker investment p0 :
  price_of day0 ticker = Some p0 -> 0 < p0 ->
  calculateUnits [(ticker, 100)] day0 investment = [(ticker, investment / p0)].
Proof.
  intros Hp0 Hpos. unfold calculateUnits. cbn [map].
  rewrite Hp0, usable_price_true by assumption. do 2 f_equal. field. lra.
Qed.

Lemma single_asset_none_series day0 rest ticker investment p0 :
  price_of day0 ticker = Some p0 -> 0 < p0 ->
  calculatePortfolioHistory (day0 :: rest) [(ticker, 100)] investment none
  = map (fun day =>
           mkPoint (day_date day) (investment * price_or_zero day ticker / p0))
        (day0 :: rest).
Proof.
  intros Hp0 Hpos. unfold calculatePortfolioHistory, history_steps.
  rewrite simulate_none, (single_asset_initial_units _ _ _ _ Hp0 Hpos).
  apply map_ext. intros day. f_equal.
  rewrite calculateValue_cons, calculateValue_nil. unfold price_or_zero.
  destruct (price_of day ticker); field; lra.
Qed.


End ValuationInvariants.


(* ----------------------------------------------------------------- *)
(** *** The effect of a rebalance *)

Section RebalanceEffect.

Context {rt : Runtime}.

(** From one turn of the loop to the next. *)
Lemma simulate_next weights frequency days :
  forall i units lastRebalanceDate j prev step day,
    nth_error (simulate weights frequency days i units lastRebalanceDate) j
      = Some prev ->
    nth_error (simulate weights frequency days i units lastRebalanceDate) (S j)
      = Some step ->
    nth_error days (S j) = Some day ->
    step_units step
    = (if step_rebalanced step
       then calculateUnits weights day (calculateValue day (step_units prev))
       else step_units prev)
    /\ step_point step
       = mkPoint (day_date day) (calculateValue day (step_units step)).
Proof.
  induction days as [| d0 rest IH];
    intros i units lastRebalanceDate j prev step day Hprev Hstep Hday.
  - destruct j; discriminate.
  - cbn [simulate] in Hprev, Hstep. destruct j as [| j].
    + cbn [nth_error] in Hprev, Hstep, Hday. inversion Hprev; subst prev. clear Hprev.
      destruct rest as [| d1 rest]; [discriminate |].
      cbn [nth_error] in Hday. inversion Hday; subst d1. clear Hday.
      cbn [simulate nth_error] in Hstep. inversion Hstep; subst step. clear Hstep.
      cbn [step_units step_rebalanced step_point]. split; reflexivity.
    + cbn [nth_error] in Hprev, Hstep, Hday. eapply IH; eassumption.
Qed.

Lemma lookup_calculateUnits weights dayData portfolioValue ticker w :
  lookup ticker weights = Some w ->
  lookup ticker (calculateUnits weights dayData portfolioValue)
  = Some (if usable_price (price_of dayData ticker)
          then (portfolioValue * (w / 100)) / price_or_zero dayData ticker
          else 0).
Proof.
  induction weights as [| [k x] rest IH]; intros Hl; [discriminate |].
  rewrite calculateUnits_cons. cbn [lookup] in Hl |- *.
  destruct (String.eqb_spec k ticker) as [-> | Hne].
  - inversion Hl; subst. reflexivity.
  - now apply IH.
Qed.



End RebalanceEffect.



(* ----------------------------------------------------------------- *)
(** *** Signs *)

Section Signs.

Context {rt : Runtime}.

Lemma lookup_in {A : Type} key (obj : list (string * A)) v :
  lookup key obj = Some v -> In (key, v) obj.
Proof.
  induction obj as [| [k x] rest IH]; intros H; [discriminate |].
  cbn [lookup] in H. destruct (String.eqb_spec k key) as [-> | _].
  - inversion H; subst. now left.
  - right. now apply IH.
Qed.

Lemma calculateUnits_nonnegative weights dayData portfolioValue :
  0 <= portfolioValue -> nonnegative_entries weights ->
  nonnegative_entries (calculateUnits weights dayData portfolioValue).
Proof.
  intros HV Hw key x Hin. unfold calculateUnits in Hin.
  apply in_map_iff in Hin. destruct Hin as ([t w] & Heq & Hin).
  assert (Hw0 : 0 <= w) by (eapply Hw; eassumption).
  destruct (price_of dayData t) as [p |].
  - destruct (truthy p && Rltb 0 p) eqn:Hu; inversion Heq; subst; [| lra].
    apply usable_price_iff in Hu.
    apply Rmult_le_pos; [| left; now apply Rinv_0_lt_compat].
    apply Rmult_le_pos; [assumption |]. unfold Rdiv. apply Rmult_le_pos; lra.
  - inversion Heq; subst. lra.
Qed.

Lemma calculateValue_nonnegative dayData units :
  nonnegative_entries units -> nonnegative_entries (day_fields dayData) ->
  0 <= calculateValue dayData units.
Proof.
  intros Hu Hp. induction units as [| [t u] rest IH].
  - rewrite calculateValue_nil. lra.
  - rewrite calculateValue_cons.
    assert (0 <= calculateValue dayData rest)
      by (apply IH; intros k x Hk; eapply Hu; right; eassumption).
    assert (0 <= u) by (eapply Hu; left; reflexivity).
    destruct (price_of dayData t) as [p |] eqn:E; [| lra].
    assert (0 <= p) by (eapply Hp; apply lookup_in; exact E).
    assert (0 <= u * p) by now apply Rmult_le_pos.
    lra.
Qed.

Lemma simulate_nonnegative weights frequency days :
  nonnegative_entries weights ->
  (forall day, In day days -> nonnegative_entries (day_fields day)) ->
  forall i units lastRebalanceDate step,
    nonnegative_entries units ->
    In step (simulate weights frequency days i units lastRebalanceDate) ->
    nonnegative_entries (step_units step) /\ 0 <= value (step_point step).
Proof.
  intros Hw. induction days as [| day rest IH];
    intros Hdays i units lastRebalanceDate step Hu Hin; [contradiction |].
  cbn [simulate] in Hin.
  set (rebalance := ((0 <? i)%nat && shouldRebalance (day_date day) lastRebalanceDate frequency)%bool) in *.
  assert (Hday : nonnegative_entries (day_fields day)) by (apply Hdays; now left).
  assert (Hu' : nonnegative_entries
                  (if rebalance
                   then calculateUnits weights day (calculateValue day units)
                   else units)).
  { destruct rebalance; [| assumption].
    apply calculateUnits_nonnegative; [| assumption].
    now apply calculateValue_nonnegative. }
  destruct Hin as [<- | Hin].
  - cbn [step_units step_point value]. split; [assumption |].
    now apply calculateValue_nonnegative.
  - eapply IH; [| exact Hu' | exact Hin]. intros d Hd. apply Hdays. now right.
Qed.

(** X9. With a non-negative initial investment, non-negative weights and
    non-negative prices, the holdings are never negative and no value of the
    series is negative. *)
Theorem history_nonnegative historicalData weights investment frequency :
  0 <= investment ->
  nonnegative_entries weights ->
  (forall day, In day historicalData -> nonnegative_entries (day_fields day)) ->
  (forall step,
      In step (history_steps historicalData weights investment frequency) ->
      nonnegative_entries (step_units step))
  /\ Forall (fun p => 0 <= value p)
       (calculatePortfolioHistory historicalData weights investment frequency).
Proof.
  intros HI Hw Hdays.
  assert (H : forall step,
             In step (history_steps historicalData weights investment frequency) ->
             nonnegative_entries (step_units step) /\ 0 <= value (step_point step)).
  { unfold history_steps. destruct historicalData as [| day0 rest]; [intros s [] |].
    intros step Hin.
    eapply simulate_nonnegative; [exact Hw | exact Hdays | | exact Hin].
    now apply calculateUnits_nonnegative. }
  split; [intros step Hin; now apply H |].
  unfold calculatePortfolioHistory. apply Forall_forall. intros p Hp.
  apply in_map_iff in Hp. destruct Hp as (step & <- & Hin). now apply H.
Qed.

End Signs.

(** A run of X9. *)
Lemma history_nonnegative_witness :
  let data := [mkDay "2024-03-15" [("BTC"%string, 100); ("SOL"%string, 0)];
               mkDay "2024-04-15" [("BTC"%string, 120); ("SOL"%string, 8)]] in
  let weights := [("BTC"%string, 50); ("SOL"%string, 50)] in
  0 <= 1000
  /\ nonnegative_entries weights
  /\ (forall day, In day data -> nonnegative_entries (day_fields day))
  /\ Forall (fun p => 0 <= value p)
       (calculatePortfolioHistory (rt := utc_runtime) data weights 1000 quarterly).
Proof.
  intros data weights.
  assert (HI : 0 <= 1000) by lra.
  assert (Hw : nonnegative_entries weights).
  { intros k x [H | [H | []]]; inversion H; subst; lra. }
  assert (Hd : forall day, In day data -> nonnegative_entries (day_fields day)).
  { intros day [<- | [<- | []]] k x [H | [H | []]]; inversion H; subst; lra. }
  split; [exact HI |]. split; [exact Hw |]. split; [exact Hd |].
  exact (proj2 (history_nonnegative (rt := utc_runtime) data weights 1000 quarterly
                  HI Hw Hd)).
Defined.

(* ----------------------------------------------------------------- *)
(** *** The rebalance trigger as an order on dates *)

Section TriggerOrder.

Context {rt : Runtime}.

Lemma lex_gt_irrefl a : ~ lex_gt a a.
Proof. unfold lex_gt. lia. Qed.

Lemma lex_gt_trans a b c : lex_gt a b -> lex_gt b c -> lex_gt a c.
Proof. unfold lex_gt. lia. Qed.

(** The trigger in terms of the dates the runtime answers. *)
Lemma shouldRebalance_quarterly currentDate lastRebalanceDate :
  shouldRebalance currentDate lastRebalanceDate quarterly = true <->
  exists current lastRebalance,
    Date_new currentDate = Some current
    /\ Date_new lastRebalanceDate = Some lastRebalance
    /\ lex_gt (year_quarter current) (year_quarter lastRebalance).
Proof.
  unfold shouldRebalance, lex_gt, year_quarter.
  destruct (Date_new currentDate) as [c |], (Date_new lastRebalanceDate) as [l |];
    simpl; split;
    try discriminate;
    try (intros (c' & l' & Hc & Hl & _); discriminate).
  - intros H. exists c, l. repeat split.
    apply orb_true_iff in H. destruct H as [H | H].
    + left. now apply Z.ltb_lt.
    + right. apply andb_true_iff in H. destruct H as [He Hq].
      apply Z.eqb_eq in He. apply Z.ltb_lt in Hq. auto.
  - intros (c' & l' & Hc & Hl & H). inversion Hc; inversion Hl; subst c' l'.
    apply orb_true_iff. destruct H as [H | [He Hq]].
    + left. now apply Z.ltb_lt.
    + right. apply andb_true_iff. split; [now apply Z.eqb_eq | now apply Z.ltb_lt].
Qed.

Lemma shouldRebalance_annually currentDate lastRebalanceDate :
  shouldRebalance currentDate lastRebalanceDate annually = true <->
  exists current lastRebalance,
    Date_new currentDate = Some current
    /\ Date_new lastRebalanceDate = Some lastRebalance
    /\ (fullYear lastRebalance < fullYear current)%Z.
Proof.
  unfold shouldRebalance.
  destruct (Date_new currentDate) as [c |], (Date_new lastRebalanceDate) as [l |];
    simpl; split;
    try discriminate;
    try (intros (c' & l' & Hc & Hl & _); discriminate).
  - intros H. exists c, l. repeat split. now apply Z.ltb_lt.
  - intros (c' & l' & Hc & Hl & H). inversion Hc; inversion Hl; subst c' l'.
    now apply Z.ltb_lt.
Qed.

Lemma shouldRebalance_trans a b c frequency :
  shouldRebalance a b frequency = true ->
  shouldRebalance b c frequency = true ->
  shouldRebalance a c frequency = true.
Proof.
  destruct frequency; [discriminate | |].
  - rewrite !shouldRebalance_quarterly.
    intros (da & db & Ha & Hb & Hab) (db' & dc & Hb' & Hc & Hbc).
    rewrite Hb in Hb'. inversion Hb'; subst db'.
    exists da, dc. repeat split; try assumption. eapply lex_gt_trans; eassumption.
  - rewrite !shouldRebalance_annually.
    intros (da & db & Ha & Hb & Hab) (db' & dc & Hb' & Hc & Hbc).
    rewrite Hb in Hb'. inversion Hb'; subst db'.
    exists da, dc. repeat split; try assumption. lia.
Qed.

Lemma shouldRebalance_asym a b frequency :
  shouldRebalance a b frequency = true -> shouldRebalance b a frequency = false.
Proof.
  intros H. destruct (shouldRebalance b a frequency) eqn:E; [| reflexivity].
  exfalso. destruct frequency; [discriminate | |].
  - apply shouldRebalance_quarterly in H, E.
    destruct H as (da & db & Ha & Hb & Hab), E as (db' & da' & Hb' & Ha' & Hba).
    rewrite Ha in Ha'. rewrite Hb in Hb'. inversion Ha'; inversion Hb'; subst.
    unfold lex_gt in *. lia.
  - apply shouldRebalance_annually in H, E.
    destruct H as (da & db & Ha & Hb & Hab), E as (db' & da' & Hb' & Ha' & Hba).
    rewrite Ha in Ha'. rewrite Hb in Hb'. inversion Ha'; inversion Hb'; subst. lia.
Qed.

(** X10. The rebalance trigger is a strict order on dates: no date triggers
    against itself, two dates never trigger against each other, and the
    trigger is transitive.  A date that triggers under [annually] also
    triggers under [quarterly]. *)
Theorem trigger_strict_order frequency a b c :
  shouldRebalance a a frequency = false
  /\ (shouldRebalance a b frequency = true -> shouldRebalance b a frequency = false)
  /\ (shouldRebalance a b frequency = true -> shouldRebalance b c frequency = true ->
      shouldRebalance a c frequency = true)
  /\ (shouldRebalance a b annually = true -> shouldRebalance a b quarterly = true).
Proof.
  split; [| split; [| split]].
  - destruct (shouldRebalance a a frequency) eqn:E; [| reflexivity].
    pose proof (shouldRebalance_asym a a frequency E). congruence.
  - apply shouldRebalance_asym.
  - apply shouldRebalance_trans.
  - rewrite shouldRebalance_annually, shouldRebalance_quarterly.
    intros (da & db & Ha & Hb & Hab). exists da, db. repeat split; try assumption.
    left. exact Hab.
Qed.

(** A rebalanced turn triggers against the last rebalance date it started
    from. *)
Lemma simulate_rebalance_after_last weights frequency days :
  forall i units lastRebalanceDate step,
    In step (simulate weights frequency days i units lastRebalanceDate) ->
    step_rebalanced step = true ->
    shouldRebalance (date (step_point step)) lastRebalanceDate frequency = true.
Proof.
  induction days as [| day rest IH]; intros i units lastRebalanceDate step Hin Hreb;
    [contradiction |].
  cbn [simulate] in Hin.
  set (rebalance := ((0 <? i)%nat && shouldRebalance (day_date day) lastRebalanceDate frequency)%bool) in *.
  destruct Hin as [<- | Hin].
  - cbn [step_rebalanced step_point date] in *. subst rebalance.
    apply andb_true_iff in Hreb. tauto.
  - specialize (IH _ _ _ _ Hin Hreb).
    destruct rebalance eqn:E; [| assumption].
    subst rebalance. apply andb_true_iff in E.
    eapply shouldRebalance_trans; [exact IH | tauto].
Qed.

Lemma simulate_rebalances_ordered weights frequency days :
  forall i units lastRebalanceDate earlier s1 later s2,
    simulate weights frequency days i units lastRebalanceDate
      = earlier ++ s1 :: later ->
    step_rebalanced s1 = true ->
    In s2 later -> step_rebalanced s2 = true ->
    shouldRebalance (date (step_point s2)) (date (step_point s1)) frequency = true.
Proof.
  induction days as [| day rest IH];
    intros i units lastRebalanceDate earlier s1 later s2 Heq H1 Hin H2.
  - destruct earlier; discriminate.
  - cbn [simulate] in Heq. destruct earlier as [| s0 earlier].
    + cbn [app] in Heq. injection Heq as Hs1 Hlater. subst s1 later.
      cbn [step_rebalanced step_point date] in *. rewrite H1 in Hin.
      eapply simulate_rebalance_after_last; eassumption.
    + cbn [app] in Heq. injection Heq as Hs0 Hrest.
      eapply IH; eassumption.
Qed.

(** X11. Rebalances happen on strictly later periods: the date of every
    rebalance triggers against the date of every earlier rebalance, so no
    two rebalances fall in the same quarter (under [quarterly]) or in the
    same year (under [annually]). *)
Theorem rebalances_strictly_ordered historicalData weights investment frequency
    earlier s1 later s2 :
  history_steps historicalData weights investment frequency
    = earlier ++ s1 :: later ->
  step_rebalanced s1 = true ->
  In s2 later -> step_rebalanced s2 = true ->
  shouldRebalance (date (step_point s2)) (date (step_point s1)) frequency = true
  /\ shouldRebalance (date (step_point s1)) (date (step_point s2)) frequency = false.
Proof.
  intros Heq H1 Hin H2.
  assert (H : shouldRebalance (date (step_point s2)) (date (step_point s1)) frequency
              = true).
  { unfold history_steps in Heq. destruct historicalData as [| day0 rest].
    - destruct earlier; discriminate.
    - eapply simulate_rebalances_ordered; eassumption. }
  split; [exact H | now apply shouldRebalance_asym].
Qed.

End TriggerOrder.

(** A run of X10 on three quarters of a year. *)
Lemma trigger_strict_order_witness :
  shouldRebalance (rt := utc_runtime) "2024-07-15" "2024-04-15" quarterly = true
  /\ shouldRebalance (rt := utc_runtime) "2024-04-15" "2024-01-15" quarterly = true
  /\ shouldRebalance (rt := utc_runtime) "2024-04-15" "2024-07-15" quarterly = false
  /\ shouldRebalance (rt := utc_runtime) "2024-07-15" "2024-01-15" quarterly = true.
Proof.
  assert (H1 : shouldRebalance (rt := utc_runtime) "2024-07-15" "2024-04-15" quarterly
               = true) by reflexivity.
  assert (H2 : shouldRebalance (rt := utc_runtime) "2024-04-15" "2024-01-15" quarterly
               = true) by reflexivity.
  destruct (trigger_strict_order (rt := utc_runtime) quarterly
              "2024-07-15" "2024-04-15" "2024-01-15") as (_ & Hasym & Htrans & _).
  split; [exact H1 |]. split; [exact H2 |].
  split; [exact (Hasym H1) | exact (Htrans H1 H2)].
Defined.

(** A run of X11: rebalances in April and in July. *)
Lemma rebalances_strictly_ordered_witness :
  let data := [mkDay "2024-01-15" [("BTC"%string, 100)];
               mkDay "2024-04-15" [("BTC"%string, 110)];
               mkDay "2024-07-15" [("BTC"%string, 120)]] in
  exists earlier s1 later s2,
    history_steps (rt := utc_runtime) data [("BTC"%string, 100)] 1000 quarterly
      = earlier ++ s1 :: later
    /\ step_rebalanced s1 = true
    /\ In s2 later
    /\ step_rebalanced s2 = true
    /\ date (step_point s1) = "2024-04-15"%string
    /\ date (step_point s2) = "2024-07-15"%string
    /\ shouldRebalance (rt := utc_runtime) "2024-07-15" "2024-04-15" quarterly = true.
Proof.
  intros data.
  refine (ex_intro _ [_] (ex_intro _ _ (ex_intro _ [_] (ex_intro _ _ _)))).
  assert (Heq : history_steps (rt := utc_runtime) data [("BTC"%string, 100)] 1000 quarterly
                = [nth 0 (history_steps (rt := utc_runtime) data
                            [("BTC"%string, 100)] 1000 quarterly)
                     (mkStep [] false (mkPoint EmptyString 0))]
                  ++ nth 1 (history_steps (rt := utc_runtime) data
                              [("BTC"%string, 100)] 1000 quarterly)
                       (mkStep [] false (mkPoint EmptyString 0))
                  :: [nth 2 (history_steps (rt := utc_runtime) data
                               [("BTC"%string, 100)] 1000 quarterly)
                        (mkStep [] false (mkPoint EmptyString 0))])
    by reflexivity.
  split; [exact Heq |].
  assert (H1 : step_rebalanced
                 (nth 1 (history_steps (rt := utc_runtime) data
                           [("BTC"%string, 100)] 1000 quarterly)
                    (mkStep [] false (mkPoint EmptyString 0))) = true)
    by reflexivity.
  assert (H2 : step_rebalanced
                 (nth 2 (history_steps (rt := utc_runtime) data
                           [("BTC"%string, 100)] 1000 quarterly)
                    (mkStep [] false (mkPoint EmptyString 0))) = true)
    by reflexivity.
  split; [exact H1 |]. split; [left; reflexivity |]. split; [exact H2 |].
  split; [reflexivity |]. split; [reflexivity |].
  exact (proj1 (rebalances_strictly_ordered (rt := utc_runtime)
                  data [("BTC"%string, 100)] 1000 quarterly _ _ _ _
                  Heq H1 (or_introl eq_refl) H2)).
Defined.

(* ================================================================= *)
(** ** Further properties of the metrics engine *)

(** *** The metrics do not depend on the scale of the investment *)

Lemma Reqb_false_iff (a b : R) : Reqb a b = false <-> a <> b.
Proof.
  split.
  - intros H E. apply Reqb_true in E. congruence.
  - apply Reqb_false.
Qed.

Lemma Rltb_false_iff (a b : R) : Rltb a b = false <-> ~ a < b.
Proof.
  split.
  - intros H E. apply Rltb_true in E. congruence.
  - apply Rltb_false.
Qed.

Lemma Rltb_scale (c a b : R) : 0 < c -> Rltb (c * a) (c * b) = Rltb a b.
Proof.
  intros Hc. destruct (Rlt_dec a b) as [H | H].
  - rewrite (Rltb_true a b H). apply Rltb_true. now apply Rmult_lt_compat_l.
  - rewrite (Rltb_false a b H). apply Rltb_false. intros H'.
    apply H. eapply Rmult_lt_reg_l; eassumption.
Qed.

Lemma Reqb_scale_zero (c a : R) : 0 < c -> Reqb (c * a) 0 = Reqb a 0.
Proof.
  intros Hc. destruct (Req_dec_T a 0) as [-> | H].
  - now rewrite Rmult_0_r.
  - rewrite (Reqb_false a 0 H). apply Reqb_false. intros H'.
    apply Rmult_integral in H'. destruct H'; [lra | contradiction].
Qed.

Lemma truthy_scale (c a : R) : 0 < c -> truthy (c * a) = truthy a.
Proof. intros Hc. unfold truthy. now rewrite Reqb_scale_zero. Qed.

Lemma div_scale (c a b : R) :
  0 < c -> Num.div (Fin (c * a)) (Fin (c * b)) = Num.div (Fin a) (Fin b).
Proof.
  intros Hc. cbn [Num.div]. rewrite !Reqb_scale_zero by assumption.
  destruct (Reqb b 0) eqn:Hb.
  - destruct (Reqb a 0); [reflexivity |]. unfold Num.inf_of_sign.
    replace 0 with (c * 0) at 1 by ring. now rewrite Rltb_scale.
  - f_equal. apply Reqb_false_iff in Hb. field. split; [assumption | lra].
Qed.

Lemma return_scale (c a b : R) :
  0 < c ->
  Num.sub (Num.div (Fin (c * a)) (Fin (c * b))) (Fin 1)
  = Num.sub (Num.div (Fin a) (Fin b)) (Fin 1).
Proof. intros Hc. now rewrite div_scale. Qed.

Lemma last_scale c others first :
  last (map (scale_point c) others) (scale_point c first)
  = scale_point c (last others first).
Proof.
  induction others as [| p rest IH]; [reflexivity |].
  cbn [map]. destruct rest as [| q rest]; [reflexivity |]. exact IH.
Qed.

Lemma dailyReturns_scale c rest :
  0 < c ->
  forall previous,
    dailyReturns_from (scale_point c previous) (map (scale_point c) rest)
    = dailyReturns_from previous rest.
Proof.
  intros Hc. induction rest as [| p rest IH]; intros previous; [reflexivity |].
  cbn [map dailyReturns_from scale_point value]. now rewrite return_scale, IH.
Qed.

Lemma drawdown_scale c rest :
  0 < c ->
  forall worst peak,
    drawdown_loop (map (scale_point c) rest) worst (c * peak)
    = drawdown_loop rest worst peak.
Proof.
  intros Hc. induction rest as [| p rest IH]; intros worst peak; [reflexivity |].
  cbn [map]. rewrite !drawdown_loop_cons. cbn [scale_point value].
  rewrite Rltb_scale by assumption.
  destruct (Rltb peak (value p)); [apply IH |].
  rewrite !sub_finite.
  replace (c * peak - c * value p) with (c * (peak - value p)) by ring.
  rewrite div_scale by assumption. apply IH.
Qed.

Lemma fold_left_pointwise {A B : Type} (f g : A -> B -> A) (l : list B) :
  (forall a b, f a b = g a b) ->
  forall a, fold_left f l a = fold_left g l a.
Proof.
  intros H. induction l as [| b l IH]; intros a; [reflexivity |].
  cbn [fold_left]. now rewrite H, IH.
Qed.

Lemma weekly_returns_scale c portfolioValues sp500ByDate sp500Dates :
  0 < c ->
  weekly_returns (map (scale_point c) portfolioValues) sp500ByDate sp500Dates
  = weekly_returns portfolioValues sp500ByDate sp500Dates.
Proof.
  intros Hc. unfold weekly_returns. rewrite length_map.
  apply fold_left_pointwise. intros acc i. rewrite !nth_error_map.
  destruct (nth_error portfolioValues i) as [curr |]; [| reflexivity].
  destruct (nth_error portfolioValues (i - stepSize)) as [prev |]; [| reflexivity].
  cbn [option_map scale_point date value]. now rewrite return_scale.
Qed.

(** Two states of the fallback alignment that differ by the scale of the
    portfolio value. *)
Lemma align_step_scale c sp500ByDate sp500Dates st point :
  0 < c ->
  align_step sp500ByDate sp500Dates
    (mkAlignment (alignedReturns st) (lastValidSp500Date st)
       (lastValidSp500Value st) (option_map (Rmult c) (lastPortfolioValue st)))
    (scale_point c point)
  = let st' := align_step sp500ByDate sp500Dates st point in
    mkAlignment (alignedReturns st') (lastValidSp500Date st')
      (lastValidSp500Value st') (option_map (Rmult c) (lastPortfolioValue st')).
Proof.
  intros Hc. unfold align_step. cbn [scale_point date value].
  destruct (findNearestSp500Date sp500ByDate sp500Dates (date point)) as [d |];
    [| reflexivity].
  destruct (lookup d sp500ByDate) as [v |]; [| reflexivity].
  destruct (str_truthy d && truthy v)%bool; [| reflexivity].
  cbn [alignedReturns lastValidSp500Date lastValidSp500Value lastPortfolioValue
       option_map].
  f_equal.
  destruct (lastValidSp500Date st) as [ld |]; [| reflexivity].
  destruct (lastValidSp500Value st) as [lv |]; [| reflexivity].
  destruct (lastPortfolioValue st) as [lp |]; [| reflexivity].
  cbn [option_map]. rewrite truthy_scale, return_scale by assumption. reflexivity.
Qed.

Lemma aligned_returns_scale c portfolioValues sp500ByDate sp500Dates :
  0 < c ->
  aligned_returns (map (scale_point c) portfolioValues) sp500ByDate sp500Dates
  = aligned_returns portfolioValues sp500ByDate sp500Dates.
Proof.
  intros Hc. unfold aligned_returns.
  assert (H : forall st,
             fold_left (align_step sp500ByDate sp500Dates)
               (map (scale_point c) portfolioValues)
               (mkAlignment (alignedReturns st) (lastValidSp500Date st)
                  (lastValidSp500Value st)
                  (option_map (Rmult c) (lastPortfolioValue st)))
             = let st' := fold_left (align_step sp500ByDate sp500Dates)
                            portfolioValues st in
               mkAlignment (alignedReturns st') (lastValidSp500Date st')
                 (lastValidSp500Value st')
                 (option_map (Rmult c) (lastPortfolioValue st'))).
  { induction portfolioValues as [| p rest IH]; intros st; [reflexivity |].
    cbn [map fold_left]. rewrite align_step_scale by assumption. apply IH. }
  specialize (H (mkAlignment [] None None None)).
  cbn [alignedReturns lastValidSp500Date lastValidSp500Value lastPortfolioValue
       option_map] in H.
  now rewrite H.
Qed.

Lemma benchmark_correlation_scale c portfolioValues sp500Data :
  0 < c ->
  benchmark_correlation (map (scale_point c) portfolioValues) sp500Data
  = benchmark_correlation portfolioValues sp500Data.
Proof.
  intros Hc. unfold benchmark_correlation.
  destruct sp500Data as [sp500 |]; [| reflexivity].
  now rewrite length_map, weekly_returns_scale, aligned_returns_scale.
Qed.

Section ScaleInvariance.

Context {rt : Runtime}.

Lemma metrics_scale c portfolioValues investment sp500Data :
  0 < c ->
  let m := calculateMetrics portfolioValues investment sp500Data in
  let m' := calculateMetrics (map (scale_point c) portfolioValues)
              (c * investment) sp500Data in
  finalBalance m' = Num.mul (Fin c) (finalBalance m)
  /\ totalReturn m' = totalReturn m
  /\ cagr m' = cagr m
  /\ volatility m' = volatility m
  /\ sharpeRatio m' = sharpeRatio m
  /\ bestDay m' = bestDay m
  /\ worstDay m' = worstDay m
  /\ maxDrawdown m' = maxDrawdown m
  /\ sp500Correlation m' = sp500Correlation m.
Proof.
  intros Hc.
  destruct portfolioValues as [| first [| second others]];
    [cbn; repeat split | cbn; repeat split |].
  set (series := first :: second :: others).
  assert (Hbench : benchmark_correlation (map (scale_point c) series) sp500Data
                   = benchmark_correlation series sp500Data)
    by now apply benchmark_correlation_scale.
  unfold series in *. clear series.
  cbn [map] in *. unfold calculateMetrics. cbv zeta.
  cbn [finalBalance totalReturn cagr volatility sharpeRatio bestDay worstDay
       maxDrawdown sp500Correlation].
  change (scale_point c second :: map (scale_point c) others)
    with (map (scale_point c) (second :: others)) in *.
  rewrite last_scale, dailyReturns_scale by assumption.
  cbn [scale_point date value].
  rewrite drawdown_scale by assumption.
  rewrite !sub_finite.
  replace (c * value (last (second :: others) first) - c * investment)
    with (c * (value (last (second :: others) first) - investment)) by ring.
  rewrite !div_scale by assumption.
  repeat split. exact Hbench.
Qed.


End ScaleInvariance.


(* ----------------------------------------------------------------- *)
(** *** The maximum drawdown is the largest fall from an earlier value *)

Lemma occurs_before_cons_inv a b v l :
  occurs_before a b (v :: l) -> (a = v /\ In b l) \/ occurs_before a b l.
Proof.
  intros (l1 & l2 & l3 & H). destruct l1 as [| x l1]; cbn [app] in H.
  - injection H as Hv Hl. left. split; [congruence |].
    rewrite Hl. apply in_or_app. right. now left.
  - injection H as Hv Hl. right. now exists l1, l2, l3.
Qed.

Lemma occurs_before_head v b l : In b l -> occurs_before v b (v :: l).
Proof.
  intros H. apply in_split in H. destruct H as (l2 & l3 & ->).
  now exists [], l2, l3.
Qed.

Lemma occurs_before_tail a b v l : occurs_before a b l -> occurs_before a b (v :: l).
Proof. intros (l1 & l2 & l3 & ->). now exists (v :: l1), l2, l3. Qed.

Lemma occurs_before_insert a b p v l :
  occurs_before a b (p :: l) -> occurs_before a b (p :: v :: l).
Proof.
  intros H. apply occurs_before_cons_inv in H. destruct H as [[-> Hb] | H].
  - apply occurs_before_head. now right.
  - now do 2 apply occurs_before_tail.
Qed.

(** A fall to [v] is largest from the highest earlier value. *)
Lemma fall_from_peak (x peak v : R) :
  0 < x -> x <= peak -> 0 < v -> (x - v) / x <= (peak - v) / peak.
Proof.
  intros Hx Hle Hv.
  assert (Hinv : / peak <= / x) by (apply Rinv_le_contravar; assumption).
  assert (Hprod : v * / peak <= v * / x) by (apply Rmult_le_compat_l; lra).
  replace ((x - v) / x) with (1 - v * / x) by (field; lra).
  replace ((peak - v) / peak) with (1 - v * / peak) by (field; lra).
  lra.
Qed.

Lemma drawdown_loop_largest_fall rest :
  forall worst peak,
    0 < peak -> 0 <= worst < 1 ->
    (forall p, In p rest -> 0 < value p) ->
    exists r,
      drawdown_loop rest (Fin worst) peak = Fin r
      /\ worst <= r < 1
      /\ (forall x v, 0 < x -> x <= peak -> In v (map value rest) ->
                      (x - v) / x <= r)
      /\ (forall a b, occurs_before a b (map value rest) -> (a - b) / a <= r)
      /\ (r = worst
          \/ exists a b, occurs_before a b (peak :: map value rest)
                         /\ r = (a - b) / a).
Proof.
  induction rest as [| p rest IH]; intros worst peak Hpeak Hworst Hpos.
  - exists worst. split; [reflexivity |]. split; [lra |].
    split; [intros x v _ _ [] |]. split; [| now left].
    intros a b (l1 & l2 & l3 & H). destruct l1; discriminate.
  - assert (Hp : 0 < value p) by (apply Hpos; now left).
    assert (Hrest : forall q, In q rest -> 0 < value q)
      by (intros q Hq; apply Hpos; now right).
    rewrite drawdown_loop_cons. cbn [map].
    destruct (Rltb peak (value p)) eqn:Hcmp.
    + apply Rltb_iff in Hcmp.
      destruct (IH worst (value p) Hp Hworst Hrest)
        as (r & Hr & Hbound & Hfrom & Hpairs & Hattain).
      exists r. split; [exact Hr |]. split; [exact Hbound |]. split; [| split].
      * intros x v Hx Hle [<- | Hv].
        -- assert ((x - value p) / x <= 0); [| lra].
           unfold Rdiv. rewrite <- (Rmult_0_l (/ x)).
           apply Rmult_le_compat_r; [left; now apply Rinv_0_lt_compat | lra].
        -- apply Hfrom; [assumption | lra | assumption].
      * intros a b H. apply occurs_before_cons_inv in H.
        destruct H as [[-> Hb] | H]; [apply Hfrom; [assumption | lra | assumption] |].
        now apply Hpairs.
      * destruct Hattain as [-> | (a & b & H & ->)]; [now left |].
        right. exists a, b. split; [now apply occurs_before_tail | reflexivity].
    + apply Rltb_false_iff in Hcmp.
      rewrite sub_finite, div_finite, max_finite by lra.
      set (d := (peak - value p) / peak).
      assert (Hd : 0 <= d < 1).
      { unfold d. split.
        - unfold Rdiv. apply Rmult_le_pos; [lra | left; now apply Rinv_0_lt_compat].
        - replace ((peak - value p) / peak) with (1 - value p * / peak)
            by (field; lra).
          assert (0 < value p * / peak)
            by (apply Rmult_lt_0_compat; [| apply Rinv_0_lt_compat]; assumption).
          lra. }
      set (worst' := if Rltb worst d then d else worst).
      assert (Hw' : worst <= worst' /\ d <= worst' /\ worst' < 1
                    /\ (worst' = worst \/ worst' = d)).
      { unfold worst'. destruct (Rltb worst d) eqn:E.
        - apply Rltb_iff in E. repeat split; try lra; try (now right).
        - apply Rltb_false_iff in E. repeat split; try lra; try (now left). }
      destruct Hw' as (Hw1 & Hw2 & Hw3 & Hw4).
      destruct (IH worst' peak Hpeak (conj (Rle_trans _ _ _ (proj1 Hworst) Hw1) Hw3) Hrest)
        as (r & Hr & Hbound & Hfrom & Hpairs & Hattain).
      exists r. split; [exact Hr |]. split; [lra |]. split; [| split].
      * intros x v Hx Hle [<- | Hv]; [| now apply Hfrom].
        pose proof (fall_from_peak x peak (value p) Hx Hle Hp). fold d in H. lra.
      * intros a b H. apply occurs_before_cons_inv in H.
        destruct H as [[-> Hb] | H]; [apply Hfrom; [assumption | lra | assumption] |].
        now apply Hpairs.
      * destruct Hattain as [-> | (a & b & H & ->)].
        -- destruct Hw4 as [-> | ->]; [now left |].
           right. exists peak, (value p). split; [| reflexivity].
           apply occurs_before_head. now left.
        -- right. exists a, b. split; [now apply occurs_before_insert | reflexivity].
Qed.

Section LargestFall.

Context {rt : Runtime}.


End LargestFall.


(* ----------------------------------------------------------------- *)
(** *** The best and the worst day *)

Lemma dailyReturns_finite rest :
  forall previous,
    value previous <> 0 ->
    (forall p, In p rest -> value p <> 0) ->
    dailyReturns_from previous rest
    = map Fin (simple_returns (value previous) (map value rest)).
Proof.
  induction rest as [| p rest IH]; intros previous Hprev Hrest; [reflexivity |].
  cbn [dailyReturns_from map simple_returns].
  rewrite div_finite, sub_finite by assumption. f_equal.
  apply IH; [apply Hrest; now left | intros q Hq; apply Hrest; now right].
Qed.

Lemma max_fold_finite rs :
  forall a,
    exists b,
      fold_left Num.max (map Fin rs) (Fin a) = Fin b
      /\ (b = a \/ In b rs) /\ a <= b /\ forall r, In r rs -> r <= b.
Proof.
  induction rs as [| x rs IH]; intros a.
  - exists a. repeat split; [now left | lra | intros r []].
  - cbn [map fold_left]. rewrite max_finite.
    destruct (IH (if Rltb a x then x else a)) as (b & Hb & Hin & Hle & Hall).
    exists b. split; [exact Hb |].
    destruct (Rltb a x) eqn:E.
    + apply Rltb_iff in E. repeat split.
      * right. destruct Hin as [-> | Hin]; [now left | now right].
      * lra.
      * intros r [<- | Hr]; [assumption | now apply Hall].
    + apply Rltb_false_iff in E. repeat split.
      * destruct Hin as [-> | Hin]; [now left | right; now right].
      * assumption.
      * intros r [<- | Hr]; [lra | now apply Hall].
Qed.

Lemma min_finite (x y : R) :
  Num.min (Fin x) (Fin y) = Fin (if Rltb y x then y else x).
Proof. simpl. now destruct (Rltb y x). Qed.

Lemma min_fold_finite rs :
  forall a,
    exists b,
      fold_left Num.min (map Fin rs) (Fin a) = Fin b
      /\ (b = a \/ In b rs) /\ b <= a /\ forall r, In r rs -> b <= r.
Proof.
  induction rs as [| x rs IH]; intros a.
  - exists a. repeat split; [now left | lra | intros r []].
  - cbn [map fold_left]. rewrite min_finite.
    destruct (IH (if Rltb x a then x else a)) as (b & Hb & Hin & Hle & Hall).
    exists b. split; [exact Hb |].
    destruct (Rltb x a) eqn:E.
    + apply Rltb_iff in E. repeat split.
      * right. destruct Hin as [-> | Hin]; [now left | now right].
      * lra.
      * intros r [<- | Hr]; [assumption | now apply Hall].
    + apply Rltb_false_iff in E. repeat split.
      * destruct Hin as [-> | Hin]; [now left | right; now right].
      * assumption.
      * intros r [<- | Hr]; [lra | now apply Hall].
Qed.

Section BestWorstDay.

Context {rt : Runtime}.

(** X14. On a series of at least 2 non-zero values the best day and the
    worst day are daily returns of the series, and every daily return lies
    between them. *)
Theorem best_and_worst_day first second others investment sp500Data :
  (forall p, In p (first :: second :: others) -> value p <> 0) ->
  let returns := simple_returns (value first) (map value (second :: others)) in
  let m := calculateMetrics (first :: second :: others) investment sp500Data in
  exists best worst,
    bestDay m = Fin best /\ worstDay m = Fin worst
    /\ In best returns /\ In worst returns
    /\ forall r, In r returns -> worst <= r <= best.
Proof.
  intros Hnz returns m.
  assert (Hreturns : dailyReturns_from first (second :: others) = map Fin returns).
  { apply dailyReturns_finite; [apply Hnz; now left |].
    intros p Hp. apply Hnz. now right. }
  assert (Hbest : bestDay m = Num.max_list (map Fin returns))
    by (subst m; unfold calculateMetrics; cbv zeta; cbn [bestDay]; now rewrite Hreturns).
  assert (Hworst : worstDay m = Num.min_list (map Fin returns))
    by (subst m; unfold calculateMetrics; cbv zeta; cbn [worstDay]; now rewrite Hreturns).
  subst returns. cbn [map simple_returns] in *.
  set (r0 := value second / value first - 1) in *.
  set (rs := simple_returns (value second) (map value others)) in *.
  unfold Num.max_list in Hbest. unfold Num.min_list in Hworst.
  cbn [fold_left] in Hbest, Hworst.
  change (Num.max NInf (Fin r0)) with (Fin r0) in Hbest.
  change (Num.min PInf (Fin r0)) with (Fin r0) in Hworst.
  destruct (max_fold_finite rs r0) as (b & Hb & Hbin & Hble & Hball).
  destruct (min_fold_finite rs r0) as (w & Hw & Hwin & Hwle & Hwall).
  exists b, w. rewrite Hbest, Hworst. split; [exact Hb |]. split; [exact Hw |].
  split; [destruct Hbin as [-> | H]; [now left | now right] |].
  split; [destruct Hwin as [-> | H]; [now left | now right] |].
  intros r [<- | Hr]; split; auto.
Qed.

(** X15. The CAGR is 0 when the first or the last date of the series is
    not a valid date, and when the last date is not later than the first. *)
Theorem cagr_without_elapsed_time first second others investment sp500Data :
  let lastPoint := last (second :: others) first in
  (Date_new (date first) = None
   \/ Date_new (date lastPoint) = None
   \/ exists startDate endDate,
        Date_new (date first) = Some startDate
        /\ Date_new (date lastPoint) = Some endDate
        /\ (time endDate <= time startDate)%Z) ->
  cagr (calculateMetrics (first :: second :: others) investment sp500Data) = Fin 0.
Proof.
  intros lastPoint H. unfold calculateMetrics. cbv zeta. cbn [cagr].
  fold lastPoint.
  assert (Hyears : Num.gtb
                     (Num.div (Num.sub (getTime (Date_new (date lastPoint)))
                                       (getTime (Date_new (date first))))
                              (Fin (1000 * 3600 * 24 * 365)))
                     (Fin 0) = false).
  { destruct H as [H | [H | (s & e & Hs & He & Hle)]].
    - rewrite H. cbn [getTime]. now destruct (getTime (Date_new (date lastPoint))).
    - rewrite H. reflexivity.
    - rewrite Hs, He. cbn [getTime]. rewrite sub_finite, div_finite by lra.
      unfold Num.gtb. cbn [Num.ltb]. apply Rltb_false.
      apply IZR_le in Hle.
      assert (Hk : 0 < 1000 * 3600 * 24 * 365) by lra.
      intros Hpos.
      assert (Hnum : IZR (time e) - IZR (time s) <= 0) by lra.
      assert (Hq : (IZR (time e) - IZR (time s)) / (1000 * 3600 * 24 * 365) <= 0).
      { unfold Rdiv. rewrite <- (Rmult_0_l (/ (1000 * 3600 * 24 * 365))).
        apply Rmult_le_compat_r; [left; now apply Rinv_0_lt_compat | assumption]. }
      lra. }
  now rewrite Hyears.
Qed.


End BestWorstDay.

(** A run of X14 on the values 100, 120, 90. *)
Lemma best_and_worst_day_witness :
  let first := mkPoint "2024-01-01" 100 in
  let second := mkPoint "2024-01-02" 120 in
  let others := [mkPoint "2024-01-03" 90] in
  (forall p, In p (first :: second :: others) -> value p <> 0)
  /\ exists best worst,
       bestDay (calculateMetrics (rt := utc_runtime) (first :: second :: others) 1000 None)
       = Fin best
       /\ worstDay (calculateMetrics (rt := utc_runtime) (first :: second :: others) 1000 None)
          = Fin worst
       /\ worst <= 120 / 100 - 1 <= best.
Proof.
  intros first second others.
  assert (Hnz : forall p, In p (first :: second :: others) -> value p <> 0).
  { intros p [<- | [<- | [<- | []]]]; simpl; lra. }
  split; [exact Hnz |].
  destruct (best_and_worst_day (rt := utc_runtime) first second others 1000 None Hnz)
    as (best & worst & Hb & Hw & _ & _ & Hall).
  exists best, worst. split; [exact Hb |]. split; [exact Hw |].
  apply Hall. now left.
Defined.

(** A run of X15 on a series whose dates go backwards. *)
Lemma cagr_without_elapsed_time_witness :
  let first := mkPoint "2024-03-02" 100 in
  let second := mkPoint "2024-03-01" 150 in
  (exists startDate endDate,
      Date_new (Runtime := utc_runtime) (date first) = Some startDate
      /\ Date_new (Runtime := utc_runtime) (date second) = Some endDate
      /\ (time endDate <= time startDate)%Z)
  /\ cagr (calculateMetrics (rt := utc_runtime) [first; second] 100 None) = Fin 0.
Proof.
  intros first second.
  assert (H : exists startDate endDate,
             Date_new (Runtime := utc_runtime) (date first) = Some startDate
             /\ Date_new (Runtime := utc_runtime) (date (last [second] first))
                = Some endDate
             /\ (time endDate <= time startDate)%Z).
  { eexists. eexists. split; [reflexivity |]. split; [reflexivity |].
    vm_compute. discriminate. }
  split; [exact H |].
  apply (cagr_without_elapsed_time (rt := utc_runtime) first second [] 100 None).
  right. right. exact H.
Defined.


(* ----------------------------------------------------------------- *)
(** *** Symmetries of the correlation *)

Lemma sum_affine (a b : R) xs :
  fold_right Rplus 0 (map (fun x => a * x + b) xs)
  = a * fold_right Rplus 0 xs + b * INR (List.length xs).
Proof.
  induction xs as [| x xs IH].
  - simpl. ring.
  - cbn [map fold_right]. rewrite IH.
    change (List.length (x :: xs)) with (S (List.length xs)).
    rewrite S_INR. ring.
Qed.

Lemma mean_affine (a b : R) xs :
  xs <> [] -> mean (map (fun x => a * x + b) xs) = a * mean xs + b.
Proof.
  intros Hne. unfold mean. rewrite sum_affine, length_map.
  assert (Hn : INR (List.length xs) <> 0).
  { apply not_0_INR. destruct xs; [congruence | discriminate]. }
  now field.
Qed.

Lemma sum_products_affine_l (a b : R) xs :
  forall ys mx my,
    sum_products (map (fun x => a * x + b) xs) ys (a * mx + b) my
    = a * sum_products xs ys mx my.
Proof.
  induction xs as [| x xs IH]; intros [| y ys] mx my; cbn [map sum_products];
    try ring.
  rewrite IH. ring.
Qed.

Lemma sum_products_affine_both (a b : R) xs :
  forall m,
    sum_products (map (fun x => a * x + b) xs) (map (fun x => a * x + b) xs)
      (a * m + b) (a * m + b)
    = a * a * sum_products xs xs m m.
Proof.
  induction xs as [| x xs IH]; intros m; cbn [map sum_products]; [ring |].
  rewrite IH. ring.
Qed.

Lemma sum_products_sym xs :
  forall ys mx my, sum_products xs ys mx my = sum_products ys xs my mx.
Proof.
  induction xs as [| x xs IH]; intros [| y ys] mx my; cbn [sum_products];
    try reflexivity.
  rewrite (IH ys mx my). ring.
Qed.

Lemma pearson_sym xs ys : pearson xs ys = pearson ys xs.
Proof.
  unfold pearson.
  rewrite (orb_comm (Reqb (sum_squares xs) 0)),
          (Rmult_comm (sum_squares xs)),
          (sum_products_sym xs ys).
  reflexivity.
Qed.

Lemma sum_squares_affine (a b : R) xs :
  xs <> [] ->
  sum_squares (map (fun x => a * x + b) xs) = a * a * sum_squares xs.
Proof.
  intros Hne. unfold sum_squares. rewrite mean_affine by assumption.
  apply sum_products_affine_both.
Qed.

Lemma pearson_affine (a b : R) xs ys :
  xs <> [] -> a <> 0 ->
  pearson (map (fun x => a * x + b) xs) ys
  = (if Rltb 0 a then 1 else -1) * pearson xs ys.
Proof.
  intros Hne Ha. unfold pearson.
  rewrite sum_squares_affine, mean_affine by assumption.
  rewrite sum_products_affine_l.
  assert (Haa : 0 < a * a) by nra.
  assert (Hz : Reqb (a * a * sum_squares xs) 0 = Reqb (sum_squares xs) 0).
  { destruct (Reqb (sum_squares xs) 0) eqn:E.
    - apply Reqb_iff in E. rewrite E. apply Reqb_true. ring.
    - apply Reqb_false_iff in E. apply Reqb_false. nra. }
  rewrite Hz.
  destruct (Reqb (sum_squares xs) 0 || Reqb (sum_squares ys) 0)%bool eqn:E;
    [ring |].
  apply orb_false_iff in E. destruct E as [Ex Ey].
  apply Reqb_false_iff in Ex, Ey.
  pose proof (sum_products_self_nonneg xs (mean xs)) as Hx0.
  pose proof (sum_products_self_nonneg ys (mean ys)) as Hy0.
  fold (sum_squares xs) in Hx0. fold (sum_squares ys) in Hy0.
  assert (Hp : 0 < sum_squares xs * sum_squares ys) by nra.
  assert (Hden : 0 < sqrt (sum_squares xs * sum_squares ys))
    by now apply sqrt_lt_R0.
  replace (a * a * sum_squares xs * sum_squares ys)
    with ((a * a) * (sum_squares xs * sum_squares ys)) by ring.
  rewrite sqrt_mult by lra.
  destruct (Rltb 0 a) eqn:Hsign.
  - apply Rltb_iff in Hsign. rewrite sqrt_square by lra. field. split; lra.
  - apply Rltb_false_iff in Hsign.
    replace (sqrt (a * a)) with (- a)
      by (replace (a * a) with ((- a) * (- a)) by ring;
          rewrite sqrt_square by lra; reflexivity).
    field. split; lra.
Qed.



(* ----------------------------------------------------------------- *)
(** *** The benchmark: sorted dates and the nearest earlier date *)

Lemma string_leb_refl s : String.leb s s = true.
Proof. now destruct (String.leb_total s s). Qed.

Lemma string_compare_trans a :
  forall b c,
    String.compare a b <> Gt -> String.compare b c <> Gt ->
    String.compare a c <> Gt.
Proof.
  induction a as [| x a IH]; intros [| y b] [| z c]; cbn [String.compare];
    try congruence.
  unfold Ascii.compare.
  destruct (N.compare_spec (N_of_ascii x) (N_of_ascii y)) as [Hxy | Hxy | Hxy];
    destruct (N.compare_spec (N_of_ascii y) (N_of_ascii z)) as [Hyz | Hyz | Hyz];
    try congruence; intros Hab Hbc.
  - rewrite Hxy, Hyz, N.compare_refl. now apply (IH b c).
  - replace (N_of_ascii x ?= N_of_ascii z)%N with Lt; [discriminate |].
    symmetry. apply N.compare_lt_iff. lia.
  - replace (N_of_ascii x ?= N_of_ascii z)%N with Lt; [discriminate |].
    symmetry. apply N.compare_lt_iff. lia.
  - replace (N_of_ascii x ?= N_of_ascii z)%N with Lt; [discriminate |].
    symmetry. apply N.compare_lt_iff. lia.
Qed.

Lemma string_leb_trans a b c :
  String.leb a b = true -> String.leb b c = true -> String.leb a c = true.
Proof.
  unfold String.leb. intros Hab Hbc.
  pose proof (string_compare_trans a b c) as H.
  destruct (String.compare a b); destruct (String.compare b c);
    destruct (String.compare a c); try reflexivity; try discriminate;
    exfalso; apply H; congruence.
Qed.

Lemma insert_sorted_perm s sorted :
  Permutation (s :: sorted) (insert_sorted s sorted).
Proof.
  induction sorted as [| x rest IH]; cbn [insert_sorted]; [reflexivity |].
  destruct (String.leb s x); [reflexivity |].
  rewrite perm_swap. now apply perm_skip.
Qed.

Lemma sort_strings_perm dates : Permutation dates (sort_strings dates).
Proof.
  induction dates as [| d dates IH]; cbn [sort_strings fold_right]; [constructor |].
  rewrite <- insert_sorted_perm. now apply perm_skip.
Qed.

Lemma insert_sorted_sorted s sorted :
  StronglySorted string_le sorted ->
  StronglySorted string_le (insert_sorted s sorted).
Proof.
  induction 1 as [| x rest Hrest IH Hall]; cbn [insert_sorted].
  - repeat constructor.
  - destruct (String.leb s x) eqn:E.
    + constructor; [now constructor |].
      constructor; [exact E |].
      eapply Forall_impl; [| exact Hall].
      intros d Hd. exact (string_leb_trans s x d E Hd).
    + constructor; [exact IH |].
      eapply Permutation_Forall; [apply insert_sorted_perm |].
      constructor; [| exact Hall].
      destruct (String.leb_total s x) as [H | H]; [congruence | exact H].
Qed.

Lemma sort_strings_sorted dates : StronglySorted string_le (sort_strings dates).
Proof.
  induction dates as [| d dates IH]; cbn [sort_strings fold_right]; [constructor |].
  now apply insert_sorted_sorted.
Qed.

Lemma find_append {A : Type} (f : A -> bool) (l1 l2 : list A) :
  find f (l1 ++ l2)
  = match find f l1 with
    | Some x => Some x
    | None => find f l2
    end.
Proof.
  induction l1 as [| x l1 IH]; cbn [app find]; [reflexivity |].
  now destruct (f x).
Qed.

(** Searching a sorted list from its end gives its greatest element that
    is not after the target. *)
Lemma find_rev_sorted (target : string) sorted :
  StronglySorted string_le sorted ->
  match find (fun d => String.leb d target) (rev sorted) with
  | Some d =>
      In d sorted /\ String.leb d target = true
      /\ forall d', In d' sorted -> String.leb d' target = true ->
                    String.leb d' d = true
  | None => forall d', In d' sorted -> String.leb d' target = false
  end.
Proof.
  induction 1 as [| x rest Hrest IH Hall]; [intros d' [] |].
  cbn [rev]. rewrite find_append.
  destruct (find (fun d => String.leb d target) (rev rest)) as [d |] eqn:E.
  - destruct IH as (Hin & Hle & Hmax). split; [now right |]. split; [exact Hle |].
    intros d' [<- | Hd'] Hd't; [| now apply Hmax].
    rewrite Forall_forall in Hall. now apply Hall.
  - cbn [find]. destruct (String.leb x target) eqn:Ex.
    + split; [now left |]. split; [exact Ex |].
      intros d' [<- | Hd'] Hd't; [apply string_leb_refl |].
      rewrite (IH d' Hd') in Hd't. discriminate.
    + intros d' [<- | Hd']; [exact Ex | now apply IH].
Qed.

Lemma sp500_usable_positive p : sp500_usable p = true <-> 0 < value p.
Proof.
  unfold sp500_usable, truthy. split.
  - intros H. apply andb_true_iff in H. now apply Rltb_iff.
  - intros H. rewrite Reqb_false by lra. now rewrite Rltb_true.
Qed.

Lemma lookup_cons {A : Type} (key k : string) (v : A) rest :
  lookup key ((k, v) :: rest) = if String.eqb k key then Some v else lookup key rest.
Proof. reflexivity. Qed.

Lemma sp500ByDate_from sp500 :
  forall byDate d v,
    lookup d
      (fold_left
         (fun byDate p =>
            if sp500_usable p then (date p, value p) :: byDate else byDate)
         sp500 byDate) = Some v ->
    lookup d byDate = Some v
    \/ exists p, In p sp500 /\ date p = d /\ value p = v /\ 0 < value p.
Proof.
  induction sp500 as [| p sp500 IH]; intros byDate d v H; [now left |].
  cbn [fold_left] in H. apply IH in H.
  destruct H as [H | (q & Hq & Hrest)]; [| right; exists q; split; [now right | exact Hrest]].
  destruct (sp500_usable p) eqn:Hp; [| now left].
  rewrite lookup_cons in H. destruct (String.eqb (date p) d) eqn:Hd; [| now left].
  right. exists p. apply String.eqb_eq in Hd. injection H as H.
  apply sp500_usable_positive in Hp. repeat split; auto. now left.
Qed.

Lemma sp500ByDate_keeps sp500 :
  forall byDate d,
    lookup d byDate <> None ->
    lookup d
      (fold_left
         (fun byDate p =>
            if sp500_usable p then (date p, value p) :: byDate else byDate)
         sp500 byDate) <> None.
Proof.
  induction sp500 as [| p sp500 IH]; intros byDate d H; [exact H |].
  cbn [fold_left]. apply IH.
  destruct (sp500_usable p); [| exact H].
  rewrite lookup_cons. now destruct (String.eqb (date p) d).
Qed.

Lemma sp500ByDate_has sp500 :
  forall byDate p,
    In p sp500 -> sp500_usable p = true ->
    lookup (date p)
      (fold_left
         (fun byDate p =>
            if sp500_usable p then (date p, value p) :: byDate else byDate)
         sp500 byDate) <> None.
Proof.
  induction sp500 as [| q sp500 IH]; intros byDate p Hin Hp; [destruct Hin |].
  destruct Hin as [<- | Hin]; cbn [fold_left].
  - apply sp500ByDate_keeps. rewrite Hp, lookup_cons, String.eqb_refl. discriminate.
  - now apply IH.
Qed.

Lemma sp500ByDate_positive sp500 d v :
  lookup d (sp500ByDate_of sp500) = Some v ->
  0 < v /\ exists p, In p sp500 /\ date p = d /\ value p = v.
Proof.
  intros H. apply sp500ByDate_from in H.
  destruct H as [H | (p & Hin & Hd & Hv & Hpos)]; [discriminate |].
  split; [now rewrite <- Hv | exists p; auto].
Qed.

Lemma sp500Dates_in sp500 d :
  In d (sp500Dates_of sp500)
  <-> exists p, In p sp500 /\ date p = d /\ 0 < value p.
Proof.
  unfold sp500Dates_of. split.
  - intros H. apply (Permutation_in _ (Permutation_sym (sort_strings_perm _))) in H.
    apply in_map_iff in H. destruct H as (p & Hd & Hp).
    apply filter_In in Hp. destruct Hp as [Hin Hp].
    exists p. repeat split; auto. now apply sp500_usable_positive.
  - intros (p & Hin & Hd & Hpos).
    apply (Permutation_in _ (sort_strings_perm _)).
    apply in_map_iff. exists p. split; [exact Hd |].
    apply filter_In. split; [exact Hin | now apply sp500_usable_positive].
Qed.

Lemma sp500Dates_have_values sp500 d :
  In d (sp500Dates_of sp500) ->
  exists v, lookup d (sp500ByDate_of sp500) = Some v /\ 0 < v.
Proof.
  intros H. apply sp500Dates_in in H. destruct H as (p & Hin & Hd & Hpos).
  apply sp500_usable_positive in Hpos.
  pose proof (sp500ByDate_has sp500 [] p Hin Hpos) as Hsome.
  fold (sp500ByDate_of sp500) in Hsome. rewrite Hd in Hsome.
  destruct (lookup d (sp500ByDate_of sp500)) as [v |] eqn:E; [| congruence].
  exists v. split; [reflexivity |]. now apply (sp500ByDate_positive sp500 d v).
Qed.

Lemma findNearest_value sp500 target d :
  findNearestSp500Date (sp500ByDate_of sp500) (sp500Dates_of sp500) target = Some d ->
  String.leb d target = true
  /\ exists v, lookup d (sp500ByDate_of sp500) = Some v /\ 0 < v.
Proof.
  unfold findNearestSp500Date.
  destruct (lookup target (sp500ByDate_of sp500)) as [v |] eqn:E; cbn [opt_truthy].
  - destruct (truthy v).
    + intros H. injection H as <-. split; [apply string_leb_refl |].
      exists v. split; [exact E |]. now apply (sp500ByDate_positive sp500 target v).
    + intros H. apply find_some in H. destruct H as [Hin Hle].
      apply in_rev in Hin. split; [exact Hle |]. now apply sp500Dates_have_values.
  - intros H. apply find_some in H. destruct H as [Hin Hle].
    apply in_rev in Hin. split; [exact Hle |]. now apply sp500Dates_have_values.
Qed.

(** X18. The benchmark date used for a portfolio date is never later than
    it: it is the greatest date, not after the target, of a benchmark point
    with a positive value, and the value recorded for it is that of such a
    point; no date is found exactly when every such benchmark date is after
    the target.  The list of benchmark dates is the sorted list of the dates
    of the points with a positive value. *)
Theorem nearest_benchmark_date sp500 target :
  let sp500ByDate := sp500ByDate_of sp500 in
  let sp500Dates := sp500Dates_of sp500 in
  StronglySorted string_le sp500Dates
  /\ Permutation (map date (filter sp500_usable sp500)) sp500Dates
  /\ match findNearestSp500Date sp500ByDate sp500Dates target with
     | Some d =>
         string_le d target
         /\ (exists p v,
               In p sp500 /\ date p = d /\ value p = v /\ 0 < v
               /\ lookup d sp500ByDate = Some v)
         /\ forall p, In p sp500 -> 0 < value p -> string_le (date p) target ->
                      string_le (date p) d
     | None =>
         forall p, In p sp500 -> 0 < value p -> ~ string_le (date p) target
     end.
Proof.
  intros sp500ByDate sp500Dates.
  assert (Hsorted : StronglySorted string_le sp500Dates) by apply sort_strings_sorted.
  split; [exact Hsorted |]. split; [apply sort_strings_perm |].
  destruct (findNearestSp500Date sp500ByDate sp500Dates target) as [d |] eqn:E.
  - destruct (findNearest_value sp500 target d E) as (Hle & v & Hv & Hpos).
    split; [exact Hle |]. split.
    + destruct (sp500ByDate_positive sp500 d v Hv) as (_ & p & Hin & Hd & Hval).
      exists p, v. repeat split; auto.
    + intros p Hin Hp Hpt. unfold findNearestSp500Date in E.
      destruct (opt_truthy (lookup target sp500ByDate)).
      * injection E as <-. exact Hpt.
      * pose proof (find_rev_sorted target sp500Dates Hsorted) as Hfind.
        rewrite E in Hfind. destruct Hfind as (_ & _ & Hmax).
        apply Hmax; [| exact Hpt]. apply sp500Dates_in. exists p. auto.
  - intros p Hin Hp Hpt. unfold findNearestSp500Date in E.
    destruct (opt_truthy (lookup target sp500ByDate)); [discriminate |].
    pose proof (find_rev_sorted target sp500Dates Hsorted) as Hfind.
    rewrite E in Hfind.
    assert (Hd : In (date p) sp500Dates) by (apply sp500Dates_in; exists p; auto).
    apply Hfind in Hd. unfold string_le in Hpt. congruence.
Qed.

(* ----------------------------------------------------------------- *)
(** *** The correlation with the benchmark *)

Lemma fold_left_invariant {A B : Type} (P : A -> Prop) (f : A -> B -> A) l :
  (forall a b, In b l -> P a -> P (f a b)) ->
  forall a, P a -> P (fold_left f l a).
Proof.
  induction l as [| b l IH]; intros Hstep a Ha; [exact Ha |].
  cbn [fold_left]. apply IH.
  - intros a' b' Hb'. apply Hstep. now right.
  - apply Hstep; [now left | exact Ha].
Qed.

Lemma weekly_returns_finite portfolioValues sp500 :
  (forall p, In p portfolioValues -> value p <> 0) ->
  Forall finite_pair
    (weekly_returns portfolioValues (sp500ByDate_of sp500) (sp500Dates_of sp500)).
Proof.
  intros Hnz. unfold weekly_returns.
  apply fold_left_invariant; [| constructor].
  intros pairs i _ Hpairs.
  destruct (nth_error portfolioValues i) as [curr |]; [| exact Hpairs].
  destruct (nth_error portfolioValues (i - stepSize)) as [prev |] eqn:Hprev;
    [| exact Hpairs].
  destruct (findNearestSp500Date _ _ (date curr)) as [c |] eqn:Hc; [| exact Hpairs].
  destruct (findNearestSp500Date _ _ (date prev)) as [q |] eqn:Hq; [| exact Hpairs].
  destruct (str_truthy c && str_truthy q && negb (String.eqb c q))%bool;
    [| exact Hpairs].
  apply Forall_app. split; [exact Hpairs |]. constructor; [| constructor].
  destruct (findNearest_value sp500 _ c Hc) as (_ & v & Hv & _).
  destruct (findNearest_value sp500 _ q Hq) as (_ & w & Hw & Hwpos).
  rewrite Hv, Hw. cbn [num_of].
  apply nth_error_In in Hprev. apply Hnz in Hprev.
  rewrite !div_finite, !sub_finite by lra.
  eexists. eexists. reflexivity.
Qed.

Lemma truthy_nonzero x : truthy x = true -> x <> 0.
Proof.
  unfold truthy. intros H Hx. rewrite (Reqb_true _ _ Hx) in H. discriminate.
Qed.

Lemma align_step_finite sp500ByDate sp500Dates st point :
  Forall finite_pair (alignedReturns st) ->
  Forall finite_pair (alignedReturns (align_step sp500ByDate sp500Dates st point)).
Proof.
  intros Hst. unfold align_step.
  destruct (findNearestSp500Date sp500ByDate sp500Dates (date point)) as [c |];
    [| exact Hst].
  destruct (lookup c sp500ByDate) as [v |]; [| exact Hst].
  destruct (str_truthy c && truthy v)%bool; [| exact Hst].
  cbn [alignedReturns].
  destruct (lastValidSp500Date st) as [lastDate |]; [| exact Hst].
  destruct (lastValidSp500Value st) as [lastValue |]; [| exact Hst].
  destruct (lastPortfolioValue st) as [lastPortfolio |]; [| exact Hst].
  destruct (str_truthy lastDate && truthy lastValue && truthy lastPortfolio
            && negb (String.eqb c lastDate))%bool eqn:E; [| exact Hst].
  apply andb_true_iff in E. destruct E as [E _].
  apply andb_true_iff in E. destruct E as [E Hp].
  apply andb_true_iff in E. destruct E as [_ Hv].
  apply truthy_nonzero in Hp, Hv.
  apply Forall_app. split; [exact Hst |]. constructor; [| constructor].
  rewrite !div_finite, !sub_finite by assumption.
  eexists. eexists. reflexivity.
Qed.

Lemma aligned_returns_finite portfolioValues sp500ByDate sp500Dates :
  Forall finite_pair (aligned_returns portfolioValues sp500ByDate sp500Dates).
Proof.
  unfold aligned_returns.
  apply (fold_left_invariant (fun st => Forall finite_pair (alignedReturns st))).
  - intros st point _. apply align_step_finite.
  - constructor.
Qed.

Lemma finite_pairs_split pairs :
  Forall finite_pair pairs ->
  exists xs ys,
    map fst pairs = map Fin xs /\ map snd pairs = map Fin ys
    /\ List.length xs = List.length pairs /\ List.length ys = List.length pairs.
Proof.
  induction 1 as [| pair pairs (a & b & ->) _ (xs & ys & Hx & Hy & Hlx & Hly)].
  - exists [], []. repeat split.
  - exists (a :: xs), (b :: ys). cbn [map fst snd List.length].
    rewrite Hx, Hy, Hlx, Hly. repeat split.
Qed.

Lemma correlation_of_finite_pairs pairs :
  Forall finite_pair pairs ->
  exists r,
    calculateCorrelation (map fst pairs) (map snd pairs) = Fin r /\ -1 <= r <= 1.
Proof.
  intros H. destruct (finite_pairs_split pairs H) as (xs & ys & Hx & Hy & Hlx & Hly).
  rewrite Hx, Hy.
  destruct (le_lt_dec 2 (List.length xs)) as [Hmin | Hshort].
  - rewrite calculateCorrelation_pearson by congruence.
    exists (pearson xs ys). split; [reflexivity | apply pearson_bounds].
  - exists 0. split; [| lra]. unfold calculateCorrelation.
    rewrite !length_map.
    replace (List.length xs <? 2)%nat with true
      by (symmetry; now apply Nat.ltb_lt).
    now rewrite orb_true_r.
Qed.

Lemma fold_left_grows {A B : Type} (f : list A -> B -> list A) l :
  (forall acc b, (List.length (f acc b) <= S (List.length acc))%nat) ->
  forall acc,
    (List.length (fold_left f l acc) <= List.length acc + List.length l)%nat.
Proof.
  intros Hstep. induction l as [| b l IH]; intros acc; cbn [fold_left List.length];
    [lia |].
  etransitivity; [apply IH |]. specialize (Hstep acc b). lia.
Qed.

Lemma weekly_returns_length portfolioValues sp500ByDate sp500Dates :
  (List.length (weekly_returns portfolioValues sp500ByDate sp500Dates)
   <= (List.length portfolioValues - 1) / stepSize)%nat.
Proof.
  unfold weekly_returns.
  etransitivity; [apply fold_left_grows |].
  - intros pairs i.
    destruct (nth_error portfolioValues i) as [curr |]; [| lia].
    destruct (nth_error portfolioValues (i - stepSize)) as [prev |]; [| lia].
    destruct (findNearestSp500Date _ _ (date curr)); [| lia].
    destruct (findNearestSp500Date _ _ (date prev)); [| lia].
    destruct (_ && _ && _)%bool; [| lia].
    rewrite length_app. simpl. lia.
  - unfold weekly_indices. rewrite length_map, length_seq. simpl. lia.
Qed.

Lemma align_step_length sp500ByDate sp500Dates st point (k : nat) :
  ((lastPortfolioValue st = None /\ alignedReturns st = [])
   \/ S (List.length (alignedReturns st)) <= k)%nat ->
  let st' := align_step sp500ByDate sp500Dates st point in
  ((lastPortfolioValue st' = None /\ alignedReturns st' = [])
   \/ S (List.length (alignedReturns st')) <= S k)%nat.
Proof.
  intros Hst st'. subst st'. unfold align_step.
  assert (Hkeep : (lastPortfolioValue st = None /\ alignedReturns st = [])
                  \/ (S (List.length (alignedReturns st)) <= S k)%nat)
    by (destruct Hst as [H | H]; [now left | right; lia]).
  destruct (findNearestSp500Date sp500ByDate sp500Dates (date point)) as [c |];
    [| exact Hkeep].
  destruct (lookup c sp500ByDate) as [v |]; [| exact Hkeep].
  destruct (str_truthy c && truthy v)%bool; [| exact Hkeep].
  right. cbn [alignedReturns].
  destruct Hst as [[Hnone Hnil] | Hlen].
  - rewrite Hnone, Hnil.
    destruct (lastValidSp500Date st); [| simpl; lia].
    destruct (lastValidSp500Value st); simpl; lia.
  - destruct (lastValidSp500Date st); [| lia].
    destruct (lastValidSp500Value st); [| lia].
    destruct (lastPortfolioValue st); [| lia].
    destruct (_ && _ && _ && _)%bool; [| lia].
    rewrite length_app. simpl. lia.
Qed.

Lemma aligned_returns_length portfolioValues sp500ByDate sp500Dates :
  (List.length (aligned_returns portfolioValues sp500ByDate sp500Dates)
   <= List.length portfolioValues - 1)%nat.
Proof.
  unfold aligned_returns.
  assert (H : forall points st k,
             ((lastPortfolioValue st = None /\ alignedReturns st = [])
              \/ S (List.length (alignedReturns st)) <= k)%nat ->
             let final := fold_left (align_step sp500ByDate sp500Dates) points st in
             ((lastPortfolioValue final = None /\ alignedReturns final = [])
              \/ S (List.length (alignedReturns final)) <= k + List.length points)%nat).
  { induction points as [| point points IH]; intros st k Hst; cbn [fold_left List.length].
    - destruct Hst as [Hst | Hst]; [now left | right; lia].
    - replace (k + S (List.length points))%nat with (S k + List.length points)%nat
        by lia.
      apply IH. now apply align_step_length. }
  destruct (H portfolioValues (mkAlignment [] None None None) 0%nat) as [[_ Hnil] | Hlen].
  - left. split; reflexivity.
  - rewrite Hnil. simpl. lia.
  - simpl in Hlen. lia.
Qed.

Lemma no_usable_benchmark sp500 :
  (forall p, In p sp500 -> value p <= 0) ->
  forall target,
    findNearestSp500Date (sp500ByDate_of sp500) (sp500Dates_of sp500) target = None.
Proof.
  intros Hnone target.
  destruct (findNearestSp500Date _ _ target) as [d |] eqn:E; [| reflexivity].
  destruct (findNearest_value sp500 target d E) as (_ & v & Hv & Hpos).
  destruct (sp500ByDate_positive sp500 d v Hv) as (_ & p & Hin & _ & Hval).
  apply Hnone in Hin. lra.
Qed.

Lemma benchmark_correlation_none portfolioValues sp500Data :
  ((List.length portfolioValues <= 20)%nat
   \/ sp500Data = None
   \/ exists sp500,
        sp500Data = Some sp500
        /\ ((List.length sp500 <= 1)%nat \/ forall p, In p sp500 -> value p <= 0)) ->
  benchmark_correlation portfolioValues sp500Data = None.
Proof.
  intros H.
  unfold benchmark_correlation.
  destruct sp500Data as [sp500 |]; [| reflexivity].
  destruct ((1 <? List.length sp500)%nat && (1 <? List.length portfolioValues)%nat)%bool
    eqn:Hguard; [| reflexivity].
  apply andb_true_iff in Hguard. destruct Hguard as [Hsp _].
  apply Nat.ltb_lt in Hsp. cbv zeta.
  pose proof (weekly_returns_length portfolioValues
                (sp500ByDate_of sp500) (sp500Dates_of sp500)) as Hweekly.
  pose proof (aligned_returns_length portfolioValues
                (sp500ByDate_of sp500) (sp500Dates_of sp500)) as Haligned.
  destruct H as [Hshort | [Hno | (sp & Hsp500 & [Hfew | Hunusable])]].
  - assert (Hdiv : ((List.length portfolioValues - 1) / stepSize <= 19 / stepSize)%nat)
      by (apply Nat.Div0.div_le_mono; lia).
    change (19 / stepSize)%nat with 3%nat in Hdiv.
    replace (10 <=? _)%nat with false by (symmetry; apply Nat.leb_gt; lia).
    replace (20 <=? _)%nat with false by (symmetry; apply Nat.leb_gt; lia).
    reflexivity.
  - discriminate.
  - injection Hsp500 as <-. lia.
  - injection Hsp500 as <-.
    pose proof (no_usable_benchmark sp500 Hunusable) as Hnear.
    assert (Hw : weekly_returns portfolioValues
                   (sp500ByDate_of sp500) (sp500Dates_of sp500) = []).
    { unfold weekly_returns.
      apply (fold_left_invariant (fun pairs => pairs = [])); [| reflexivity].
      intros pairs i _ ->.
      destruct (nth_error portfolioValues i) as [curr |]; [| reflexivity].
      destruct (nth_error portfolioValues (i - stepSize)); [| reflexivity].
      now rewrite Hnear. }
    assert (Ha : aligned_returns portfolioValues
                   (sp500ByDate_of sp500) (sp500Dates_of sp500) = []).
    { unfold aligned_returns.
      apply (fold_left_invariant (fun st => alignedReturns st = [])); [| reflexivity].
      intros st point _ Hst. unfold align_step. now rewrite Hnear. }
    rewrite Hw, Ha. reflexivity.
Qed.

Section BenchmarkCorrelation.

Context {rt : Runtime}.


(** X20. The metrics have no correlation with the benchmark when there is
    no benchmark series, when it has fewer than 2 points or no point with a
    positive value, and whenever the portfolio series has at most 20
    points. *)
Theorem benchmark_correlation_absent portfolioValues investment sp500Data :
  ((List.length portfolioValues <= 20)%nat
   \/ sp500Data = None
   \/ exists sp500,
        sp500Data = Some sp500
        /\ ((List.length sp500 <= 1)%nat \/ forall p, In p sp500 -> value p <= 0)) ->
  sp500Correlation (calculateMetrics portfolioValues investment sp500Data) = None.
Proof.
  intros H. apply benchmark_correlation_none in H.
  destruct portfolioValues as [| first [| second others]]; try reflexivity.
  exact H.
Qed.

End BenchmarkCorrelation.


(** A run of X20: three dates are too few for a correlation. *)
Lemma benchmark_correlation_absent_witness :
  let series := [mkPoint "2024-01-01" 100; mkPoint "2024-01-02" 120;
                 mkPoint "2024-01-03" 90] in
  let benchmark := [mkPoint "2024-01-01" 4700; mkPoint "2024-01-02" 4750;
                    mkPoint "2024-01-03" 4690] in
  (List.length series <= 20)%nat
  /\ sp500Correlation
       (calculateMetrics (rt := utc_runtime) series 100 (Some benchmark)) = None.
Proof.
  intros series benchmark.
  assert (Hshort : (List.length series <= 20)%nat) by (simpl; lia).
  split; [exact Hshort |].
  apply (benchmark_correlation_absent (rt := utc_runtime)).
  left. exact Hshort.
Defined.

(* ================================================================= *)
(** ** The market data route *)

(** *** The symbols that are fetched *)

Lemma is_suffix_pattern_body body :
  body <> EmptyString ->
  (forall c, In c (list_ascii_of_string body) -> is_upper_or_digit c = true) ->
  matches_asset_pattern (body ++ "-USD") = true.
Proof.
  induction body as [| c body IH]; intros Hne Hclass; [congruence |].
  change ((String c body ++ "-USD")%string) with (String c (body ++ "-USD")).
  cbn [matches_asset_pattern].
  rewrite (Hclass c) by now left. cbn [andb].
  destruct body as [| c' body'].
  - reflexivity.
  - rewrite IH; [apply orb_true_r | discriminate |].
    intros x Hx. apply Hclass. now right.
Qed.

Lemma matches_asset_pattern_body asset :
  matches_asset_pattern asset = true ->
  exists body,
    asset = (body ++ "-USD")%string /\ body <> EmptyString
    /\ forall c, In c (list_ascii_of_string body) -> is_upper_or_digit c = true.
Proof.
  induction asset as [| c rest IH]; cbn [matches_asset_pattern]; [discriminate |].
  intros H. apply andb_true_iff in H. destruct H as [Hc H].
  apply orb_true_iff in H. destruct H as [H | H].
  - apply String.eqb_eq in H. subst rest.
    exists (String c EmptyString). split; [reflexivity |]. split; [discriminate |].
    intros x [<- | []]. exact Hc.
  - destruct (IH H) as (body & -> & _ & Hclass).
    exists (String c body). split; [reflexivity |]. split; [discriminate |].
    intros x [<- | Hx]; [exact Hc | now apply Hclass].
Qed.

Lemma filter_none {A : Type} (f : A -> bool) l :
  (forall x, In x l -> f x = false) -> filter f l = [].
Proof.
  induction l as [| x l IH]; intros H; [reflexivity |].
  cbn [filter]. rewrite (H x) by now left.
  apply IH. intros y Hy. apply H. now right.
Qed.

Lemma ASSETS_of_in requestedAssets asset :
  In asset (ASSETS_of requestedAssets)
  <-> In asset requestedAssets
      /\ matches_asset_pattern asset = true
      /\ (List.length requestedAssets <= 20)%nat.
Proof.
  unfold ASSETS_of. rewrite filter_In, andb_true_iff, Nat.leb_le. tauto.
Qed.

(** X21. The symbols fetched by the market data route are the benchmark
    symbol and the requested symbols made of one or more capital letters or
    digits followed by [-USD], and no requested symbol at all when more than
    20 are requested; the benchmark symbol comes last and exactly once, and
    at most 21 symbols are fetched. *)
Theorem fetched_symbols requestedAssets :
  let fetched := assetsToFetch_of requestedAssets in
  (forall asset,
      In asset fetched <->
      asset = "^GSPC"%string
      \/ (In asset requestedAssets
          /\ (List.length requestedAssets <= 20)%nat
          /\ exists body,
               asset = (body ++ "-USD")%string /\ body <> EmptyString
               /\ forall c, In c (list_ascii_of_string body) ->
                            is_upper_or_digit c = true))
  /\ last fetched EmptyString = "^GSPC"%string
  /\ count_occ string_dec fetched "^GSPC"%string = 1%nat
  /\ (List.length fetched <= 21)%nat
  /\ ((20 < List.length requestedAssets)%nat -> fetched = ["^GSPC"%string]).
Proof.
  intros fetched. subst fetched. unfold assetsToFetch_of.
  split; [| split; [| split; [| split]]].
  - intros asset. rewrite in_app_iff, ASSETS_of_in. split.
    + intros [(Hin & Hmatch & Hlen) | [<- | []]]; [right | now left].
      split; [exact Hin |]. split; [exact Hlen |].
      now apply matches_asset_pattern_body.
    + intros [-> | (Hin & Hlen & body & -> & Hne & Hclass)].
      * right. now left.
      * left. split; [exact Hin |]. split; [| exact Hlen].
        now apply is_suffix_pattern_body.
  - apply last_last.
  - rewrite count_occ_app. cbn [count_occ].
    destruct (string_dec "^GSPC" "^GSPC") as [_ | Hne]; [| congruence].
    rewrite (proj1 (count_occ_not_In string_dec _ _)); [reflexivity |].
    rewrite ASSETS_of_in. intros (_ & Hmatch & _). discriminate.
  - rewrite length_app. cbn [List.length]. unfold ASSETS_of.
    destruct (le_lt_dec (List.length requestedAssets) 20) as [Hlen | Hlen].
    + pose proof (filter_length_le
                    (fun asset =>
                       matches_asset_pattern asset
                       && (List.length requestedAssets <=? 20)%nat)
                    requestedAssets). lia.
    + replace (List.length requestedAssets <=? 20)%nat with false
        by (symmetry; apply Nat.leb_gt; lia).
      rewrite filter_none; [simpl; lia |].
      intros x _. apply andb_false_r.
  - intros Hlen. unfold ASSETS_of.
    replace (List.length requestedAssets <=? 20)%nat with false
      by (symmetry; apply Nat.leb_gt; lia).
    rewrite filter_none; [reflexivity |].
    intros x _. apply andb_false_r.
Qed.

(* ----------------------------------------------------------------- *)
(** *** The forward fill *)

Lemma lookup_set_field_same {A : Type} key (v : A) obj :
  lookup key (set_field key v obj) = Some v.
Proof.
  induction obj as [| [k x] rest IH]; cbn [set_field lookup].
  - now rewrite String.eqb_refl.
  - destruct (String.eqb k key) eqn:E; cbn [lookup]; now rewrite E.
Qed.

Lemma lookup_set_field_other {A : Type} key other (v : A) obj :
  other <> key -> lookup other (set_field key v obj) = lookup other obj.
Proof.
  intros Hne. induction obj as [| [k x] rest IH]; cbn [set_field lookup].
  - destruct (String.eqb_spec key other); [congruence | reflexivity].
  - destruct (String.eqb_spec k key) as [-> | _]; cbn [lookup].
    + destruct (String.eqb_spec key other); [congruence | reflexivity].
    + now rewrite IH.
Qed.

(** The value a symbol gets on a day, given the last known values. *)
Lemma fill_symbol_same day lastKnownValues symbol :
  let v :=
    match observed day symbol with
    | Some x => x
    | None => known_or_zero lastKnownValues symbol
    end in
  let state := fill_symbol (day, lastKnownValues) symbol in
  observed (fst state) symbol = Some v /\ known_or_zero (snd state) symbol = v.
Proof.
  unfold fill_symbol, known_or_zero.
  destruct (observed day symbol) as [x |] eqn:E; cbn [fst snd].
  - split; [exact E |]. now rewrite lookup_set_field_same.
  - destruct (lookup symbol lastKnownValues) as [k |] eqn:Hk; cbn [fst snd];
      unfold observed; cbn [aligned_fields];
      now rewrite lookup_set_field_same, ?Hk.
Qed.

Lemma fill_symbol_other day lastKnownValues symbol other :
  other <> symbol ->
  let state := fill_symbol (day, lastKnownValues) symbol in
  lookup other (aligned_fields (fst state)) = lookup other (aligned_fields day)
  /\ lookup other (snd state) = lookup other lastKnownValues.
Proof.
  intros Hne. unfold fill_symbol.
  destruct (observed day symbol) as [x |]; cbn [fst snd].
  - split; [reflexivity | now apply lookup_set_field_other].
  - destruct (lookup symbol lastKnownValues) as [k |]; cbn [fst snd aligned_fields];
      (split; [now apply lookup_set_field_other | reflexivity]).
Qed.

Lemma fill_symbol_date state symbol :
  aligned_date (fst (fill_symbol state symbol)) = aligned_date (fst state).
Proof.
  destruct state as [day lastKnownValues]. unfold fill_symbol.
  destruct (observed day symbol); [reflexivity |].
  now destruct (lookup symbol lastKnownValues).
Qed.

(** Once a symbol has its value of the day, the other symbols, and the
    symbol itself when it is listed twice, leave it alone. *)
Lemma fill_symbol_stable state symbol other v :
  observed (fst state) symbol = Some v /\ known_or_zero (snd state) symbol = v ->
  observed (fst (fill_symbol state other)) symbol = Some v
  /\ known_or_zero (snd (fill_symbol state other)) symbol = v.
Proof.
  destruct state as [day lastKnownValues]. cbn [fst snd]. intros [Hobs Hknown].
  destruct (String.eqb_spec symbol other) as [<- | Hne].
  - pose proof (fill_symbol_same day lastKnownValues symbol) as H.
    cbv zeta in H. now rewrite Hobs in H.
  - destruct (fill_symbol_other day lastKnownValues other symbol Hne) as [Hd Hl].
    unfold observed, known_or_zero in *. now rewrite Hd, Hl.
Qed.

Lemma fill_day_stable symbols :
  forall state symbol v,
    observed (fst state) symbol = Some v /\ known_or_zero (snd state) symbol = v ->
    observed (fst (fold_left fill_symbol symbols state)) symbol = Some v
    /\ known_or_zero (snd (fold_left fill_symbol symbols state)) symbol = v.
Proof.
  induction symbols as [| other symbols IH]; intros state symbol v H; [exact H |].
  cbn [fold_left]. apply IH. now apply fill_symbol_stable.
Qed.

Lemma fill_day_listed symbols :
  forall day lastKnownValues symbol,
    In symbol symbols ->
    let v :=
      match observed day symbol with
      | Some x => x
      | None => known_or_zero lastKnownValues symbol
      end in
    let state := fold_left fill_symbol symbols (day, lastKnownValues) in
    observed (fst state) symbol = Some v /\ known_or_zero (snd state) symbol = v.
Proof.
  induction symbols as [| other symbols IH]; intros day lastKnownValues symbol Hin;
    [destruct Hin |].
  cbn [fold_left]. cbv zeta.
  destruct (String.eqb_spec symbol other) as [<- | Hne].
  - apply fill_day_stable. apply fill_symbol_same.
  - destruct Hin as [-> | Hin]; [congruence |].
    destruct (fill_symbol_other day lastKnownValues other symbol Hne) as [Hd Hl].
    destruct (fill_symbol (day, lastKnownValues) other) as [day' last'] eqn:E.
    cbn [fst snd] in Hd, Hl.
    pose proof (IH day' last' symbol Hin) as H. cbv zeta in H.
    unfold observed, known_or_zero in *. now rewrite Hd, Hl in H.
Qed.

Lemma fill_day_unlisted symbols :
  forall state symbol,
    ~ In symbol symbols ->
    lookup symbol (aligned_fields (fst (fold_left fill_symbol symbols state)))
    = lookup symbol (aligned_fields (fst state)).
Proof.
  induction symbols as [| other symbols IH]; intros [day lastKnownValues] symbol Hnot;
    [reflexivity |].
  cbn [fold_left]. rewrite IH by (intros H; apply Hnot; now right).
  apply fill_symbol_other. intros ->. apply Hnot. now left.
Qed.

Lemma fill_day_date symbols :
  forall state,
    aligned_date (fst (fold_left fill_symbol symbols state))
    = aligned_date (fst state).
Proof.
  induction symbols as [| other symbols IH]; intros state; [reflexivity |].
  cbn [fold_left]. now rewrite IH, fill_symbol_date.
Qed.

Lemma forward_fill_cons assetsToFetch day rest lastKnownValues :
  forward_fill assetsToFetch (day :: rest) lastKnownValues
  = fst (fold_left fill_symbol assetsToFetch (day, lastKnownValues))
    :: forward_fill assetsToFetch rest
         (snd (fold_left fill_symbol assetsToFetch (day, lastKnownValues))).
Proof.
  cbn [forward_fill].
  now destruct (fold_left fill_symbol assetsToFetch (day, lastKnownValues)).
Qed.

Lemma forward_fill_listed assetsToFetch symbol alignedData :
  In symbol assetsToFetch ->
  forall lastKnownValues,
    map (fun day => observed day symbol)
        (forward_fill assetsToFetch alignedData lastKnownValues)
    = map Some
        (carried_forward symbol alignedData (known_or_zero lastKnownValues symbol)).
Proof.
  intros Hin. induction alignedData as [| day rest IH]; intros lastKnownValues;
    [reflexivity |].
  rewrite forward_fill_cons. cbn [map carried_forward].
  destruct (fill_day_listed assetsToFetch day lastKnownValues symbol Hin) as [Hobs Hknown].
  rewrite Hobs, IH, Hknown. reflexivity.
Qed.

(** X22. The forward fill keeps the dates and the fields of the symbols
    that are not fetched; for a fetched symbol every record of the result
    holds a number: the observation of the day where there is one, otherwise
    the latest earlier observation, and 0 before the first one. *)
Theorem forward_fill_carries assetsToFetch alignedData symbol :
  let filledData := forward_fill assetsToFetch alignedData [] in
  map aligned_date filledData = map aligned_date alignedData
  /\ (In symbol assetsToFetch ->
      map (fun day => observed day symbol) filledData
      = map Some (carried_forward symbol alignedData 0))
  /\ (~ In symbol assetsToFetch ->
      map (fun day => lookup symbol (aligned_fields day)) filledData
      = map (fun day => lookup symbol (aligned_fields day)) alignedData).
Proof.
  intros filledData. subst filledData. split; [| split].
  - generalize (@nil (string * R)) as lastKnownValues.
    induction alignedData as [| day rest IH]; intros lastKnownValues; [reflexivity |].
    rewrite forward_fill_cons. cbn [map]. now rewrite IH, fill_day_date.
  - intros Hin. now rewrite forward_fill_listed.
  - intros Hnot. generalize (@nil (string * R)) as lastKnownValues.
    induction alignedData as [| day rest IH]; intros lastKnownValues; [reflexivity |].
    rewrite forward_fill_cons. cbn [map]. now rewrite IH, fill_day_unlisted.
Qed.

(** A run of X22: a symbol listed from the second of three dates on, and
    without a price on the third. *)
Lemma forward_fill_carries_witness :
  let alignedData :=
    [mkAligned "2020-03-01" [("BTC-USD"%string, Some 8500); ("SOL-USD"%string, None)];
     mkAligned "2020-03-02" [("BTC-USD"%string, Some 8800); ("SOL-USD"%string, Some 3)];
     mkAligned "2020-03-03" [("BTC-USD"%string, Some 8700); ("SOL-USD"%string, None)]] in
  let assetsToFetch := ["BTC-USD"%string; "SOL-USD"%string] in
  In "SOL-USD"%string assetsToFetch
  /\ map (fun day => observed day "SOL-USD")
         (forward_fill assetsToFetch alignedData [])
     = [Some 0; Some 3; Some 3].
Proof.
  intros alignedData assetsToFetch.
  assert (Hin : In "SOL-USD"%string assetsToFetch) by (right; now left).
  split; [exact Hin |].
  exact (proj1 (proj2 (forward_fill_carries assetsToFetch alignedData "SOL-USD")) Hin).
Defined.

Lemma received_price day symbol :
  price_of (received day) symbol = observed day symbol.
Proof.
  unfold price_of, received. cbn [day_fields].
  assert (H : forall keys,
             lookup symbol
               (fold_right
                  (fun key fields =>
                     match observed day key with
                     | Some v => (key, v) :: fields
                     | None => fields
                     end)
                  [] keys)
             = if in_dec string_dec symbol keys then observed day symbol else None).
  { induction keys as [| key keys IH]; [reflexivity |].
    cbn [fold_right].
    destruct (in_dec string_dec symbol (key :: keys)) as [Hin | Hnot].
    - destruct (String.eqb_spec key symbol) as [-> | Hne].
      + destruct (observed day symbol) as [v |] eqn:E.
        * cbn [lookup]. now rewrite String.eqb_refl.
        * rewrite IH. now destruct (in_dec string_dec symbol keys).
      + assert (Hin' : In symbol keys) by (destruct Hin; [congruence | assumption]).
        destruct (observed day key); cbn [lookup];
          [destruct (String.eqb_spec key symbol); [congruence |] |];
          rewrite IH; destruct (in_dec string_dec symbol keys); tauto.
    - assert (Hne : key <> symbol) by (intros ->; apply Hnot; now left).
      assert (Hnot' : ~ In symbol keys) by (intros H; apply Hnot; now right).
      destruct (observed day key); cbn [lookup];
        [destruct (String.eqb_spec key symbol); [congruence |] |];
        rewrite IH; destruct (in_dec string_dec symbol keys); tauto. }
  rewrite H.
  destruct (in_dec string_dec symbol (map fst (aligned_fields day))) as [_ | Hnot];
    [reflexivity |].
  unfold observed.
  destruct (lookup symbol (aligned_fields day)) as [x |] eqn:E; [| reflexivity].
  exfalso. apply Hnot. apply lookup_in in E.
  apply in_map_iff. now exists (symbol, x).
Qed.

(** X23. A fetched symbol with no observation on the first date of the
    response has price 0 there, so the validation applied to the response
    reports it as an invalid asset of the portfolio and the portfolio as
    not valid. *)
Theorem unlisted_asset_is_invalid assetsToFetch day0 rest weights symbol :
  In symbol assetsToFetch ->
  observed day0 symbol = None ->
  In symbol (map fst weights) ->
  let data := map received (forward_fill assetsToFetch (day0 :: rest) []) in
  let validation := validateAssetsForDateRange data weights in
  (exists first others, data = first :: others /\ price_of first symbol = Some 0)
  /\ In symbol (invalidAssets validation)
  /\ ~ In symbol (validAssets validation)
  /\ valid validation = false.
Proof.
  intros Hin Hnone Hweight data validation.
  subst validation data. rewrite forward_fill_cons. cbn [map].
  set (first := fst (fold_left fill_symbol assetsToFetch (day0, []))).
  set (others := map received _).
  assert (Hprice : price_of (received first) symbol = Some 0).
  { rewrite received_price. subst first.
    destruct (fill_day_listed assetsToFetch day0 [] symbol Hin) as [Hobs _].
    rewrite Hobs, Hnone. reflexivity. }
  assert (Hunusable : unusable_price (price_of (received first) symbol) = true).
  { rewrite Hprice. cbn [unusable_price]. unfold truthy.
    now rewrite Reqb_refl. }
  split; [now exists (received first), others |].
  cbn [validateAssetsForDateRange invalidAssets validAssets valid].
  assert (Hinvalid : In symbol
                       (filter (fun ticker => unusable_price (price_of (received first) ticker))
                               (map fst weights)))
    by (apply filter_In; now split).
  split; [exact Hinvalid |]. split.
  - intros H. apply filter_In in H. destruct H as [_ H].
    now rewrite Hunusable in H.
  - apply Nat.eqb_neq. intros Hlen. apply length_zero_iff_nil in Hlen.
    now rewrite Hlen in Hinvalid.
Qed.

(** A run of X23: Solana has no price on the first date. *)
Lemma unlisted_asset_is_invalid_witness :
  let day0 :=
    mkAligned "2020-03-01" [("BTC-USD"%string, Some 8500); ("SOL-USD"%string, None)] in
  let rest :=
    [mkAligned "2020-03-02" [("BTC-USD"%string, Some 8800); ("SOL-USD"%string, Some 3)]] in
  let assetsToFetch := ["BTC-USD"%string; "SOL-USD"%string; "^GSPC"%string] in
  let weights := [("BTC-USD"%string, 60); ("SOL-USD"%string, 40)] in
  In "SOL-USD"%string assetsToFetch
  /\ observed day0 "SOL-USD" = None
  /\ In "SOL-USD"%string (map fst weights)
  /\ In "SOL-USD"%string
        (invalidAssets
           (validateAssetsForDateRange
              (map received (forward_fill assetsToFetch (day0 :: rest) [])) weights)).
Proof.
  intros day0 rest assetsToFetch weights.
  assert (H1 : In "SOL-USD"%string assetsToFetch) by (right; now left).
  assert (H2 : observed day0 "SOL-USD" = None) by reflexivity.
  assert (H3 : In "SOL-USD"%string (map fst weights)) by (right; now left).
  split; [exact H1 |]. split; [exact H2 |]. split; [exact H3 |].
  exact (proj1 (proj2 (unlisted_asset_is_invalid assetsToFetch day0 rest weights
                         "SOL-USD" H1 H2 H3))).
Defined.

(* ================================================================= *)
(** ** The CSV export *)

Lemma double_quotes_injective a :
  forall b,
    (double_quotes a ++ String double_quote EmptyString)%string
    = (double_quotes b ++ String double_quote EmptyString)%string ->
    a = b.
Proof.
  induction a as [| x a IH]; intros [| y b]; cbn [double_quotes].
  - reflexivity.
  - destruct (Ascii.eqb_spec y double_quote) as [-> | Hy]; cbn [append]; intros H.
    + discriminate.
    + injection H as H _. congruence.
  - destruct (Ascii.eqb_spec x double_quote) as [-> | Hx]; cbn [append]; intros H.
    + discriminate.
    + injection H as H _. congruence.
  - destruct (Ascii.eqb_spec x double_quote) as [-> | Hx];
      destruct (Ascii.eqb_spec y double_quote) as [-> | Hy]; cbn [append]; intros H.
    + injection H as H. f_equal. now apply IH.
    + injection H as H _. congruence.
    + injection H as H _. congruence.
    + injection H as Hxy H. f_equal; [exact Hxy | now apply IH].
Qed.

Lemma count_quotes_append a b :
  count_quotes (a ++ b) = (count_quotes a + count_quotes b)%nat.
Proof.
  induction a as [| x a IH]; [reflexivity |].
  change ((String x a ++ b)%string) with (String x (a ++ b)).
  cbn [count_quotes]. rewrite IH. lia.
Qed.

Lemma count_quotes_double str :
  count_quotes (double_quotes str) = (2 * count_quotes str)%nat.
Proof.
  induction str as [| x str IH]; [reflexivity |].
  cbn [double_quotes count_quotes].
  destruct (Ascii.eqb x double_quote) eqn:E; cbn [count_quotes].
  - rewrite Ascii.eqb_refl, IH. lia.
  - rewrite E, IH. lia.
Qed.

Lemma count_quotes_none str :
  includes str double_quote = false -> count_quotes str = 0%nat.
Proof.
  induction str as [| x str IH]; [reflexivity |].
  cbn [includes count_quotes]. intros H. apply orb_false_iff in H.
  destruct H as [Hx Hrest]. now rewrite Hx, IH.
Qed.

Lemma includes_double str (c : ascii) :
  c <> double_quote -> includes (double_quotes str) c = includes str c.
Proof.
  intros Hc. induction str as [| x str IH]; [reflexivity |].
  cbn [double_quotes includes].
  destruct (Ascii.eqb_spec x double_quote) as [-> | Hx]; cbn [includes].
  - destruct (Ascii.eqb_spec double_quote c); [congruence |]. now rewrite IH.
  - now rewrite IH.
Qed.

Lemma includes_append a b (c : ascii) :
  includes (a ++ b) c = includes a c || includes b c.
Proof.
  induction a as [| x a IH]; [reflexivity |].
  change ((String x a ++ b)%string) with (String x (a ++ b)).
  cbn [includes]. now rewrite IH, orb_assoc.
Qed.

(** X24. [escapeCSV] loses nothing: two values with the same escaped form
    are the same value.  The escaped form has an even number of double
    quotes, and when it holds a comma or a newline it is enclosed in double
    quotes; a value without comma, double quote and newline is left as it
    is. *)
Theorem escapeCSV_fields str other :
  (escapeCSV str = escapeCSV other -> str = other)
  /\ Nat.even (count_quotes (escapeCSV str)) = true
  /\ (includes (escapeCSV str) comma = true
      \/ includes (escapeCSV str) newline = true ->
      exists body,
        escapeCSV str
        = String double_quote (body ++ String double_quote EmptyString))
  /\ (includes str comma = false -> includes str double_quote = false ->
      includes str newline = false -> escapeCSV str = str).
Proof.
  split; [| split; [| split]].
  - unfold escapeCSV.
    destruct (includes str comma || includes str double_quote || includes str newline)
      eqn:Hs;
      destruct (includes other comma || includes other double_quote
                || includes other newline) eqn:Ho; intros H.
    + injection H as H. now apply double_quotes_injective.
    + subst other. cbn [includes] in Ho.
      change (Ascii.eqb double_quote double_quote) with true in Ho.
      rewrite orb_true_r in Ho. discriminate.
    + subst str. cbn [includes] in Hs.
      change (Ascii.eqb double_quote double_quote) with true in Hs.
      rewrite orb_true_r in Hs. discriminate.
    + exact H.
  - unfold escapeCSV.
    destruct (includes str comma || includes str double_quote || includes str newline)
      eqn:Hs.
    + assert (Hcount : count_quotes
                         (String double_quote
                            (double_quotes str ++ String double_quote EmptyString))
                       = (2 * (1 + count_quotes str))%nat).
      { cbn [count_quotes].
        rewrite count_quotes_append, count_quotes_double. cbn [count_quotes].
        rewrite !Ascii.eqb_refl. lia. }
      rewrite Hcount. apply Nat.even_spec. exists (1 + count_quotes str)%nat.
      reflexivity.
    + apply orb_false_iff in Hs. destruct Hs as [Hs _].
      apply orb_false_iff in Hs. destruct Hs as [_ Hq].
      now rewrite count_quotes_none.
  - unfold escapeCSV.
    destruct (includes str comma || includes str double_quote || includes str newline)
      eqn:Hs.
    + intros _. now exists (double_quotes str).
    + apply orb_false_iff in Hs. destruct Hs as [Hs Hn].
      apply orb_false_iff in Hs. destruct Hs as [Hc _].
      intros [H | H]; congruence.
  - intros Hc Hq Hn. unfold escapeCSV. now rewrite Hc, Hq, Hn.
Qed.

(* ================================================================= *)
(** ** Further properties of the metrics engine *)

(** *** Series without monthly statistics *)

Lemma group_months_unlabelled days :
  forall monthEnd,
    group_months days [] EmptyString None monthEnd
    = months_of_groups (month_groups (drop_unlabelled days)).
Proof.
  induction days as [| day rest IH]; intros monthEnd; [reflexivity |].
  cbn [group_months drop_unlabelled].
  destruct (String.eqb_spec (month_of day) EmptyString) as [E | Hlabel]; cbn [negb].
  - apply IH.
  - cbn [save_month].
    change (Some day) with (Some (last [] day)) at 2.
    now rewrite (group_months_open rest day [] []) by (intros x []).
Qed.

Lemma drop_unlabelled_nil values :
  drop_unlabelled values = [] <-> forall p, In p values -> month_of p = EmptyString.
Proof.
  induction values as [| p rest IH]; cbn [drop_unlabelled].
  - split; [intros _ q [] | reflexivity].
  - destruct (String.eqb_spec (month_of p) EmptyString) as [E | Hlabel].
    + rewrite IH. split.
      * intros H q [<- | Hq]; [exact E | now apply H].
      * intros H q Hq. apply H. now right.
    + split; [discriminate |]. intros H. exfalso. apply Hlabel, H. now left.
Qed.

Lemma months_of_groups_nil values :
  months_of_groups (month_groups values) = [] <-> values = [].
Proof.
  split; [| now intros ->].
  destruct values as [| p rest]; [reflexivity |].
  destruct (month_groups_head p rest) as (g & more & ->). discriminate.
Qed.

(** X25. [calculateMonthlyPerformance] returns nothing exactly for a
    series of fewer than 2 points and for a series none of whose dates has a
    month prefix; otherwise the months are those of the series from its
    first point with a month prefix on: the points before it belong to no
    month. *)
Theorem monthly_performance_absent portfolioValues :
  (calculateMonthlyPerformance portfolioValues = None
   <-> (List.length portfolioValues < 2)%nat
       \/ forall p, In p portfolioValues -> month_of p = EmptyString)
  /\ forall stats,
       calculateMonthlyPerformance portfolioValues = Some stats ->
       monthlyData stats
       = months_of_groups (month_groups (drop_unlabelled portfolioValues)).
Proof.
  unfold calculateMonthlyPerformance.
  rewrite group_months_unlabelled.
  destruct (List.length portfolioValues <? 2)%nat eqn:Hlen.
  - apply Nat.ltb_lt in Hlen. split; [| discriminate]. split; [now left | reflexivity].
  - apply Nat.ltb_ge in Hlen.
    destruct (months_of_groups (month_groups (drop_unlabelled portfolioValues)))
      as [| first others] eqn:Hdata.
    + split; [| discriminate]. split; [| reflexivity]. intros _. right.
      apply drop_unlabelled_nil. now apply months_of_groups_nil.
    + split.
      * split; [discriminate |]. intros [H | H]; [lia |].
        apply drop_unlabelled_nil in H. rewrite H in Hdata. discriminate.
      * intros stats H. injection H as <-. reflexivity.
Qed.

(* ----------------------------------------------------------------- *)
(** *** A series of constant daily return *)

Lemma sum_constant (r : R) rs :
  (forall x, In x rs -> x = r) ->
  fold_right Rplus 0 rs = r * INR (List.length rs).
Proof.
  induction rs as [| x rs IH]; intros H.
  - simpl. ring.
  - cbn [fold_right]. change (List.length (x :: rs)) with (S (List.length rs)).
    rewrite S_INR, IH, (H x) by (try (now left); intros y Hy; apply H; now right).
    ring.
Qed.

Lemma max_list_constant (r : R) rs :
  rs <> [] -> (forall x, In x rs -> x = r) ->
  Num.max_list (map Fin rs) = Fin r /\ Num.min_list (map Fin rs) = Fin r.
Proof.
  intros Hne Hall. destruct rs as [| x rs]; [congruence |].
  assert (Hx : x = r) by (apply Hall; now left). subst x.
  unfold Num.max_list, Num.min_list. cbn [map fold_left].
  change (Num.max NInf (Fin r)) with (Fin r).
  change (Num.min PInf (Fin r)) with (Fin r).
  destruct (max_fold_finite rs r) as (b & Hb & Hbin & _).
  destruct (min_fold_finite rs r) as (w & Hw & Hwin & _).
  rewrite Hb, Hw. split; f_equal.
  - destruct Hbin as [H | H]; [exact H | apply Hall; now right].
  - destruct Hwin as [H | H]; [exact H | apply Hall; now right].
Qed.

Section ConstantReturn.

Context {rt : Runtime}.

Lemma squared_deviations_constant (r : R) rs :
  Math_pow (Fin 0) (Fin 2) = Fin 0 ->
  (forall x, In x rs -> x = r) ->
  fold_left (fun a b => Num.add a (Math_pow (Num.sub b (Fin r)) (Fin 2)))
            (map Fin rs) (Fin 0)
  = Fin 0.
Proof.
  intros Hpow. induction rs as [| x rs IH]; intros Hall; [reflexivity |].
  cbn [map fold_left]. rewrite (Hall x) by now left.
  rewrite sub_finite, Rminus_diag, Hpow, add_finite, Rplus_0_r.
  apply IH. intros y Hy. apply Hall. now right.
Qed.


End ConstantReturn.


(* ================================================================= *)
(** ** The metrics of the dashboard *)

Lemma has_benchmark_positive day :
  has_benchmark day = true
  <-> exists p, price_of day "^GSPC" = Some p /\ 0 < p.
Proof.
  unfold has_benchmark. split.
  - intros H. now apply usable_price_positive.
  - intros (p & Hp & Hpos). rewrite Hp. cbn [usable_price]. unfold truthy.
    rewrite Reqb_false by lra. now rewrite Rltb_true.
Qed.

Section DashboardProperties.

Context {rt : Runtime}.

(** X27. The benchmark series the dashboard passes to the metrics holds,
    in order, the days of the market data with a positive benchmark price,
    each with that price, and is absent when there is no such day.  With at
    most 20 days of market data, or fewer than 2 days with a benchmark
    price, the metrics of the dashboard have no correlation. *)
Theorem dashboard_benchmark marketData weights investment frequency :
  match sp500Data_of marketData with
  | Some sp500 =>
      sp500 <> []
      /\ map date sp500 = map day_date (filter has_benchmark marketData)
      /\ forall p, In p sp500 ->
           0 < value p
           /\ exists day, In day marketData /\ day_date day = date p
                          /\ price_of day "^GSPC" = Some (value p)
  | None => forall day, In day marketData -> ~ positive_price day "^GSPC"
  end
  /\ ((List.length marketData <= 20)%nat
      \/ (List.length (filter has_benchmark marketData) <= 1)%nat ->
      sp500Correlation (dashboard_metrics marketData weights investment frequency)
      = None).
Proof.
  split.
  - unfold sp500Data_of. destruct (existsb has_benchmark marketData) eqn:E.
    + apply existsb_exists in E. destruct E as (day & Hin & Hday).
      split; [| split].
      * intros Hnil. apply map_eq_nil in Hnil.
        assert (Hf : In day (filter has_benchmark marketData))
          by (apply filter_In; now split).
        now rewrite Hnil in Hf.
      * rewrite map_map. reflexivity.
      * intros p Hp. apply in_map_iff in Hp. destruct Hp as (d & <- & Hd).
        apply filter_In in Hd. destruct Hd as [Hd Hb].
        apply has_benchmark_positive in Hb. destruct Hb as (q & Hq & Hpos).
        cbn [value date]. unfold price_or_zero. rewrite Hq.
        split; [exact Hpos |]. now exists d.
    + intros day Hin Hpos.
      assert (Hb : has_benchmark day = true) by now apply has_benchmark_positive.
      assert (Hex : existsb has_benchmark marketData = true)
        by (apply existsb_exists; now exists day).
      congruence.
  - intros H. unfold dashboard_metrics.
    set (history := calculatePortfolioHistory marketData weights investment frequency).
    assert (Hlen : List.length history = List.length marketData).
    { pose proof (history_dates marketData weights investment frequency) as Hd.
      apply (f_equal (@List.length string)) in Hd.
      now rewrite !length_map in Hd. }
    assert (Hnone : benchmark_correlation history (sp500Data_of marketData) = None).
    { apply benchmark_correlation_none.
      destruct H as [H | H]; [left; now rewrite Hlen |].
      right. unfold sp500Data_of.
      destruct (existsb has_benchmark marketData); [right | now left].
      eexists. split; [reflexivity |]. left. now rewrite length_map. }
    destruct history as [| first [| second others]]; try reflexivity.
    exact Hnone.
Qed.

End DashboardProperties.

(* ================================================================= *)
(** ** The saved portfolios *)

Section StorageProperties.

Variable Settings : Type.
Variable fits : list (PortfolioConfig Settings) -> bool.

Lemma update_first_length id updates isoNow (configurations : list (PortfolioConfig Settings)) :
  forall updated,
    update_first id updates isoNow configurations = Some updated ->
    List.length updated = List.length configurations.
Proof.
  induction configurations as [| c rest IH]; intros updated; cbn [update_first];
    [discriminate |].
  destruct (String.eqb (config_id c) id).
  - intros H. injection H as <-. reflexivity.
  - destruct (update_first id updates isoNow rest) as [rest' |]; cbn [option_map];
      [| discriminate].
    intros H. injection H as <-. cbn [List.length]. now rewrite (IH rest').
Qed.

Lemma storage_after_bounded item call :
  (List.length (getSavedPortfolios item) <= MAX_CONFIGS)%nat ->
  (List.length (getSavedPortfolios (storage_after fits item call)) <= MAX_CONFIGS)%nat.
Proof.
  intros Hitem. destruct call as [settings timestamp isoNow | id | id updates isoNow];
    cbn [storage_after].
  - unfold savePortfolioConfig, setItem.
    destruct (fits _) eqn:Hfits; [| exact Hitem].
    cbn [getSavedPortfolios]. rewrite length_app. cbn [List.length].
    destruct (MAX_CONFIGS <=? List.length (getSavedPortfolios item))%nat eqn:Hfull.
    + destruct (getSavedPortfolios item) as [| c rest]; cbn [tl List.length] in *;
        unfold MAX_CONFIGS in *; lia.
    + apply Nat.leb_gt in Hfull. lia.
  - unfold deletePortfolioConfig, setItem.
    destruct (fits _); [| exact Hitem].
    cbn [getSavedPortfolios].
    etransitivity; [apply filter_length_le | exact Hitem].
  - unfold updatePortfolioConfig.
    destruct (update_first id updates isoNow (getSavedPortfolios item))
      as [updated |] eqn:E; [| exact Hitem].
    unfold setItem. destruct (fits updated); [| exact Hitem].
    cbn [getSavedPortfolios]. now rewrite (update_first_length _ _ _ _ _ E).
Qed.

(** X28. Whatever the dashboard calls, in whatever order, and whether or
    not the storage takes each write, a storage that holds at most 10
    configurations never holds more than 10. *)
Theorem saved_portfolios_bounded calls item :
  (List.length (getSavedPortfolios item) <= MAX_CONFIGS)%nat ->
  (List.length (getSavedPortfolios (fold_left (storage_after fits) calls item))
   <= MAX_CONFIGS)%nat.
Proof.
  revert item. induction calls as [| call calls IH]; intros item Hitem; [exact Hitem |].
  cbn [fold_left]. apply IH. now apply storage_after_bounded.
Qed.

Lemma skipn_all_but_last {A : Type} (n : nat) (l : list A) (x : A) :
  (n <= List.length l)%nat -> skipn n (l ++ [x]) = skipn n l ++ [x].
Proof.
  revert l. induction n as [| n IH]; intros l Hn; [reflexivity |].
  destruct l as [| y l]; [cbn [List.length] in Hn; lia |].
  cbn [app skipn]. apply IH. cbn [List.length] in Hn. lia.
Qed.

Lemma saves_from_empty saved :
  (forall l, fits l = true) ->
  fold_left (storage_after fits) (map save_call saved) None
  = match saved with
    | [] => None
    | _ => Some (skipn (List.length saved - MAX_CONFIGS) (map saved_config saved))
    end.
Proof.
  intros Hfits. induction saved as [| c saved IH] using rev_ind; [reflexivity |].
  rewrite !map_app, fold_left_app, IH. cbn [map fold_left].
  replace (match saved ++ [c] with
           | [] => None
           | _ :: _ =>
               Some (skipn (List.length (saved ++ [c]) - MAX_CONFIGS)
                       (map saved_config saved ++ [saved_config c]))
           end)
    with (Some (skipn (List.length (saved ++ [c]) - MAX_CONFIGS)
                  (map saved_config saved ++ [saved_config c])))
    by now destruct saved.
  destruct c as [[settings timestamp] isoNow]. cbn [save_call saved_config storage_after].
  unfold savePortfolioConfig, setItem. rewrite Hfits.
  f_equal. rewrite length_app. cbn [List.length].
  set (news := map saved_config saved).
  assert (Hlen : List.length news = List.length saved)
    by (unfold news; apply length_map).
  destruct saved as [| c1 saved'].
  - reflexivity.
  - cbn [getSavedPortfolios].
    set (n := List.length (c1 :: saved')) in *.
    rewrite length_skipn, Hlen. unfold MAX_CONFIGS.
    destruct (le_lt_dec 10 n) as [Hfull | Hroom].
    + replace (10 <=? n - (n - 10))%nat with true
        by (symmetry; apply Nat.leb_le; lia).
      replace (n + 1 - 10)%nat with (S (n - 10)) by lia.
      rewrite skipn_all_but_last by lia.
      f_equal. change (S (n - 10)) with (1 + (n - 10))%nat.
      rewrite <- skipn_skipn. now destruct (skipn (n - 10) news).
    + replace (10 <=? n - (n - 10))%nat with false
        by (symmetry; apply Nat.leb_gt; lia).
      replace (n + 1 - 10)%nat with 0%nat by lia.
      replace (n - 10)%nat with 0%nat by lia.
      reflexivity.
Qed.


End StorageProperties.

(** A run of X28: two saves and a deletion on an empty storage. *)
Lemma saved_portfolios_bounded_witness :
  let calls :=
    [Save 1%nat "1700000000000" "2023-11-14T22:13:20.000Z";
     Save 2%nat "1700000000001" "2023-11-14T22:13:20.001Z";
     Delete "portfolio-1700000000000"] in
  (List.length (getSavedPortfolios (@None (list (PortfolioConfig nat)))) <= MAX_CONFIGS)%nat
  /\ (List.length
        (getSavedPortfolios (fold_left (storage_after (fun _ => true)) calls None))
      <= MAX_CONFIGS)%nat.
Proof.
  intros calls.
  assert (H : (List.length (getSavedPortfolios (@None (list (PortfolioConfig nat))))
               <= MAX_CONFIGS)%nat) by (simpl; lia).
  split; [exact H |].
  exact (saved_portfolios_bounded nat (fun _ => true) calls None H).
Defined.


(* ================================================================= *)
(** ** The assets on offer *)

Lemma filter_all {A : Type} (f : A -> bool) l :
  (forall x, In x l -> f x = true) -> filter f l = l.
Proof.
  induction l as [| x l IH]; intros H; [reflexivity |].
  cbn [filter]. rewrite (H x) by now left.
  f_equal. apply IH. intros y Hy. apply H. now right.
Qed.

(** X30. Every ticker of the table of assets on offer passes the filter
    of the market data route, and the tickers of the table are pairwise
    distinct; so a selection of at most 20 tickers of the table is fetched
    as it is, followed by the benchmark symbol. *)
Theorem offered_assets_are_fetched requestedAssets :
  (forall asset, In asset requestedAssets -> In asset AVAILABLE_TICKERS) ->
  (List.length requestedAssets <= 20)%nat ->
  assetsToFetch_of requestedAssets = requestedAssets ++ ["^GSPC"%string]
  /\ NoDup AVAILABLE_TICKERS
  /\ forall asset, In asset AVAILABLE_TICKERS -> matches_asset_pattern asset = true.
Proof.
  intros Hoffered Hlen.
  assert (Hmatch : forall asset,
             In asset AVAILABLE_TICKERS -> matches_asset_pattern asset = true).
  { intros asset Hin. unfold AVAILABLE_TICKERS in Hin. cbn [In] in Hin.
    repeat (destruct Hin as [<- | Hin]; [reflexivity |]). destruct Hin. }
  split; [| split; [| exact Hmatch]].
  - unfold assetsToFetch_of, ASSETS_of. rewrite filter_all; [reflexivity |].
    intros asset Hin. rewrite (Hmatch asset) by now apply Hoffered.
    apply Nat.leb_le in Hlen. now rewrite Hlen.
  - unfold AVAILABLE_TICKERS.
    repeat (constructor; [cbn [In]; intros H;
                          repeat (destruct H as [H | H]; [discriminate |]);
                          exact H |]).
    constructor.
Qed.

(** A run of X30 on the default selection of the dashboard. *)
Lemma offered_assets_are_fetched_witness :
  let requestedAssets := ["BTC-USD"%string; "ETH-USD"%string; "SOL-USD"%string] in
  (forall asset, In asset requestedAssets -> In asset AVAILABLE_TICKERS)
  /\ (List.length requestedAssets <= 20)%nat
  /\ assetsToFetch_of requestedAssets
     = ["BTC-USD"%string; "ETH-USD"%string; "SOL-USD"%string; "^GSPC"%string].
Proof.
  intros requestedAssets.
  assert (H1 : forall asset, In asset requestedAssets -> In asset AVAILABLE_TICKERS).
  { intros asset [<- | [<- | [<- | []]]]; unfold AVAILABLE_TICKERS; cbn [In]; tauto. }
  assert (H2 : (List.length requestedAssets <= 20)%nat) by (simpl; lia).
  split; [exact H1 |]. split; [exact H2 |].
  exact (proj1 (offered_assets_are_fetched requestedAssets H1 H2)).
Defined.
